(** * The JSON record store, its backup manager and the calculators built on it

    A shallow embedding of [utils/json_store.py], [utils/payroll.py] and
    [utils/commissions.py].  Python values that reach the store are JSON
    values; the file system, the wall clock, the random source of [uuid4] and
    transient I/O failures live in an explicit [world] that every operation
    threads through. *)

From Stdlib Require Import ZArith NArith Ascii String PrimFloat SpecFloat FloatOps
  FloatAxioms.
From stdpp Require Import gmap strings list fin_maps.

Set Warnings "-register-all,-inexact-float".

(** ** Python values *)

(** What [json.load] can produce and [json.dump] can write.  A dict is a
    finite map: Python compares dicts regardless of insertion order. *)
Inductive json :=
| JNull
| JBool (b : bool)
| JInt (z : Z)
| JFloat (f : float)
| JStr (s : string)
| JList (l : list json)
| JDict (d : gmap string json).

(** A record of the store is a dict. *)
Abbreviation Dict := (gmap string json).

(** The exceptions that the modelled code raises or catches. *)
Inductive exn :=
| OSError
| FileNotFoundError
| JSONDecodeError
| UnicodeDecodeError
| UnicodeEncodeError
| AttributeError
| TypeError
| ValueError
| OverflowError
| GenericException.   (* a bare [Exception(...)] *)

Inductive result (A : Type) :=
| Ok (a : A)
| Raise (e : exn).
Arguments Ok {A} a.
Arguments Raise {A} e.

(** [bool(v)] *)
Definition truthy (v : json) : bool :=
  match v with
  | JNull => false
  | JBool b => b
  | JInt z => negb (z =? 0)%Z
  | JFloat f => negb (f =? 0)%float
  | JStr s => negb (String.eqb s "")
  | JList l => match l with [] => false | _ => true end
  | JDict d => negb (bool_decide (d = ∅))
  end.

(** [v == s] for a [str] s: only an equal string is equal to a string. *)
Definition eq_str (v : json) (s : string) : bool :=
  match v with
  | JStr t => String.eqb t s
  | _ => false
  end.

(** [d.get(key)], with Python's [None] for a missing key. *)
Definition dict_get (d : Dict) (key : string) : json :=
  default JNull (d !! key).

(** [d.get(key, dflt)] *)
Definition dict_get_or (d : Dict) (key : string) (dflt : json) : json :=
  default dflt (d !! key).

(** [v.get(key)] on a value that need not be a dict: everything but a dict
    has no attribute [get]. *)
Definition get (v : json) (key : string) : result json :=
  match v with
  | JDict d => Ok (dict_get d key)
  | _ => Raise AttributeError
  end.

(** [v.get(key, dflt)] *)
Definition get_or (v : json) (key : string) (dflt : json) : result json :=
  match v with
  | JDict d => Ok (dict_get_or d key dflt)
  | _ => Raise AttributeError
  end.

(** ** Equality of Python values *)

(** A Python number as comparison and addition see it: a bool is the int 0
    or 1. *)
Inductive number :=
| Int (z : Z)
| Float (f : float).

Definition number_of (v : json) : option number :=
  match v with
  | JInt z => Some (Int z)
  | JBool b => Some (Int (if b then 1 else 0))
  | JFloat f => Some (Float f)
  | _ => None
  end.

(** An int against a float, compared on their exact values; [None] when the
    float is not a number. *)
Definition compare_exact (z : Z) (f : float) : option comparison :=
  match Prim2SF f with
  | S754_nan => None
  | S754_infinity negative => Some (if negative then Gt else Lt)
  | S754_zero _ => Some (z ?= 0)%Z
  | S754_finite negative m e =>
      let v := if negative then Zneg m else Zpos m in
      match e with
      | Zneg k => Some (z * 2 ^ Zpos k ?= v)%Z
      | _ => Some (z ?= v * 2 ^ e)%Z
      end
  end.

(** [a == b] on numbers: ints by value, floats as IEEE 754 has it, an int
    and a float when they denote the same number. *)
Definition num_eq (a b : number) : bool :=
  match a, b with
  | Int x, Int y => (x =? y)%Z
  | Float x, Float y => (x =? y)%float
  | Int x, Float y | Float y, Int x =>
      match compare_exact x y with Some Eq => true | _ => false end
  end.

(** [a == b] on values that do not share an object: numbers by [num_eq],
    strings and [None] with their like only, lists of equal length element
    by element, dicts with the same keys value by value. *)
Fixpoint py_eq (a b : json) : bool :=
  match a, b with
  | JNull, JNull => true
  | JStr s, JStr t => String.eqb s t
  | JList l, JList m =>
      (fix all_eq (l m : list json) : bool :=
         match l, m with
         | [], [] => true
         | x :: l', y :: m' => py_eq x y && all_eq l' m'
         | _, _ => false
         end) l m
  | JDict d, JDict e =>
      map_fold (λ _ (same : bool) rest, same && rest) true
        (merge (λ x y, match x, y with
                       | Some v, Some u => Some (py_eq v u)
                       | None, None => None
                       | _, _ => Some false
                       end) d e)
  | _, _ =>
      match number_of a, number_of b with
      | Some x, Some y => num_eq x y
      | _, _ => false
      end
  end.

(** ** The world *)

(** What reading a file as UTF-8 text and [json.load] make of its bytes.
    The codecs themselves are library code: a file is identified with the
    outcome of decoding it, and [json.dump v] leaves a file that decodes to
    [v]. *)
Inductive file_content :=
| Empty                         (* zero bytes: "Expecting value" *)
| Malformed (text : string)     (* text the JSON decoder rejects *)
| Undecodable (bytes : string)  (* bytes that are not UTF-8 text *)
| Document (v : json).          (* text of the JSON document v *)

Record datetime := {
  year : N; month : N; day : N;
  hour : N; minute : N; second : N; microsecond : N
}.

Record world := {
  files : gmap string file_content;  (* regular files by path *)
  io_faults : nat;                   (* pending failures of open() *)
  clock : nat → datetime;            (* successive readings of datetime.now() *)
  ticks : nat;                       (* readings taken so far *)
  entropy : nat → N;                 (* successive draws of os.urandom(16) *)
  draws : nat;                       (* draws taken so far *)
  copies : list (string * string)    (* shutil.copy2 calls, latest first *)
}.

Definition set_files (f : gmap string file_content) (w : world) : world :=
  {| files := f; io_faults := io_faults w; clock := clock w; ticks := ticks w;
     entropy := entropy w; draws := draws w; copies := copies w |}.

Definition set_io_faults (n : nat) (w : world) : world :=
  {| files := files w; io_faults := n; clock := clock w; ticks := ticks w;
     entropy := entropy w; draws := draws w; copies := copies w |}.

Definition set_ticks (n : nat) (w : world) : world :=
  {| files := files w; io_faults := io_faults w; clock := clock w; ticks := n;
     entropy := entropy w; draws := draws w; copies := copies w |}.

Definition set_draws (n : nat) (w : world) : world :=
  {| files := files w; io_faults := io_faults w; clock := clock w; ticks := ticks w;
     entropy := entropy w; draws := n; copies := copies w |}.

Definition set_copies (c : list (string * string)) (w : world) : world :=
  {| files := files w; io_faults := io_faults w; clock := clock w; ticks := ticks w;
     entropy := entropy w; draws := draws w; copies := c |}.

(** A computation that may change the world and may raise. *)
Definition M (A : Type) : Type := world → result A * world.

Definition ret {A} (a : A) : M A := λ w, (Ok a, w).
Definition raise {A} (e : exn) : M A := λ w, (Raise e, w).
Definition bind {A B} (c : M A) (k : A → M B) : M B :=
  λ w, match c w with
       | (Ok a, w') => k a w'
       | (Raise e, w') => (Raise e, w')
       end.
(** [try: c  except Exception as e: h e] *)
Definition try_except {A} (c : M A) (h : exn → M A) : M A :=
  λ w, match c w with
       | (Ok a, w') => (Ok a, w')
       | (Raise e, w') => h e w'
       end.
(** A pure step that may raise. *)
Definition lift {A} (r : result A) : M A := λ w, (r, w).

Notation "'do' x <- c ; k" := (bind c (λ x, k))
  (at level 10, x name, c at level 100, k at level 200).

(** [os.path.exists(path)] *)
Definition path_exists (path : string) (w : world) : bool :=
  bool_decide (is_Some (files w !! path)).

(** [open(path, ...)]: the next pending fault, if any, makes it raise. *)
Definition open_file : M unit :=
  λ w, match io_faults w with
       | O => (Ok tt, w)
       | S n => (Raise OSError, set_io_faults n w)
       end.

(** [datetime.now()] *)
Definition now : M datetime :=
  λ w, (Ok (clock w (ticks w)), set_ticks (S (ticks w)) w).

(** [os.urandom(16)] as a number *)
Definition urandom : M N :=
  λ w, (Ok (entropy w (draws w)), set_draws (S (draws w)) w).

(** ** Strings and paths *)

(** [s.endswith(suffix)] *)
Definition endswith (s suffix : string) : bool :=
  let n := String.length s in
  let m := String.length suffix in
  (m <=? n)%nat && String.eqb (substring (n - m) m s) suffix.

(** [s.startswith(p)] *)
Definition startswith (s p : string) : bool := String.prefix p s.

(** [os.path.join(a, b)] as a POSIX host has it, [posixpath.join].  What is
    proved of paths below either holds of any way of joining them or is
    stated for a POSIX host. *)
Definition path_join (a b : string) : string :=
  if startswith b "/" then b
  else if String.eqb a "" || endswith a "/" then a +:+ b
  else a +:+ "/" +:+ b.

Fixpoint basename_from (tail p : string) : string :=
  match p with
  | EmptyString => tail
  | String c rest =>
      if Ascii.eqb c "/"%char then basename_from rest rest else basename_from tail rest
  end.

(** [os.path.basename(p)] as a POSIX host has it: what follows the last
    slash *)
Definition basename (p : string) : string := basename_from p p.

Definition digit (n : N) : ascii := ascii_of_N (48 + n mod 10).

(** [n] in decimal on exactly [k] digits, as ["%0kd"] prints it when it fits *)
Fixpoint pad (k : nat) (n : N) : string :=
  match k with
  | O => EmptyString
  | S k' => String (digit (n / 10 ^ N.of_nat k')) (pad k' n)
  end.

(** The date as [YYYY-MM-DD], every field padded with zeros *)
Definition iso_date (d : datetime) : string :=
  pad 4 (year d) +:+ "-" +:+ pad 2 (month d) +:+ "-" +:+ pad 2 (day d).

(** [d.strftime('%Y-%m-%d')], which is the padded date for the years from
    1000 on (the C library of some hosts does not pad an earlier year) *)
Definition strftime_ymd (d : datetime) : string := iso_date d.

(** [d.isoformat()]: the fraction is left out when it is zero *)
Definition isoformat (d : datetime) : string :=
  iso_date d +:+ "T" +:+ pad 2 (hour d) +:+ ":" +:+ pad 2 (minute d)
    +:+ ":" +:+ pad 2 (second d)
    +:+ (if (microsecond d =? 0)%N then "" else "." +:+ pad 6 (microsecond d)).

Definition hex_digit (n : N) : ascii :=
  let d := (n mod 16)%N in
  ascii_of_N (if (d <? 10)%N then 48 + d else 87 + d).

(** ['%0kx' % n] for an n below 16^k *)
Fixpoint hex (k : nat) (n : N) : string :=
  match k with
  | O => EmptyString
  | S k' => String (hex_digit (n / 16 ^ N.of_nat k')) (hex k' n)
  end.

(** [uuid.UUID(bytes=..., version=4).int]: the variant and version bits are
    forced on the 128 random bits *)
Definition uuid4_int (bytes : N) : N :=
  let i := N.land bytes (N.ones 128) in
  let i := N.ldiff i (N.shiftl 0xc000 48) in
  let i := N.lor i (N.shiftl 0x8000 48) in
  let i := N.ldiff i (N.shiftl 0xf000 64) in
  N.lor i (N.shiftl 4 76).

(** [str(uuid)]: 8-4-4-4-12 lowercase hex digits *)
Definition uuid_str (i : N) : string :=
  let h := hex 32 i in
  substring 0 8 h +:+ "-" +:+ substring 8 4 h +:+ "-" +:+ substring 12 4 h
    +:+ "-" +:+ substring 16 4 h +:+ "-" +:+ substring 20 12 h.

(** [str(uuid.uuid4())] *)
Definition uuid4 : M string :=
  do b <- urandom; ret (uuid_str (uuid4_int b)).

(** ** Files *)

Definition is_oserror (e : exn) : bool :=
  match e with
  | OSError | FileNotFoundError => true
  | _ => false
  end.

(** [open(path, 'r')] and reading the text *)
Definition open_read (path : string) : M file_content :=
  do _ <- open_file;
  λ w, match files w !! path with
       | Some c => (Ok c, w)
       | None => (Raise FileNotFoundError, w)
       end.

(** [open(path, 'w')]: the file is created or truncated as it is opened *)
Definition open_write (path : string) : M unit :=
  do _ <- open_file;
  λ w, (Ok tt, set_files (<[path := Empty]> (files w)) w).

(** [json.load(f)] on a file opened with [encoding='utf-8']: reading the
    text comes first, and bytes that are not UTF-8 raise there. *)
Definition json_load (c : file_content) : result json :=
  match c with
  | Document v => Ok v
  | Empty | Malformed _ => Raise JSONDecodeError
  | Undecodable _ => Raise UnicodeDecodeError
  end.

(** [json.dump(v, f); f.flush(); os.fsync(f.fileno())].  The failures of the
    world are failures of [open]: once the file is open the document is
    written. *)
Definition json_dump (path : string) (v : json) : M unit :=
  λ w, (Ok tt, set_files (<[path := Document v]> (files w)) w).

(** [shutil.copy2(src, dst)]: both files are opened, then the bytes copied *)
Definition copy2 (src dst : string) : M unit :=
  do c <- open_read src;
  do _ <- open_write dst;
  λ w, (Ok tt, set_copies ((src, dst) :: copies w)
                 (set_files (<[dst := c]> (files w)) w)).

(** ** The store: [class JSONStore] *)

Record JSONStore := {
  data_dir : string;
  backup_root : string;
  windows : bool        (* platform.system() == 'Windows' *)
}.

Definition max_retries : nat := 5.

Section Store.
Variable self : JSONStore.

Definition _get_file_path (filename : string) : string :=
  let filename := if endswith filename ".json" then filename
                  else filename +:+ ".json" in
  path_join (data_dir self) filename.

(** The inner [try] of [_read_with_lock]: load under the lock; a value that
    is no list and a [JSONDecodeError] give the empty list, any other error
    of the load is passed on. *)
Definition load_list (c : file_content) : result (list json) :=
  match json_load c with
  | Ok (JList data) => Ok data
  | Ok _ => Ok []
  | Raise JSONDecodeError => Ok []
  | Raise e => Raise e
  end.

(** The loop [for attempt in range(max_retries)] of [_read_with_lock].
    Taking the lock never fails in a sequential run; the back-off sleeps
    have no effect on the result. *)
Fixpoint read_attempts (path : string) (attempts : list nat) : M (list json) :=
  match attempts with
  | [] => ret []
  | attempt :: rest =>
      try_except (do c <- open_read path; lift (load_list c))
        (λ e, if is_oserror e then
                if (attempt <? max_retries - 1)%nat then read_attempts path rest
                else if windows self then
                       do c <- open_read path; lift (load_list c)
                     else raise e
              else raise e)
  end.

Definition _read_with_lock (file_path : string) : M (list json) :=
  λ w, if path_exists file_path w
       then read_attempts file_path (seq 0 max_retries) w
       else (Ok [], w).

(** The loop of [_write_with_lock]. *)
Fixpoint write_attempts (path : string) (data : list json) (attempts : list nat)
  : M bool :=
  match attempts with
  | [] => ret false
  | attempt :: rest =>
      try_except
        (do _ <- open_write path; do _ <- json_dump path (JList data); ret true)
        (λ e, if is_oserror e then
                if (attempt <? max_retries - 1)%nat then write_attempts path data rest
                else if windows self then
                       do done <- try_except
                                    (do _ <- open_write path;
                                     do _ <- json_dump path (JList data); ret true)
                                    (λ _, ret false);
                       if done then ret true else raise e
                     else raise e
              else raise e)
  end.

Definition _write_with_lock (file_path : string) (data : list json) : M bool :=
  write_attempts file_path data (seq 0 max_retries).

(** The same loop with the library calls [json.dump(data, f); f.flush();
    os.fsync(f.fileno())] left open: [dump] may raise any error, and may
    leave in the file what it has written until then. *)
Fixpoint write_attempts_with (dump : string → json → M unit) (path : string)
    (data : list json) (attempts : list nat) : M bool :=
  match attempts with
  | [] => ret false
  | attempt :: rest =>
      try_except
        (do _ <- open_write path; do _ <- dump path (JList data); ret true)
        (λ e, if is_oserror e then
                if (attempt <? max_retries - 1)%nat
                then write_attempts_with dump path data rest
                else if windows self then
                       do done <- try_except
                                    (do _ <- open_write path;
                                     do _ <- dump path (JList data); ret true)
                                    (λ _, ret false);
                       if done then ret true else raise e
                     else raise e
              else raise e)
  end.

Definition _write_with_lock_with (dump : string → json → M unit) (file_path : string)
    (data : list json) : M bool :=
  write_attempts_with dump file_path data (seq 0 max_retries).

(** Directories are not part of the world: [os.makedirs] leaves no trace. *)
Definition _create_daily_backup (file_path : string) : M bool :=
  try_except
    (λ w, if negb (path_exists file_path w) then (Ok true, w)
          else
            (do d <- now;
             let today := strftime_ymd d in
             let backup_dir := path_join (backup_root self) today in
             let filename := basename file_path in
             let backup_path := path_join backup_dir filename in
             λ w', if negb (path_exists backup_path w')
                   then (do _ <- copy2 file_path backup_path; ret true) w'
                   else (Ok true, w')) w)
    (λ _, ret false).

Definition read_all (collection : string) : M (list json) :=
  _read_with_lock (_get_file_path collection).

(** The scan [for i, record in enumerate(data): if record.get('id') == record_id]:
    the first match with its index; a value without [get] met on the way
    raises. *)
Fixpoint locate (record_id : string) (data : list json) (i : nat)
  : result (option (nat * Dict)) :=
  match data with
  | [] => Ok None
  | JDict d :: rest =>
      if eq_str (dict_get d "id") record_id then Ok (Some (i, d))
      else locate record_id rest (S i)
  | _ :: _ => Raise AttributeError
  end.

Definition find_by_id (collection record_id : string) : M (option Dict) :=
  do data <- read_all collection;
  do found <- lift (locate record_id data 0);
  ret (snd <$> found).

(** First half of [create]: snapshot, then read under the shared lock. *)
Definition create_read (collection : string) : M (list json) :=
  let file_path := _get_file_path collection in
  do _ <- _create_daily_backup file_path;
  _read_with_lock file_path.

(** Second half of [create]: stamp the record, append, write under the
    exclusive lock. *)
Definition create_write (collection : string) (record : Dict) (data : list json)
  : M Dict :=
  let file_path := _get_file_path collection in
  do record <- match record !! "id" with
               | Some _ => ret record
               | None => do u <- uuid4;
                         ret (<["id" := JStr (substring 0 8 u)]> record)
               end;
  do t1 <- now;
  let record := <["created_at" := JStr (isoformat t1)]> record in
  do t2 <- now;
  let record := <["updated_at" := JStr (isoformat t2)]> record in
  let data := data ++ [JDict record] in
  do saved <- _write_with_lock file_path data;
  if saved then ret record else raise GenericException.

Definition create (collection : string) (record : Dict) : M Dict :=
  do data <- create_read collection;
  create_write collection record data.

Definition update (collection record_id : string) (updates : Dict)
  : M (option Dict) :=
  let file_path := _get_file_path collection in
  do _ <- _create_daily_backup file_path;
  do data <- _read_with_lock file_path;
  do found <- lift (locate record_id data 0);
  match found with
  | Some (i, r) =>
      let r := updates ∪ r in
      do t <- now;
      let r := <["updated_at" := JStr (isoformat t)]> r in
      let data := <[i := JDict r]> data in
      do saved <- _write_with_lock file_path data;
      if saved then ret (Some r) else raise GenericException
  | None => ret None
  end.

(** [[record for record in data if record.get('id') != record_id]] *)
Fixpoint without (record_id : string) (data : list json) : result (list json) :=
  match data with
  | [] => Ok []
  | JDict d :: rest =>
      match without record_id rest with
      | Ok kept => Ok (if eq_str (dict_get d "id") record_id then kept
                       else JDict d :: kept)
      | Raise e => Raise e
      end
  | _ :: _ => Raise AttributeError
  end.

Definition delete (collection record_id : string) : M bool :=
  let file_path := _get_file_path collection in
  do _ <- _create_daily_backup file_path;
  do data <- _read_with_lock file_path;
  let original_length := length data in
  do data <- lift (without record_id data);
  if (length data <? original_length)%nat then _write_with_lock file_path data
  else ret false.

(** [needle in s] on strings *)
Definition is_substring (needle s : string) : bool :=
  match index 0 needle s with Some _ => true | None => false end.

(** [key not in record or record[key] != value].  A list or a string
    answers the membership test and then fails on the subscript; a number,
    a boolean or [None] fails on the membership test. *)
Definition mismatch (record : json) (key : string) (value : json) : result bool :=
  match record with
  | JDict d => Ok (match d !! key with
                   | Some v => negb (py_eq v value)
                   | None => true
                   end)
  | JList l => if existsb (λ v, eq_str v key) l then Raise TypeError else Ok true
  | JStr s => if is_substring key s then Raise TypeError else Ok true
  | _ => Raise TypeError
  end.

(** The inner loop of [filter_records], which stops at the first mismatch. *)
Fixpoint matches (record : json) (filters : list (string * json)) : result bool :=
  match filters with
  | [] => Ok true
  | (key, value) :: rest =>
      match mismatch record key value with
      | Ok true => Ok false
      | Ok false => matches record rest
      | Raise e => Raise e
      end
  end.

Fixpoint select (filters : list (string * json)) (data : list json)
  : result (list json) :=
  match data with
  | [] => Ok []
  | record :: rest =>
      match matches record filters with
      | Ok keep =>
          match select filters rest with
          | Ok kept => Ok (if keep then record :: kept else kept)
          | Raise e => Raise e
          end
      | Raise e => Raise e
      end
  end.

(** [filter_records]: the filters are the items of the dict that the caller
    passes, in its order. *)
Definition filter_records (collection : string) (filters : list (string * json))
  : M (list json) :=
  do data <- read_all collection;
  lift (select filters data).

Definition count (collection : string) (filters : list (string * json)) : M nat :=
  match filters with
  | [] => do data <- read_all collection; ret (length data)
  | _ => do data <- filter_records collection filters; ret (length data)
  end.

End Store.

(** ** Python numbers *)

(** [float(n)] for an int: the nearest float, ties to even *)
Definition float_of_Z (z : Z) : result float :=
  let f := SF2Prim (binary_normalize prec emax z 0 false) in
  if is_infinity f then Raise OverflowError else Ok f.

(** [round(x, 3)] on a float: the decimal with three places nearest to the
    exact value of [x], ties to even, then the float nearest to it *)
Definition round3 (x : float) : float :=
  match Prim2SF x with
  | S754_finite s m e =>
      match e with
      | Zneg k =>
          let num := (Zpos m * 1000)%Z in
          let den := (2 ^ Zpos k)%Z in
          let q := (num / den)%Z in
          let r := (num mod den)%Z in
          let n := match (2 * r ?= den)%Z with
                   | Lt => q
                   | Gt => (q + 1)%Z
                   | Eq => if Z.even q then q else (q + 1)%Z
                   end in
          match n with
          | Zpos p => SF2Prim (SFdiv prec emax (S754_finite s p 0)
                                 (S754_finite false 1000 0))
          | _ => SF2Prim (S754_zero s)
          end
      | _ => x
      end
  | _ => x
  end.

(** What the interpreter and its library do on text: left as an interface. *)
Class Runtime := {
  (* [datetime.strptime(s, '%Y-%m-%d')], [None] for [ValueError] *)
  strptime_ymd : string → option datetime;
  (* [float(s)] on a str, [None] for [ValueError] *)
  float_of_str : string → option float;
  (* [str(e)] *)
  str_exn : exn → string
}.

(** The bool or int behind a value, as arithmetic sees it *)
Definition as_int (v : json) : option Z :=
  match v with
  | JBool b => Some (if b then 1 else 0)%Z
  | JInt z => Some z
  | _ => None
  end.

(** The operand of an arithmetic operation whose other side is a float *)
Definition float_operand (v : json) : result float :=
  match v with
  | JFloat f => Ok f
  | JBool b => Ok (if b then 1 else 0)%float
  | JInt z => float_of_Z z
  | _ => Raise TypeError
  end.

Definition arith (fz : Z → Z → Z) (ff : float → float → float) (a b : json)
  : result json :=
  match as_int a, as_int b with
  | Some x, Some y => Ok (JInt (fz x y))
  | _, _ =>
      match float_operand a with
      | Ok x => match float_operand b with
                | Ok y => Ok (JFloat (ff x y))
                | Raise e => Raise e
                end
      | Raise e => Raise e
      end
  end.

(** [a + b] and [a - b] where one side is a number *)
Definition py_add : json → json → result json := arith Z.add PrimFloat.add.
Definition py_sub : json → json → result json := arith Z.sub PrimFloat.sub.

(** [round(v, 3)] *)
Definition py_round3 (v : json) : result json :=
  match v with
  | JFloat f => Ok (JFloat (round3 f))
  | JBool b => Ok (JInt (if b then 1 else 0))
  | JInt z => Ok (JInt z)
  | _ => Raise TypeError
  end.

(** [min(a, b)] on floats: the first unless the second is smaller *)
Definition py_min (a b : float) : float := if (b <? a)%float then b else a.

Section Calculators.
Context {runtime : Runtime}.

(** [float(v)] *)
Definition py_float (v : json) : result float :=
  match v with
  | JFloat f => Ok f
  | JBool b => Ok (if b then 1 else 0)%float
  | JInt z => float_of_Z z
  | JStr s => match float_of_str s with
              | Some f => Ok f
              | None => Raise ValueError
              end
  | _ => Raise TypeError
  end.

(** [datetime.strptime(v, '%Y-%m-%d').date()] *)
Definition parse_date (v : json) : result datetime :=
  match v with
  | JStr s => match strptime_ymd s with
              | Some d => Ok d
              | None => Raise ValueError
              end
  | _ => Raise TypeError
  end.

(** Lexicographic order on lists of numbers *)
Fixpoint lex_lt (a b : list N) : bool :=
  match a, b with
  | x :: a', y :: b' => (x <? y)%N || ((x =? y)%N && lex_lt a' b')
  | _, _ => false
  end.

(** [d1 < d2] on [date] objects *)
Definition date_lt (d1 d2 : datetime) : bool :=
  lex_lt [year d1; month d1; day d1] [year d2; month d2; day d2].

(** The elements that [for x in v] visits; a value that is not iterable
    raises.  A dict gives its keys and a string its characters. *)
Definition iterate (v : json) : result (list json) :=
  match v with
  | JList l => Ok l
  | JDict d => Ok (JStr <$> (map_to_list d).*1)
  | JStr s => Ok ((λ c, JStr (String c EmptyString)) <$> list_ascii_of_string s)
  | _ => Raise TypeError
  end.

(** [not d] for an optional dict: [None] and the empty dict are false. *)
Definition absent (d : option Dict) : bool :=
  match d with
  | Some d => negb (truthy (JDict d))
  | None => true
  end.

End Calculators.

(** ** The commission engine: [commissions.py] *)

Module commissions.

Record CommissionCalculator := {
  data_dir : string;
  (* the instance that [from json_store import json_store] binds *)
  json_store : JSONStore
}.

Section CommissionCalculator.
Context {runtime : Runtime}.
Variable self : CommissionCalculator.

Definition default_config : json :=
  JDict (list_to_map [("global_commission_per_order", JFloat 0.25);
                      ("currency", JStr "KWD")]).

(** [with open(path) as f: return json.load(f)], with the value [dflt] when
    the file is missing or does not decode *)
Definition load_json_or (path : string) (dflt : json) : M json :=
  try_except (do c <- open_read path; lift (json_load c))
    (λ e, match e with
          | FileNotFoundError | JSONDecodeError => ret dflt
          | _ => raise e
          end).

Definition load_config : M json :=
  load_json_or (path_join (data_dir self) "config.json") default_config.

Definition load_commission_rules : M json :=
  load_json_or (path_join (data_dir self) "commission_rules.json") (JList []).

Definition load_driver (driver_id : string) : M (option Dict) :=
  try_except (find_by_id (json_store self) "drivers" driver_id) (λ _, ret None).

Definition load_client (client_id : string) : M (option Dict) :=
  try_except (find_by_id (json_store self) "clients" client_id) (λ _, ret None).

(** One bound of a rule's date range: whether the rule is to be skipped.
    [before] tells on which side of the bound the order date must not lie. *)
Definition out_of_range (bound : json) (skip : datetime → bool) : result bool :=
  if truthy bound then
    match parse_date bound with
    | Ok d => Ok (skip d)
    | Raise e => Raise e
    end
  else Ok false.

(** The loop of [_check_commission_rules]. *)
Fixpoint check_rules (rules : list json) (driver_id client_id : string)
    (order_date_obj : datetime) : result (option float) :=
  match rules with
  | [] => Ok None
  | JDict rule :: rest =>
      if eq_str (dict_get rule "driver_id") driver_id
         && eq_str (dict_get rule "client_id") client_id
         && truthy (dict_get_or rule "is_active" (JBool true))
      then
        let start_date := dict_get rule "start_date" in
        let end_date := dict_get rule "end_date" in
        match out_of_range start_date (λ d, date_lt order_date_obj d) with
        | Raise e => Raise e
        | Ok true => check_rules rest driver_id client_id order_date_obj
        | Ok false =>
            match out_of_range end_date (λ d, date_lt d order_date_obj) with
            | Raise e => Raise e
            | Ok true => check_rules rest driver_id client_id order_date_obj
            | Ok false =>
                match py_float (dict_get_or rule "commission_amount" (JInt 0)) with
                | Ok f => Ok (Some f)
                | Raise e => Raise e
                end
            end
        end
      else check_rules rest driver_id client_id order_date_obj
  | _ :: _ => Raise AttributeError
  end.

Definition _check_commission_rules (rules : json) (driver_id client_id order_date : string)
  : result (option float) :=
  match parse_date (JStr order_date) with
  | Ok order_date_obj =>
      match iterate rules with
      | Ok l => check_rules l driver_id client_id order_date_obj
      | Raise e => Raise e
      end
  | Raise e => Raise e
  end.

Definition _has_client_specific_commission (driver : Dict) (client_id : string) : bool :=
  eq_str (dict_get driver "primary_client_id") client_id
  || eq_str (dict_get driver "secondary_client_id") client_id.

Definition commission_failure (error : string) : Dict :=
  list_to_map [("success", JBool false); ("error", JStr error); ("commission", JInt 0)].

(** The [if]/[elif] chain of [calculate_commission]: the amount and the tag
    of the tier that gave it. *)
Definition resolve (rule_commission : option float) (driver client : Dict)
    (config : json) (client_id : string) : result (json * string) :=
  match rule_commission with
  | Some amount => Ok (JFloat amount, "rule")
  | None =>
      if _has_client_specific_commission driver client_id then
        if eq_str (dict_get driver "primary_client_id") client_id then
          Ok (dict_get_or driver "primary_client_commission" (JInt 0),
              "driver_primary_client")
        else if eq_str (dict_get driver "secondary_client_id") client_id then
          Ok (dict_get_or driver "secondary_client_commission" (JInt 0),
              "driver_secondary_client")
        else Ok (JInt 0, "global")
      else if truthy (dict_get driver "default_commission_per_order") then
        match py_float (dict_get_or driver "default_commission_per_order" (JInt 0)) with
        | Ok f => Ok (JFloat f, "driver_default")
        | Raise e => Raise e
        end
      else if truthy (dict_get client "commission_rate") then
        match py_float (dict_get_or client "commission_rate" (JInt 0)) with
        | Ok f => Ok (JFloat f, "client_rate")
        | Raise e => Raise e
        end
      else
        match get_or config "global_commission_per_order" (JFloat 0.25) with
        | Ok v =>
            match py_float v with
            | Ok f => Ok (JFloat f, "global")
            | Raise e => Raise e
            end
        | Raise e => Raise e
        end
  end.

(** The dict that [calculate_commission] returns when all went well; its
    values are evaluated in the order of the literal. *)
Definition commission_success (commission_amount : json) (commission_source : string)
    (driver client : Dict) (config : json) (order_date : string) : result Dict :=
  match py_round3 commission_amount with
  | Ok commission =>
      match get_or config "currency" (JStr "KWD") with
      | Ok currency =>
          Ok (list_to_map
                [("success", JBool true);
                 ("commission", commission);
                 ("source", JStr commission_source);
                 ("driver_name", dict_get_or driver "full_name" (JStr ""));
                 ("client_name", dict_get_or client "company_name" (JStr ""));
                 ("currency", currency);
                 ("calculation_date", JStr order_date)])
      | Raise e => Raise e
      end
  | Raise e => Raise e
  end.

Definition calculate_commission (driver_id client_id : string)
    (order_date : option string) : M Dict :=
  try_except
    (do driver <- load_driver driver_id;
     do client <- load_client client_id;
     do config <- load_config;
     do commission_rules <- load_commission_rules;
     if absent driver then ret (commission_failure "السائق غير موجود")
     else if absent client then ret (commission_failure "العميل غير موجود")
     else
       let driver := default ∅ driver in
       let client := default ∅ client in
       do order_date <- match order_date with
                        | Some s => if String.eqb s "" then
                                      do d <- now; ret (strftime_ymd d)
                                    else ret s
                        | None => do d <- now; ret (strftime_ymd d)
                        end;
       do rule_commission <- lift (_check_commission_rules commission_rules
                                     driver_id client_id order_date);
       do tier <- lift (resolve rule_commission driver client config client_id);
       lift (commission_success (fst tier) (snd tier) driver client config order_date))
    (λ e, ret (commission_failure ("خطأ في حساب العمولة: " +:+ str_exn e))).

End CommissionCalculator.

End commissions.

(** ** The payroll engine: [payroll.py] *)

Module payroll.

Record PayrollCalculator := {
  data_dir : string;
  (* the instance that [from json_store import json_store] binds *)
  json_store : JSONStore;
  (* [commission_calculator.calculate_monthly_commission_total], of the
     module that [from commissions import commission_calculator] finds *)
  calculate_monthly_commission_total : string → Z → Z → M Dict
}.

(** [a * b] where one side is a number *)
Definition py_mul : json → json → result json := arith Z.mul PrimFloat.mul.

(** [v > 0] on a number *)
Definition gt_zero (v : json) : result bool :=
  match v with
  | JFloat f => Ok (0 <? f)%float
  | JBool b => Ok b
  | JInt z => Ok (0 <? z)%Z
  | _ => Raise TypeError
  end.

(** A loop that threads a state through the elements of a list *)
Fixpoint for_each {A S} (step : S → A → M S) (l : list A) (state : S) : M S :=
  match l with
  | [] => ret state
  | x :: rest => do state <- step state x; for_each step rest state
  end.

Section PayrollCalculator.
Context {runtime : Runtime}.
Variable self : PayrollCalculator.

Definition default_config : json :=
  JDict (list_to_map [("currency", JStr "KWD");
                      ("payroll_approval_required", JBool true)]).

Definition load_config : M json :=
  try_except (do c <- open_read (path_join (data_dir self) "config.json");
              lift (json_load c))
    (λ e, match e with
          | FileNotFoundError | JSONDecodeError => ret default_config
          | _ => raise e
          end).

Definition load_driver (driver_id : string) : M (option Dict) :=
  try_except (find_by_id (json_store self) "drivers" driver_id) (λ _, ret None).

Definition get_driver_commissions (driver_id : string) (year month : Z) : M Dict :=
  try_except (calculate_monthly_commission_total self driver_id year month)
    (λ e, ret (list_to_map
                 [("success", JBool false);
                  ("error", JStr ("خطأ في حساب العمولات: " +:+ str_exn e));
                  ("total_commission", JInt 0)])).

(** [[advance for advance in advances
      if advance.get('status') in ['active', 'partial']]] *)
Fixpoint active_only (advances : list json) : result (list json) :=
  match advances with
  | [] => Ok []
  | JDict a :: rest =>
      match active_only rest with
      | Ok kept =>
          Ok (if eq_str (dict_get a "status") "active"
                 || eq_str (dict_get a "status") "partial"
              then JDict a :: kept else kept)
      | Raise e => Raise e
      end
  | _ :: _ => Raise AttributeError
  end.

(** The [if]/[elif]/[else] on the deduction mode of one advance *)
Definition deduction_amount_of (driver : Dict) (driver_id : string) (year month : Z)
    (deduction_mode : json) (deduction_value remaining_balance : float) : M json :=
  if eq_str deduction_mode "fixed_amount" then
    ret (JFloat (py_min deduction_value remaining_balance))
  else if eq_str deduction_mode "percentage" then
    do commission_result <- get_driver_commissions driver_id year month;
    let commission_total := dict_get_or commission_result "total_commission" (JInt 0) in
    do base_salary <- lift (py_float (dict_get_or driver "base_salary" (JInt 0)));
    do total_earnings <- lift (py_add commission_total (JFloat base_salary));
    do percentage_deduction <-
      lift (py_mul (JFloat (deduction_value / 100)) total_earnings);
    do percentage_deduction <- lift (float_operand percentage_deduction);
    ret (JFloat (py_min percentage_deduction remaining_balance))
  else ret (JInt 0).

(** The dict appended to [advance_details] for one advance *)
Definition advance_detail (a : Dict) (remaining_balance : float) (rounded : json)
    (deduction_mode : json) (deduction_value : float) : Dict :=
  list_to_map
    [("advance_id", dict_get a "id");
     ("advance_amount", dict_get_or a "amount" (JInt 0));
     ("remaining_balance", JFloat remaining_balance);
     ("deduction_amount", rounded);
     ("reason", dict_get_or a "reason" (JStr ""));
     ("deduction_mode", deduction_mode);
     ("deduction_value", JFloat deduction_value)].

(** The body of [for advance in active_advances], on the running total and
    the details gathered so far *)
Definition advance_step (driver : Dict) (driver_id : string) (year month : Z)
    (state : json * list json) (advance : json) : M (json * list json) :=
  match advance with
  | JDict a =>
      do amount <- lift (py_float (dict_get_or a "amount" (JInt 0)));
      do paid_amount <- lift (py_float (dict_get_or a "paid_amount" (JInt 0)));
      let remaining_balance := (amount - paid_amount)%float in
      if (remaining_balance <=? 0)%float then ret state
      else
        let deduction_mode :=
          dict_get_or a "advance_deduction_mode" (JStr "fixed_amount") in
        do deduction_value <-
          lift (py_float (dict_get_or a "advance_deduction_value" (JInt 50)));
        do deduction_amount <-
          deduction_amount_of driver driver_id year month deduction_mode
            deduction_value remaining_balance;
        do positive <- lift (gt_zero deduction_amount);
        if positive then
          do total_deduction <- lift (py_add (fst state) deduction_amount);
          do rounded <- lift (py_round3 deduction_amount);
          ret (total_deduction,
               snd state ++
               [JDict (advance_detail a remaining_balance rounded deduction_mode
                         deduction_value)])
        else ret state
  | _ => raise AttributeError
  end.

Definition get_driver_advances (driver_id : string) (year month : Z) : M Dict :=
  try_except
    (do advances <- filter_records (json_store self) "advances"
                      [("driver_id", JStr driver_id)];
     do active_advances <- lift (active_only advances);
     do driver <- load_driver driver_id;
     if absent driver then
       ret (list_to_map [("success", JBool false);
                         ("error", JStr "السائق غير موجود");
                         ("total_deduction", JInt 0)])
     else
       let driver := default ∅ driver in
       do state <- for_each (advance_step driver driver_id year month)
                     active_advances (JInt 0, []);
       do total_deduction <- lift (py_round3 (fst state));
       ret (list_to_map
              [("success", JBool true);
               ("driver_id", JStr driver_id);
               ("total_deduction", total_deduction);
               ("advance_count", JInt (Z.of_nat (length (snd state))));
               ("advance_details", JList (snd state))]))
    (λ e, ret (list_to_map
                 [("success", JBool false);
                  ("error", JStr ("خطأ في حساب خصم السُلف: " +:+ str_exn e));
                  ("total_deduction", JInt 0)])).

Definition calculate_driver_payroll (driver_id : string) (year month : Z) : M Dict :=
  try_except
    (do driver <- load_driver driver_id;
     if absent driver then
       ret (list_to_map [("success", JBool false);
                         ("error", JStr "السائق غير موجود")])
     else
       let driver := default ∅ driver in
       do base_salary <- lift (py_float (dict_get_or driver "base_salary" (JInt 0)));
       do commission_result <- get_driver_commissions driver_id year month;
       if negb (truthy (dict_get commission_result "success")) then ret commission_result
       else
         let commission_total :=
           dict_get_or commission_result "total_commission" (JInt 0) in
         let order_count := dict_get_or commission_result "order_count" (JInt 0) in
         do advance_result <- get_driver_advances driver_id year month;
         if negb (truthy (dict_get advance_result "success")) then ret advance_result
         else
           let advance_deduction :=
             dict_get_or advance_result "total_deduction" (JInt 0) in
           do gross_salary <- lift (py_add (JFloat base_salary) commission_total);
           do net_salary <- lift (py_sub gross_salary advance_deduction);
           do config <- load_config;
           do commission_rounded <- lift (py_round3 commission_total);
           do gross_rounded <- lift (py_round3 gross_salary);
           do deduction_rounded <- lift (py_round3 advance_deduction);
           do net_rounded <- lift (py_round3 net_salary);
           do currency <- lift (get_or config "currency" (JStr "KWD"));
           do calculated <- now;
           ret (list_to_map
                  [("success", JBool true);
                   ("driver_id", JStr driver_id);
                   ("driver_name", dict_get_or driver "full_name" (JStr ""));
                   ("employment_type",
                    dict_get_or driver "employment_type" (JStr "commission"));
                   ("year", JInt year);
                   ("month", JInt month);
                   ("base_salary", JFloat (round3 base_salary));
                   ("commission_total", commission_rounded);
                   ("order_count", order_count);
                   ("gross_salary", gross_rounded);
                   ("advance_deduction", deduction_rounded);
                   ("net_salary", net_rounded);
                   ("currency", currency);
                   ("commission_details",
                    dict_get_or commission_result "commission_details" (JList []));
                   ("advance_details",
                    dict_get_or advance_result "advance_details" (JList []));
                   ("calculation_date", JStr (isoformat calculated))]))
    (λ e, ret (list_to_map
                 [("success", JBool false);
                  ("error", JStr ("خطأ في حساب الراتب: " +:+ str_exn e))])).

End PayrollCalculator.

End payroll.

(** * Vocabulary of the statements *)

(** The record carries the id. *)
Definition has_id (record_id : string) (v : json) : bool :=
  match v with
  | JDict d => eq_str (dict_get d "id") record_id
  | _ => false
  end.

Definition is_dict (v : json) : bool :=
  match v with JDict _ => true | _ => false end.

(** The file content is text: reading it does not raise. *)
Definition is_text (c : file_content) : bool :=
  match c with
  | Undecodable _ => false
  | _ => true
  end.

(** The file at [path], if there is one, is text. *)
Definition readable (path : string) (w : world) : bool :=
  from_option is_text true (files w !! path).

(** What a read of the readable file [path] returns in world [w]. *)
Definition stored (path : string) (w : world) : list json :=
  match files w !! path with
  | Some c => match load_list c with Ok data => data | Raise _ => [] end
  | None => []
  end.

(** The world after [data] has been written to [path]. *)
Definition written (path : string) (data : list json) (w : world) : world :=
  set_files (<[path := Document (JList data)]> (files w)) (set_io_faults 0 w).

(** Where the snapshot of [file_path] taken at [d] goes. *)
Definition snapshot_path (self : JSONStore) (file_path : string) (d : datetime) : string :=
  path_join (path_join (backup_root self) (strftime_ymd d)) (basename file_path).

(** What every snapshot call leaves alone. *)
Definition backup_step (p : string) (w w1 : world) : Prop :=
  files w1 !! p = files w !! p ∧
  io_faults w1 ≤ io_faults w ∧
  clock w1 = clock w ∧
  ticks w1 = (if path_exists p w then S (ticks w) else ticks w) ∧
  entropy w1 = entropy w ∧
  draws w1 = draws w.

(** The id that [create] gives a record without one: the first eight
    characters of a fresh [uuid4]. *)
Definition generated_id (w : world) : string :=
  substring 0 8 (uuid_str (uuid4_int (entropy w (draws w)))).

Definition with_id (record : Dict) (w : world) : Dict :=
  match record !! "id" with
  | Some _ => record
  | None => <["id" := JStr (generated_id w)]> record
  end.

(** The record that [create] stores when the clock stands at reading [k]. *)
Definition stamped (record : Dict) (w : world) (k : nat) : Dict :=
  <["updated_at" := JStr (isoformat (clock w (S k)))]>
    (<["created_at" := JStr (isoformat (clock w k))]> (with_id record w)).

(** The record that [update] leaves when the clock reads [t]. *)
Definition merged (updates r : Dict) (t : datetime) : Dict :=
  <["updated_at" := JStr (isoformat t)]> (updates ∪ r).

(** The ranges of the fields of a [datetime] object. *)
Definition valid_datetime (d : datetime) : Prop :=
  (1 ≤ year d ≤ 9999 ∧ 1 ≤ month d ≤ 12 ∧ 1 ≤ day d ≤ 31 ∧
   hour d < 24 ∧ minute d < 60 ∧ second d < 60 ∧ microsecond d < 1000000)%N.

Definition fields (d : datetime) : list N :=
  [year d; month d; day d; hour d; minute d; second d; microsecond d].

(** [d1 < d2] on datetime objects *)
Definition earlier (d1 d2 : datetime) : Prop := lex_lt (fields d1) (fields d2) = true.

(** From one world to a later one: no file has gone, and every copy made in
    between landed on a path that held nothing before, each path once. *)
Definition grows (w w' : world) : Prop :=
  (∀ p, is_Some (files w !! p) → is_Some (files w' !! p)) ∧
  ∃ new, copies w' = new ++ copies w ∧ NoDup new.*2 ∧
         ∀ d, d ∈ new.*2 → files w !! d = None ∧ is_Some (files w' !! d).

(** A computation that only lets the world grow, whatever it returns. *)
Definition steady {A} (c : M A) : Prop := ∀ w, grows w (snd (c w)).

(** The mutating calls that collaborators issue. *)
Inductive request :=
| Create (collection : string) (record : Dict)
| Update (collection record_id : string) (updates : Dict)
| Delete (collection record_id : string).

Definition serve (self : JSONStore) (q : request) (w : world) : world :=
  match q with
  | Create c r => snd (create self c r w)
  | Update c i u => snd (update self c i u w)
  | Delete c i => snd (delete self c i w)
  end.

(** Requests served one after the other. *)
Definition run (self : JSONStore) (requests : list request) (w : world) : world :=
  foldl (λ w q, serve self q w) w requests.

(** What a loader with a default makes of [path]: the document of the
    file, and [dflt] for a file that is missing or holds text that is not
    JSON.  A file that is not text gives no value at all, since the error
    of reading it is not among those that the loaders catch: [None] stands
    for it, which is neither an object nor an array. *)
Definition decoded (w : world) (path : string) (dflt : json) : json :=
  match files w !! path with
  | Some (Document v) => v
  | Some (Undecodable _) => JNull
  | _ => dflt
  end.

(** The rule is not about this driver and this client. *)
Definition other_pair (driver_id client_id : string) (rule : json) : Prop :=
  ∃ r, rule = JDict r
       ∧ eq_str (dict_get r "driver_id") driver_id
         && eq_str (dict_get r "client_id") client_id = false.

(** A bound of a date range is unset, or set to a date that passes [ok]. *)
Definition bound_allows `{Runtime} (bound : json) (ok : datetime → bool) : Prop :=
  truthy bound = false
  ∨ ∃ s b, bound = JStr s ∧ strptime_ymd s = Some b ∧ ok b = true.


(** The setting of the commission scenario: the driver and the client are
    on file, the configuration is absent or a JSON object, the file of the
    rules is absent or text, and no I/O failure is pending. *)
Definition on_file (self : commissions.CommissionCalculator)
    (driver_id client_id : string) (driver client : Dict) (w : world) : Prop :=
  io_faults w = 0
  ∧ find_by_id (commissions.json_store self) "drivers" driver_id w = (Ok (Some driver), w)
  ∧ find_by_id (commissions.json_store self) "clients" client_id w = (Ok (Some client), w)
  ∧ is_dict (decoded w (path_join (commissions.data_dir self) "config.json")
               commissions.default_config) = true
  ∧ readable (path_join (commissions.data_dir self) "commission_rules.json") w = true.

(** The commission rules on file. *)
Definition rules_on_file (self : commissions.CommissionCalculator) (w : world) : json :=
  decoded w (path_join (commissions.data_dir self) "commission_rules.json") (JList []).

(** * A sample deployment *)

Definition demo_store : JSONStore :=
  {| data_dir := "/srv/data"; backup_root := "/srv/data/backup"; windows := false |}.

Definition demo_clock (n : nat) : datetime :=
  {| year := 2024; month := 5; day := 17; hour := 10; minute := 30; second := 0;
     microsecond := match n with 0 => 250 | 1 => 500 | 2 => 750 | _ => 1000 end |}.

Definition demo_driver : Dict :=
  list_to_map [("id", JStr "deadbeef"); ("full_name", JStr "Ali");
               ("created_at", JStr "2024-05-01T08:00:00");
               ("updated_at", JStr "2024-05-01T08:00:00")].

(** One driver on disk, two transient failures of [open] pending. *)
Definition demo_world : world :=
  {| files := {[ "/srv/data/drivers.json" := Document (JList [JDict demo_driver]) ]};
     io_faults := 2;
     clock := demo_clock; ticks := 0;
     entropy := λ _, 0xdeadbeef00112233445566778899aabb%N; draws := 0;
     copies := [] |}.

Definition new_driver : Dict := {[ "full_name" := JStr "Omar" ]}.

Definition ascii_digit (c : ascii) : option N :=
  let n := N_of_ascii c in
  if (48 <=? n)%N && (n <=? 57)%N then Some (n - 48)%N else None.

(** A reader of zero-padded [YYYY-MM-DD] dates. *)
Definition strict_ymd (s : string) : option datetime :=
  match list_ascii_of_string s with
  | [y1; y2; y3; y4; dash1; m1; m2; dash2; d1; d2] =>
      if Ascii.eqb dash1 "-" && Ascii.eqb dash2 "-" then
        match ascii_digit y1, ascii_digit y2, ascii_digit y3, ascii_digit y4,
              ascii_digit m1, ascii_digit m2, ascii_digit d1, ascii_digit d2 with
        | Some a, Some b, Some c, Some e, Some f, Some g, Some h, Some i =>
            let y := (1000 * a + 100 * b + 10 * c + e)%N in
            let m := (10 * f + g)%N in
            let d := (10 * h + i)%N in
            if (1 <=? y)%N && (1 <=? m)%N && (m <=? 12)%N && (1 <=? d)%N && (d <=? 31)%N
            then Some {| year := y; month := m; day := d;
                         hour := 0; minute := 0; second := 0; microsecond := 0 |}
            else None
        | _, _, _, _, _, _, _, _ => None
        end
      else None
  | _ => None
  end.

Definition demo_runtime : Runtime :=
  {| strptime_ymd := strict_ymd; float_of_str := λ _, None; str_exn := λ _, "" |}.

Definition demo_calculator : commissions.CommissionCalculator :=
  {| commissions.data_dir := "/srv/data"; commissions.json_store := demo_store |}.

Definition driver_D1 : Dict :=
  list_to_map [("id", JStr "D1"); ("full_name", JStr "Ali");
               ("base_salary", JInt 300);
               ("default_commission_per_order", JFloat 0.3)].

Definition client_C1 : Dict :=
  list_to_map [("id", JStr "C1"); ("company_name", JStr "Sahara");
               ("commission_rate", JFloat 0.2)].


Definition advance_A1 : Dict :=
  list_to_map [("id", JStr "A1"); ("driver_id", JStr "D1"); ("status", JStr "active");
               ("amount", JInt 150); ("paid_amount", JFloat 50);
               ("advance_deduction_mode", JStr "fixed_amount");
               ("advance_deduction_value", JInt 50)].

Definition advance_A0 : Dict :=
  list_to_map [("id", JStr "A0"); ("driver_id", JStr "D1"); ("status", JStr "paid");
               ("amount", JInt 80); ("paid_amount", JInt 80)].

(** The scenario of the calculators: one driver, one client, two advances of
    the driver, no commission rule, no configuration file. *)
Definition office_world : world :=
  {| files := list_to_map
       [("/srv/data/drivers.json", Document (JList [JDict driver_D1]));
        ("/srv/data/clients.json", Document (JList [JDict client_C1]));
        ("/srv/data/advances.json",
         Document (JList [JDict advance_A0; JDict advance_A1]))];
     io_faults := 0;
     clock := demo_clock; ticks := 0;
     entropy := λ _, 0xdeadbeef00112233445566778899aabb%N; draws := 0;
     copies := [] |}.


Definition demo_report : Dict :=
  list_to_map [("success", JBool true); ("total_commission", JFloat 45.75);
               ("order_count", JInt 61)].

Definition demo_payroll : payroll.PayrollCalculator :=
  {| payroll.data_dir := "/srv/data"; payroll.json_store := demo_store;
     payroll.calculate_monthly_commission_total := λ _ _ _, ret demo_report |}.

Definition may_17 : datetime :=
  {| year := 2024; month := 5; day := 17;
     hour := 0; minute := 0; second := 0; microsecond := 0 |}.

(** The same deployment with a clock that stands still at the instant of the
    stamps of the stored driver. *)
Definition standing_clock (n : nat) : datetime :=
  {| year := 2024; month := 5; day := 1; hour := 8; minute := 0; second := 0;
     microsecond := 0 |}.

Definition standing_world : world :=
  {| files := files demo_world; io_faults := 0;
     clock := standing_clock; ticks := 0;
     entropy := entropy demo_world; draws := 0; copies := [] |}.



(** An advance with a deduction value above what is left to pay. *)
Definition advance_A3 : Dict :=
  list_to_map [("id", JStr "A3"); ("driver_id", JStr "D1"); ("status", JStr "active");
               ("amount", JInt 150); ("paid_amount", JInt 50);
               ("advance_deduction_mode", JStr "fixed_amount");
               ("advance_deduction_value", JInt 250)].

Definition office_world_capped : world :=
  set_files (<["/srv/data/advances.json" := Document (JList [JDict advance_A3])]>
               (files office_world))
    office_world.

(** An advance with little left to pay, and the default deduction settings. *)
Definition advance_A4 : Dict :=
  list_to_map [("id", JStr "A4"); ("driver_id", JStr "D1"); ("status", JStr "partial");
               ("amount", JFloat 100.12345); ("paid_amount", JInt 80)].

(** * Vocabulary of the further properties *)

(** From [w] to [w']: nothing has changed but the number of pending faults,
    which has not grown. *)
Definition calms (w w' : world) : Prop :=
  ∃ k, k ≤ io_faults w ∧ w' = set_io_faults k w.

(** The file of the collection that a request is about. *)
Definition request_file (self : JSONStore) (q : request) : string :=
  _get_file_path self
    match q with
    | Create c _ => c
    | Update c _ _ => c
    | Delete c _ => c
    end.

(** A computation that leaves every file outside [own] as it was. *)
Definition confined (own : string → Prop) {A} (c : M A) : Prop :=
  ∀ w path, ¬ own path → files (snd (c w)) !! path = files w !! path.

(** The collection file [p] and its snapshots. *)
Definition own_files (self : JSONStore) (p path : string) : Prop :=
  path = p ∨ ∃ d, path = snapshot_path self p d.

(** The record has every key of the filters, with a value equal to the one
    asked for. *)
Definition agrees (filters : list (string * json)) (v : json) : bool :=
  match v with
  | JDict d =>
      forallb (λ kv, match d !! kv.1 with
                     | Some x => py_eq x kv.2
                     | None => false
                     end) filters
  | _ => false
  end.

(** The rule is switched off, or the date [d] lies before its start or
    after its end. *)
Definition lapsed `{Runtime} (rule : Dict) (d : datetime) : Prop :=
  truthy (dict_get_or rule "is_active" (JBool true)) = false
  ∨ (∃ s ds, dict_get rule "start_date" = JStr s ∧ s ≠ ""
             ∧ strptime_ymd s = Some ds ∧ date_lt d ds = true)
  ∨ (bound_allows (dict_get rule "start_date") (λ s, negb (date_lt d s))
     ∧ ∃ e de, dict_get rule "end_date" = JStr e ∧ e ≠ ""
               ∧ strptime_ymd e = Some de ∧ date_lt de d = true).

(** * The event log: [event_logger.py] *)

Module event_logger.

Record EventLogger := {
  log_file : string;
  (* the instance that [from json_store import json_store] binds *)
  json_store : JSONStore
}.

Section EventLogger.
Variable self : EventLogger.

Definition _generate_event_id : M string :=
  do u <- uuid4; ret (substring 0 8 u).

Definition _get_session_id : string := "web_session".

Definition _read_logs : M json :=
  try_except (do c <- open_read (log_file self); lift (json_load c))
    (λ e, match e with
          | FileNotFoundError | JSONDecodeError => ret (JList [])
          | _ => raise e
          end).

Definition _write_logs (logs : json) : M bool :=
  try_except
    (do _ <- _create_daily_backup (json_store self) (log_file self);
     do _ <- open_write (log_file self);
     do _ <- json_dump (log_file self) logs;
     ret true)
    (λ _, ret false).

(** [logs[-10000:]] when [len(logs) > 10000], else [logs] *)
Definition last_events (logs : list json) : list json :=
  if (10000 <? N.of_nat (length logs))%N
  then drop (N.to_nat (N.of_nat (length logs) - 10000)) logs
  else logs.

(** The dict literal of [log_event]; its values are evaluated in the order
    of the literal, so that the id is drawn before the clock is read. *)
Definition event_of (id : string) (t : datetime)
    (action entity_type entity_id user details ip_address : json) : Dict :=
  list_to_map
    [("id", JStr id);
     ("timestamp", JStr (isoformat t));
     ("action", action);
     ("entity_type", entity_type);
     ("entity_id", entity_id);
     ("user", user);
     ("ip_address", ip_address);
     ("details", if truthy details then details else JDict ∅);
     ("session_id", JStr _get_session_id)].

(** [logs.append(event)]: only a list has [append] *)
Definition append_event (logs : json) (event : Dict) : result (list json) :=
  match logs with
  | JList l => Ok (l ++ [JDict event])
  | _ => Raise AttributeError
  end.

Definition log_event (action entity_type entity_id user details ip_address : json)
  : M bool :=
  try_except
    (do id <- _generate_event_id;
     do t <- now;
     let event := event_of id t action entity_type entity_id user details ip_address in
     do logs <- _read_logs;
     do logs <- lift (append_event logs event);
     _write_logs (JList (last_events logs)))
    (λ _, ret false).

End EventLogger.

End event_logger.

(** * Row numbers: [auto_increment.py] *)

Module auto_increment.

(** [a < b] on numbers *)
Definition less (a b : number) : bool :=
  match a, b with
  | Int x, Int y => (x <? y)%Z
  | Float x, Float y => (x <? y)%float
  | Int x, Float y => match compare_exact x y with Some Lt => true | _ => false end
  | Float x, Int y => match compare_exact y x with Some Gt => true | _ => false end
  end.

(** The body of the loop of [get_next_row_number]:
    [max_row = max(max_row, item.get('row_number', 0))] for an item that is
    a dict with a row number.  [max] keeps its first argument unless the
    second is greater; a row number that is not a number cannot be compared. *)
Definition max_step (max_row : number) (item : json) : result number :=
  match item with
  | JDict d =>
      match d !! "row_number" with
      | Some v =>
          match number_of v with
          | Some n => Ok (if less max_row n then n else max_row)
          | None => Raise TypeError
          end
      | None => Ok max_row
      end
  | _ => Ok max_row
  end.

Fixpoint max_row_of (max_row : number) (items : list json) : result number :=
  match items with
  | [] => Ok max_row
  | item :: rest =>
      match max_step max_row item with
      | Ok m => max_row_of m rest
      | Raise e => Raise e
      end
  end.

Definition get_next_row_number (data : json) : result json :=
  if negb (truthy data) then Ok (JInt 1)
  else
    match iterate data with
    | Ok items =>
        match max_row_of (Int 0) items with
        | Ok (Int z) => Ok (JInt (z + 1))
        | Ok (Float f) => Ok (JFloat (f + 1))
        | Raise e => Raise e
        end
    | Raise e => Raise e
    end.

Definition add_row_number (record : Dict) (data : json) : result Dict :=
  match record !! "row_number" with
  | Some _ => Ok record
  | None =>
      match get_next_row_number data with
      | Ok n => Ok (<["row_number" := n]> record)
      | Raise e => Raise e
      end
  end.

(** [for i, record in enumerate(data, start=1)] with a body that changes
    records only: a list is mapped, a dict or a string is walked through
    without effect, anything else cannot be enumerated. *)
Definition for_each_numbered (body : nat → Dict → Dict) (data : json) : result json :=
  if negb (truthy data) then Ok data
  else
    match data with
    | JList l =>
        Ok (JList (imap (λ i record, match record with
                                     | JDict d => JDict (body (S i) d)
                                     | _ => record
                                     end) l))
    | JDict _ | JStr _ => Ok data
    | _ => Raise TypeError
    end.

Definition ensure_row_numbers : json → result json :=
  for_each_numbered (λ i d, match d !! "row_number" with
                            | Some _ => d
                            | None => <["row_number" := JInt (Z.of_nat i)]> d
                            end).

Definition reindex_row_numbers : json → result json :=
  for_each_numbered (λ i d, <["row_number" := JInt (Z.of_nat i)]> d).

End auto_increment.

(** * Further sample data *)

Definition with_file (path : string) (c : file_content) (w : world) : world :=
  set_files (<[path := c]> (files w)) w.

Definition duplicate_driver : Dict :=
  list_to_map [("id", JStr "deadbeef"); ("full_name", JStr "Omar")].

(** A driver whose primary client is C1, without an amount for it. *)
Definition driver_D2 : Dict :=
  list_to_map [("id", JStr "D2"); ("full_name", JStr "Badr");
               ("primary_client_id", JStr "C1");
               ("default_commission_per_order", JFloat 0.3)].

Definition rule_2023 : Dict :=
  list_to_map [("driver_id", JStr "D1"); ("client_id", JStr "C1");
               ("start_date", JStr "2023-01-01"); ("end_date", JStr "2023-12-31");
               ("commission_amount", JFloat 0.5)].

Definition advance_A2 : Dict :=
  list_to_map [("id", JStr "A2"); ("driver_id", JStr "D1"); ("status", JStr "active");
               ("amount", JInt 150); ("paid_amount", JInt 50);
               ("advance_deduction_mode", JStr "percentage");
               ("advance_deduction_value", JInt 10)].

(** An advance in percentage mode with little left to pay. *)
Definition advance_A5 : Dict :=
  list_to_map [("id", JStr "A5"); ("driver_id", JStr "D1"); ("status", JStr "active");
               ("amount", JFloat 100.12345); ("paid_amount", JInt 80);
               ("advance_deduction_mode", JStr "percentage");
               ("advance_deduction_value", JInt 50)].

(** A dump that fails on a string it cannot encode, after it has written the
    opening bracket of the array. *)
Definition torn_dump (path : string) (v : json) : M unit :=
  λ w, (Raise UnicodeEncodeError, set_files (<[path := Malformed "["]> (files w)) w).

Definition office_world_array_config : world :=
  with_file "/srv/data/config.json" (Document (JList [])) office_world.

Definition office_world_two_drivers : world :=
  with_file "/srv/data/drivers.json"
    (Document (JList [JDict driver_D1; JDict driver_D2])) office_world.

Definition office_world_lapsed : world :=
  with_file "/srv/data/commission_rules.json"
    (Document (JList [JDict rule_2023])) office_world.

Definition office_world_settled : world :=
  with_file "/srv/data/advances.json" (Document (JList [JDict advance_A0])) office_world.

(** A payroll calculator whose commission engine reports a failure. *)
Definition failing_payroll : payroll.PayrollCalculator :=
  {| payroll.data_dir := "/srv/data"; payroll.json_store := demo_store;
     payroll.calculate_monthly_commission_total :=
       λ _ _ _, ret (list_to_map [("success", JBool false);
                                  ("error", JStr "no orders")]) |}.

Definition demo_logger : event_logger.EventLogger :=
  {| event_logger.log_file := "/srv/data/event_log.json";
     event_logger.json_store := demo_store |}.

Definition log_world : world :=
  with_file "/srv/data/event_log.json"
    (Document (JList [JDict demo_driver])) office_world.

Definition year_2024 : datetime :=
  {| year := 2024; month := 1; day := 1;
     hour := 0; minute := 0; second := 0; microsecond := 0 |}.

(** * Properties *)

(** ** The locked file layer *)

Lemma bind_ok {A B} (c : M A) (k : A → M B) w a w' :
  c w = (Ok a, w') → bind c k w = k a w'.
Proof. unfold bind. by intros ->. Qed.

Lemma bind_raise {A B} (c : M A) (k : A → M B) w e w' :
  c w = (Raise e, w') → bind c k w = (Raise e, w').
Proof. unfold bind. by intros ->. Qed.

Lemma bind_assoc {A B C} (c : M A) (f : A → M B) (k : B → M C) w :
  bind (bind c f) k w = bind c (λ x, bind (f x) k) w.
Proof. unfold bind. by destruct (c w) as [[a|e] w']. Qed.

Lemma try_ok {A} (c : M A) h w a w' :
  c w = (Ok a, w') → try_except c h w = (Ok a, w').
Proof. unfold try_except. by intros ->. Qed.

Lemma try_raise {A} (c : M A) h w e w' :
  c w = (Raise e, w') → try_except c h w = h e w'.
Proof. unfold try_except. by intros ->. Qed.

Lemma now_eq w : now w = (Ok (clock w (ticks w)), set_ticks (S (ticks w)) w).
Proof. done. Qed.

Lemma uuid4_eq w :
  uuid4 w = (Ok (uuid_str (uuid4_int (entropy w (draws w)))), set_draws (S (draws w)) w).
Proof. done. Qed.

Lemma set_io_faults_id w : set_io_faults (io_faults w) w = w.
Proof. by destruct w. Qed.

Lemma open_read_ready path w c :
  io_faults w = 0 → files w !! path = Some c → open_read path w = (Ok c, w).
Proof. intros Hf Hc. unfold open_read, bind, open_file. by rewrite Hf, Hc. Qed.

Lemma open_read_fault path w k :
  io_faults w = S k → open_read path w = (Raise OSError, set_io_faults k w).
Proof. intros Hf. unfold open_read, bind, open_file. by rewrite Hf. Qed.

Lemma open_write_ready path w :
  io_faults w = 0 →
  open_write path w = (Ok tt, set_files (<[path := Empty]> (files w)) w).
Proof. intros Hf. unfold open_write, bind, open_file. by rewrite Hf. Qed.

Lemma open_write_fault path w k :
  io_faults w = S k → open_write path w = (Raise OSError, set_io_faults k w).
Proof. intros Hf. unfold open_write, bind, open_file. by rewrite Hf. Qed.

Lemma copy2_ok src dst w c :
  io_faults w = 0 → files w !! src = Some c →
  copy2 src dst w =
    (Ok tt, set_copies ((src, dst) :: copies w) (set_files (<[dst := c]> (files w)) w)).
Proof.
  intros Hf Hc. unfold copy2.
  rewrite (bind_ok _ _ _ _ _ (open_read_ready src w c Hf Hc)).
  rewrite (bind_ok _ _ _ _ _ (open_write_ready dst w Hf)).
  unfold set_copies, set_files. simpl. by rewrite insert_insert_eq.
Qed.

Lemma copy2_fault src dst w k :
  io_faults w = S k → copy2 src dst w = (Raise OSError, set_io_faults k w).
Proof.
  intros Hf. unfold copy2.
  by rewrite (bind_raise _ _ _ _ _ (open_read_fault src w k Hf)).
Qed.

(** ** Scanning for an id *)

Lemma locate_found record_id data : ∀ n k r,
  locate record_id data n = Ok (Some (k, r)) →
  n ≤ k ∧ data !! (k - n) = Some (JDict r) ∧ has_id record_id (JDict r) = true.
Proof.
  induction data as [|v data IH]; intros n k r; simpl; [done|].
  destruct v; try done.
  destruct (eq_str (dict_get d "id") record_id) eqn:Hid.
  - intros [= <- <-]. by rewrite Nat.sub_diag.
  - intros H. apply IH in H as (Hle & Hk & Hr).
    split; [lia|]. split; [|done].
    by replace (k - n) with (S (k - S n)) by lia.
Qed.

Lemma locate_none record_id data n :
  locate record_id data n = Ok None ↔
  forallb (λ v, is_dict v && negb (has_id record_id v)) data = true.
Proof.
  revert n. induction data as [|v data IH]; intros n; simpl; [done|].
  destruct v; simpl; try (split; discriminate).
  destruct (eq_str (dict_get d "id") record_id); simpl; [split; discriminate|].
  apply IH.
Qed.

Lemma locate_app record_id data s n :
  locate record_id data n = Ok None →
  locate record_id (data ++ [JDict s]) n =
    Ok (if has_id record_id (JDict s) then Some (n + length data, s) else None).
Proof.
  revert n. induction data as [|v data IH]; intros n; simpl.
  - intros _. rewrite Nat.add_0_r. by destruct (eq_str _ _).
  - destruct v; try done.
    destruct (eq_str (dict_get d "id") record_id); [done|].
    intros H. rewrite (IH _ H). by replace (S n + length data) with (n + S (length data)) by lia.
Qed.

Lemma without_filter record_id data kept :
  without record_id data = Ok kept →
  kept = List.filter (λ v, negb (has_id record_id v)) data
  ∧ forallb is_dict data = true.
Proof.
  revert kept. induction data as [|v data IH]; intros kept; simpl.
  - by intros [= <-].
  - destruct v; try done.
    destruct (without record_id data) as [kept'|e]; [|done].
    destruct (IH kept' eq_refl) as [-> Hd].
    intros [= <-]. split; [|done]. simpl. by destruct (eq_str _ _).
Qed.

Lemma without_total record_id data :
  forallb is_dict data = true →
  without record_id data = Ok (List.filter (λ v, negb (has_id record_id v)) data).
Proof.
  induction data as [|v data IH]; simpl; [done|].
  destruct v; try done. simpl. intros H. rewrite (IH H).
  by destruct (eq_str _ _).
Qed.

Lemma filter_length_le {A} (f : A → bool) l : length (List.filter f l) ≤ length l.
Proof. induction l as [|x l IH]; simpl; [done|]. destruct (f x); simpl; lia. Qed.

Lemma filter_length_lt {A} (f : A → bool) l :
  length (List.filter f l) < length l ↔ existsb (λ x, negb (f x)) l = true.
Proof.
  induction l as [|x l IH]; simpl; [split; [lia|done]|].
  pose proof (filter_length_le f l).
  destruct (f x); simpl; [rewrite <- IH; lia|]. split; [done|lia].
Qed.

Lemma filter_same {A} (f : A → bool) l :
  existsb (λ x, negb (f x)) l = false → List.filter f l = l.
Proof.
  induction l as [|x l IH]; simpl; [done|].
  destruct (f x); simpl; [|done]. intros H. by rewrite IH.
Qed.

Lemma existsb_negb_negb {A} (f : A → bool) l :
  existsb (λ x, negb (negb (f x))) l = existsb f l.
Proof. induction l as [|x l IH]; simpl; [done|]. by rewrite negb_involutive, IH. Qed.

Lemma locate_filtered record_id data n :
  forallb is_dict data = true →
  locate record_id (List.filter (λ v, negb (has_id record_id v)) data) n = Ok None.
Proof.
  revert n. induction data as [|v data IH]; intros n; simpl; [done|].
  destruct v; try done. simpl. intros H.
  destruct (eq_str (dict_get d "id") record_id) eqn:Hid; simpl; [by apply IH|].
  rewrite Hid. by apply IH.
Qed.

Section StoreFacts.
Variable self : JSONStore.

(** What the load under the lock raises is not an I/O error. *)
Lemma load_list_raises c e : load_list c = Raise e → e = UnicodeDecodeError.
Proof. unfold load_list. destruct c as [| | |v]; try done; [by intros [=]|by destruct v]. Qed.

Lemma load_list_text c : is_text c = true → ∃ data, load_list c = Ok data.
Proof. unfold load_list. destruct c as [| | |v]; try done; eauto. destruct v; eauto. Qed.

(** The retry loop absorbs the pending faults when an attempt is left for
    each of them and one more to succeed. *)
Lemma read_attempts_ok path c k : ∀ a n w,
  io_faults w = k → files w !! path = Some c →
  a + k < max_retries → k < n →
  read_attempts self path (seq a n) w = (load_list c, set_io_faults 0 w).
Proof.
  induction k as [|k IH]; intros a n w Hk Hc Ha Hn.
  - destruct n as [|n]; [lia|]. simpl. unfold try_except, bind at 1.
    rewrite (open_read_ready _ _ c) by done. unfold lift.
    rewrite <- Hk, set_io_faults_id.
    destruct (load_list c) as [data|e] eqn:Hl; [done|].
    by rewrite (load_list_raises _ _ Hl).
  - destruct n as [|n]; [lia|]. simpl. unfold try_except, bind at 1.
    rewrite (open_read_fault _ _ k) by done. simpl.
    destruct (Nat.ltb_spec a 4) as [_|?]; [|unfold max_retries in *; lia].
    rewrite (IH (S a) n (set_io_faults k w)); [done|done|done|lia|lia].
Qed.

Lemma read_with_lock_result path w :
  io_faults w < max_retries →
  _read_with_lock self path w =
    (match files w !! path with Some c => load_list c | None => Ok [] end,
     set_io_faults (if path_exists path w then 0 else io_faults w) w).
Proof.
  intros Hf. unfold _read_with_lock, path_exists.
  destruct (files w !! path) as [c|] eqn:Hc.
  - rewrite bool_decide_true by eauto.
    by apply (read_attempts_ok path c (io_faults w)); unfold max_retries in *; try lia.
  - rewrite bool_decide_false by (by intros [? ?]).
    by rewrite set_io_faults_id.
Qed.

Lemma read_with_lock_ok path w :
  io_faults w < max_retries → readable path w = true →
  _read_with_lock self path w =
    (Ok (stored path w),
     set_io_faults (if path_exists path w then 0 else io_faults w) w).
Proof.
  intros Hf Hrd. rewrite read_with_lock_result by done. f_equal.
  unfold readable, stored in *. destruct (files w !! path) as [c|]; [|done].
  simpl in Hrd. by destruct (load_list_text c Hrd) as [data ->].
Qed.

(** A file that is not text makes the read raise, whatever else holds. *)
Lemma read_with_lock_undecodable path w :
  io_faults w < max_retries → readable path w = false →
  _read_with_lock self path w = (Raise UnicodeDecodeError, set_io_faults 0 w).
Proof.
  intros Hf Hrd. rewrite read_with_lock_result by done.
  unfold readable, path_exists in *. destruct (files w !! path) as [c|]; [|done].
  rewrite bool_decide_true by eauto. by destruct c.
Qed.

Lemma read_with_lock_inv path w data w0 :
  io_faults w < max_retries →
  _read_with_lock self path w = (Ok data, w0) →
  readable path w = true ∧ data = stored path w.
Proof.
  intros Hf Hr. destruct (readable path w) eqn:Hrd.
  - rewrite read_with_lock_ok in Hr by done. by injection Hr as <- _.
  - by rewrite read_with_lock_undecodable in Hr.
Qed.

Lemma write_attempts_ok path data k : ∀ a n w,
  io_faults w = k → a + k < max_retries → k < n →
  write_attempts self path data (seq a n) w = (Ok true, written path data w).
Proof.
  induction k as [|k IH]; intros a n w Hk Ha Hn.
  - destruct n as [|n]; [lia|]. simpl.
    apply try_ok. rewrite (bind_ok _ _ _ _ _ (open_write_ready _ _ Hk)).
    unfold bind, json_dump, ret, written, set_files, set_io_faults. simpl.
    by rewrite insert_insert_eq, Hk.
  - destruct n as [|n]; [lia|]. simpl.
    erewrite try_raise
      by (apply (bind_raise _ _ _ OSError), open_write_fault, Hk).
    simpl.
    destruct (Nat.ltb_spec a 4) as [_|?]; [|unfold max_retries in *; lia].
    rewrite (IH (S a) n (set_io_faults k w)); [done|done|lia|lia].
Qed.

Lemma write_with_lock_ok path data w :
  io_faults w < max_retries →
  _write_with_lock self path data w = (Ok true, written path data w).
Proof.
  intros Hf. unfold _write_with_lock.
  by apply (write_attempts_ok path data (io_faults w)); unfold max_retries in *; try lia.
Qed.

(** ** The backup manager *)

Lemma backup_missing p w :
  files w !! p = None → _create_daily_backup self p w = (Ok true, w).
Proof.
  intros Hp. unfold _create_daily_backup, try_except, path_exists.
  rewrite Hp, bool_decide_false by (by intros [? ?]). done.
Qed.

Lemma backup_present p w :
  is_Some (files w !! p) →
  is_Some (files w !! snapshot_path self p (clock w (ticks w))) →
  _create_daily_backup self p w = (Ok true, set_ticks (S (ticks w)) w).
Proof.
  intros Hp Hb. unfold _create_daily_backup, try_except, path_exists.
  rewrite bool_decide_true by done. simpl. unfold bind, now. simpl.
  fold (snapshot_path self p (clock w (ticks w))).
  by rewrite bool_decide_true by done.
Qed.

Lemma backup_copy p w c :
  files w !! p = Some c →
  files w !! snapshot_path self p (clock w (ticks w)) = None →
  io_faults w = 0 →
  _create_daily_backup self p w =
    (Ok true,
     set_copies ((p, snapshot_path self p (clock w (ticks w))) :: copies w)
       (set_files (<[snapshot_path self p (clock w (ticks w)) := c]> (files w))
          (set_ticks (S (ticks w)) w))).
Proof.
  intros Hp Hb Hf. unfold _create_daily_backup, try_except, path_exists.
  rewrite bool_decide_true by eauto. simpl. unfold bind at 1, now. simpl.
  fold (snapshot_path self p (clock w (ticks w))).
  rewrite bool_decide_false by (rewrite Hb; by intros [? ?]). simpl.
  by rewrite (bind_ok _ _ _ _ _ (copy2_ok p _ (set_ticks (S (ticks w)) w) c Hf Hp)).
Qed.

Lemma backup_fault p w c k :
  files w !! p = Some c →
  files w !! snapshot_path self p (clock w (ticks w)) = None →
  io_faults w = S k →
  _create_daily_backup self p w =
    (Ok false, set_io_faults k (set_ticks (S (ticks w)) w)).
Proof.
  intros Hp Hb Hf. unfold _create_daily_backup, try_except, path_exists.
  rewrite bool_decide_true by eauto. simpl. unfold bind at 1, now. simpl.
  fold (snapshot_path self p (clock w (ticks w))).
  rewrite bool_decide_false by (rewrite Hb; by intros [? ?]). simpl.
  by rewrite (bind_raise _ _ _ _ _ (copy2_fault p _ (set_ticks (S (ticks w)) w) k Hf)).
Qed.

Lemma backup_total p w :
  ∃ b w1, _create_daily_backup self p w = (Ok b, w1) ∧ backup_step p w w1.
Proof.
  destruct (files w !! p) as [c|] eqn:Hp.
  - assert (path_exists p w = true) as Hex
        by (unfold path_exists; rewrite bool_decide_true; eauto).
    destruct (files w !! snapshot_path self p (clock w (ticks w))) as [c'|] eqn:Hb.
    + exists true, (set_ticks (S (ticks w)) w). split.
      * apply backup_present; eauto.
      * unfold backup_step. rewrite Hex. simpl. repeat split; done.
    + destruct (io_faults w) as [|k] eqn:Hf.
      * eexists true, _. split; [by apply (backup_copy _ _ c)|].
        unfold backup_step. rewrite Hex. simpl. repeat split; try done; try lia.
        rewrite lookup_insert_ne; [done|]. intros Heq. rewrite Heq in Hb. congruence.
      * eexists false, _. split; [by apply (backup_fault _ _ c k)|].
        unfold backup_step. rewrite Hex. simpl. repeat split; try done; lia.
  - exists true, w. split; [by apply backup_missing|].
    unfold backup_step, path_exists.
    rewrite Hp, bool_decide_false by (by intros [? ?]). repeat split; done.
Qed.

(** ** The record store *)

Lemma stored_step p w w1 : files w1 !! p = files w !! p → stored p w1 = stored p w.
Proof. unfold stored. by intros ->. Qed.

Lemma readable_step p w w1 :
  files w1 !! p = files w !! p → readable p w1 = readable p w.
Proof. unfold readable. by intros ->. Qed.

Lemma stored_document p w data :
  files w !! p = Some (Document (JList data)) → stored p w = data.
Proof. unfold stored. by intros ->. Qed.

Lemma readable_document p w v : files w !! p = Some (Document v) → readable p w = true.
Proof. unfold readable. by intros ->. Qed.

(** A file that decodes to an object is text. *)
Lemma decoded_dict_readable w path dflt :
  is_dict (decoded w path dflt) = true → readable path w = true.
Proof. unfold decoded, readable. by destruct (files w !! path) as [[| | |v]|]. Qed.

Lemma path_exists_step p w w1 :
  files w1 !! p = files w !! p → path_exists p w1 = path_exists p w.
Proof. unfold path_exists. by intros ->. Qed.

(** The common prefix of [create], [update] and [delete]: snapshot, then
    read.  It hands the stored array to what follows. *)
Lemma snapshot_then_read {B} p (k : list json → M B) w :
  io_faults w < max_retries → readable p w = true →
  ∃ w2, bind (_create_daily_backup self p) (λ _, bind (_read_with_lock self p) k) w
          = k (stored p w) w2
        ∧ backup_step p w w2.
Proof.
  intros Hf Hrd.
  destruct (backup_total p w) as (b & w1 & Hb & Hfp & Hio & Hck & Htk & Hen & Hdr).
  rewrite (bind_ok _ _ _ _ _ Hb).
  rewrite <- (readable_step _ _ _ Hfp) in Hrd.
  rewrite (bind_ok _ _ _ _ _ (read_with_lock_ok p w1 ltac:(lia) Hrd)).
  rewrite (stored_step _ _ _ Hfp). eexists; split; [done|].
  unfold backup_step. simpl. repeat split; try done.
  destruct (path_exists p w1); simpl; lia.
Qed.

Lemma create_write_ok c r data w :
  io_faults w < max_retries →
  ∃ w', create_write self c r data w = (Ok (stamped r w (ticks w)), w')
        ∧ files w' = <[_get_file_path self c :=
                         Document (JList (data ++ [JDict (stamped r w (ticks w))]))]>
                       (files w)
        ∧ io_faults w' = 0 ∧ clock w' = clock w ∧ ticks w' = S (S (ticks w))
        ∧ entropy w' = entropy w ∧ draws w ≤ draws w'.
Proof.
  intros Hf. unfold create_write, stamped, with_id, generated_id.
  destruct (r !! "id") as [v|] eqn:Hid.
  - rewrite (bind_ok (ret r) _ w r w eq_refl).
    rewrite (bind_ok now _ _ _ _ (now_eq _)).
    rewrite (bind_ok now _ _ _ _ (now_eq _)).
    erewrite bind_ok by (apply write_with_lock_ok; simpl; lia).
    eexists; split; [done|]. simpl. repeat split; done.
  - rewrite (bind_ok _ _ _ _ _ (bind_ok uuid4 _ _ _ _ (uuid4_eq w))).
    rewrite (bind_ok now _ _ _ _ (now_eq _)).
    rewrite (bind_ok now _ _ _ _ (now_eq _)).
    erewrite bind_ok by (apply write_with_lock_ok; simpl; lia).
    eexists; split; [done|]. simpl. repeat split; try done. lia.
Qed.

Lemma create_ok c r w :
  io_faults w < max_retries → readable (_get_file_path self c) w = true →
  let p := _get_file_path self c in
  let k := if path_exists p w then S (ticks w) else ticks w in
  ∃ w', create self c r w = (Ok (stamped r w k), w')
        ∧ files w' !! p = Some (Document (JList (stored p w ++ [JDict (stamped r w k)])))
        ∧ io_faults w' = 0.
Proof.
  intros Hf Hrd p k. unfold create, create_read. rewrite bind_assoc. cbv beta. fold p.
  destruct (snapshot_then_read p (λ data, create_write self c r data) w Hf Hrd)
    as (w2 & -> & Hfp & Hio & Hck & Htk & Hen & Hdr).
  assert (stamped r w2 (ticks w2) = stamped r w k) as Hs.
  { unfold stamped, with_id, generated_id. by rewrite Hck, Htk, Hen, Hdr. }
  destruct (create_write_ok c r (stored p w) w2 ltac:(lia))
    as (w' & -> & Hfiles & Hio' & _).
  rewrite Hs in *. exists w'. split; [done|]. split; [|done].
  rewrite Hfiles. fold p. by rewrite lookup_insert_eq.
Qed.

Lemma read_all_ok c w :
  io_faults w < max_retries → readable (_get_file_path self c) w = true →
  ∃ w', read_all self c w = (Ok (stored (_get_file_path self c) w), w')
        ∧ files w' = files w ∧ io_faults w' ≤ io_faults w.
Proof.
  intros Hf Hrd. unfold read_all. rewrite read_with_lock_ok by done.
  eexists; split; [done|]. simpl. split; [done|].
  destruct (path_exists _ _); lia.
Qed.

(** A read that returns has found a missing file or text. *)
Lemma read_all_inv c w data w0 :
  io_faults w < max_retries →
  read_all self c w = (Ok data, w0) →
  readable (_get_file_path self c) w = true ∧ data = stored (_get_file_path self c) w.
Proof. apply read_with_lock_inv. Qed.

Lemma find_by_id_ok c i w found :
  io_faults w < max_retries → readable (_get_file_path self c) w = true →
  locate i (stored (_get_file_path self c) w) 0 = Ok found →
  ∃ w', find_by_id self c i w = (Ok (snd <$> found), w')
        ∧ files w' = files w ∧ io_faults w' ≤ io_faults w.
Proof.
  intros Hf Hrd Hl. unfold find_by_id.
  destruct (read_all_ok c w Hf Hrd) as (w' & Hr & Hfiles & Hio).
  rewrite (bind_ok _ _ _ _ _ Hr). unfold lift, bind, ret. rewrite Hl.
  by exists w'.
Qed.

Lemma located_exists p w i k r :
  locate i (stored p w) 0 = Ok (Some (k, r)) → path_exists p w = true.
Proof.
  unfold stored, path_exists. destruct (files w !! p); [|done].
  intros _. apply bool_decide_true. eauto.
Qed.

Lemma located_readable p w i k r :
  locate i (stored p w) 0 = Ok (Some (k, r)) → readable p w = true.
Proof.
  unfold stored, readable. destruct (files w !! p) as [c|]; [|done].
  by destruct c.
Qed.

Lemma update_found c i u w k r :
  io_faults w < max_retries →
  let p := _get_file_path self c in
  locate i (stored p w) 0 = Ok (Some (k, r)) →
  let r' := merged u r (clock w (S (ticks w))) in
  ∃ w', update self c i u w = (Ok (Some r'), w')
        ∧ files w' !! p = Some (Document (JList (<[k := JDict r']> (stored p w))))
        ∧ io_faults w' = 0.
Proof.
  intros Hf p Hl r'. unfold update. fold p.
  pose proof (located_readable _ _ _ _ _ Hl) as Hrd.
  destruct (snapshot_then_read p
              (λ data, do found <- lift (locate i data 0);
                       match found with
                       | Some (i0, r0) =>
                           do t <- now;
                           do saved <- _write_with_lock self p
                                         (<[i0 := JDict (<["updated_at" := JStr (isoformat t)]>
                                                           (u ∪ r0))]> data);
                           if saved
                           then ret (Some (<["updated_at" := JStr (isoformat t)]> (u ∪ r0)))
                           else raise GenericException
                       | None => ret None
                       end) w Hf Hrd)
    as (w2 & -> & Hfp & Hio & Hck & Htk & Hen & Hdr).
  rewrite (bind_ok (lift _) _ w2 _ w2 (f_equal (λ x, (x, w2)) Hl)).
  rewrite (bind_ok now _ _ _ _ (now_eq _)).
  erewrite bind_ok by (apply write_with_lock_ok; simpl; lia).
  rewrite (located_exists _ _ _ _ _ Hl) in Htk.
  unfold ret, r', merged. rewrite Hck, Htk.
  eexists; split; [done|]. simpl. by rewrite lookup_insert_eq.
Qed.

Lemma update_absent c i u w :
  io_faults w < max_retries → readable (_get_file_path self c) w = true →
  let p := _get_file_path self c in
  locate i (stored p w) 0 = Ok None →
  ∃ w', update self c i u w = (Ok None, w')
        ∧ files w' !! p = files w !! p ∧ io_faults w' ≤ io_faults w.
Proof.
  intros Hf Hrd p Hl. unfold update. fold p.
  destruct (snapshot_then_read p
              (λ data, do found <- lift (locate i data 0);
                       match found with
                       | Some (i0, r0) =>
                           do t <- now;
                           do saved <- _write_with_lock self p
                                         (<[i0 := JDict (<["updated_at" := JStr (isoformat t)]>
                                                           (u ∪ r0))]> data);
                           if saved
                           then ret (Some (<["updated_at" := JStr (isoformat t)]> (u ∪ r0)))
                           else raise GenericException
                       | None => ret None
                       end) w Hf Hrd)
    as (w2 & -> & Hfp & Hio & Hck & Htk & Hen & Hdr).
  rewrite (bind_ok (lift _) _ w2 _ w2 (f_equal (λ x, (x, w2)) Hl)).
  by exists w2.
Qed.

Lemma delete_ok c i w :
  io_faults w < max_retries → readable (_get_file_path self c) w = true →
  let p := _get_file_path self c in
  forallb is_dict (stored p w) = true →
  ∃ w', delete self c i w = (Ok (existsb (has_id i) (stored p w)), w')
        ∧ stored p w' = List.filter (λ v, negb (has_id i v)) (stored p w)
        ∧ readable p w' = true
        ∧ io_faults w' ≤ io_faults w.
Proof.
  intros Hf Hrd p Hd. unfold delete. fold p.
  destruct (snapshot_then_read p
              (λ data, do data0 <- lift (without i data);
                       if (length data0 <? length data)%nat
                       then _write_with_lock self p data0 else ret false) w Hf Hrd)
    as (w2 & -> & Hfp & Hio & Hck & Htk & Hen & Hdr).
  rewrite (bind_ok (lift _) _ w2 _ w2 (f_equal (λ x, (x, w2)) (without_total i _ Hd))).
  set (kept := List.filter _ _).
  destruct (Nat.ltb_spec (length kept) (length (stored p w))) as [Hlt|Hge].
  - rewrite write_with_lock_ok by lia.
    apply filter_length_lt in Hlt. rewrite existsb_negb_negb in Hlt. rewrite Hlt.
    eexists; split; [done|]. unfold stored at 1, readable. simpl.
    rewrite lookup_insert_eq. simpl. split; [done|]. split; [done|lia].
  - destruct (existsb (has_id i) (stored p w)) eqn:E.
    { rewrite <- existsb_negb_negb in E. apply filter_length_lt in E.
      fold kept in E. lia. }
    exists w2. split; [done|]. split; [|by rewrite (readable_step _ _ _ Hfp)].
    rewrite (stored_step _ _ _ Hfp). unfold kept.
    by rewrite filter_same by (by rewrite existsb_negb_negb).
Qed.

Lemma find_by_id_inv c i w found w0 :
  io_faults w < max_retries →
  find_by_id self c i w = (Ok found, w0) →
  readable (_get_file_path self c) w = true
  ∧ ∃ loc, locate i (stored (_get_file_path self c) w) 0 = Ok loc ∧ found = snd <$> loc.
Proof.
  intros Hf. unfold find_by_id.
  destruct (read_all self c w) as [[data|e] w'] eqn:Hr; [|by rewrite (bind_raise _ _ _ _ _ Hr)].
  rewrite (bind_ok _ _ _ _ _ Hr).
  destruct (read_all_inv _ _ _ _ Hf Hr) as [Hrd ->]. split; [done|]. revert H.
  unfold lift, bind, ret.
  destruct (locate i _ 0) as [loc|e]; [|done].
  intros [= <- _]. by exists loc.
Qed.

Lemma merged_lookup u r t key :
  key ≠ "updated_at" →
  merged u r t !! key = match u !! key with Some v => Some v | None => r !! key end.
Proof.
  intros Hk. unfold merged. rewrite lookup_insert_ne by done.
  rewrite lookup_union. destruct (u !! key), (r !! key); done.
Qed.

End StoreFacts.

(** ** Timestamps *)

Lemma compare_app a b x y :
  String.length a = String.length b →
  String.compare (a +:+ x) (b +:+ y) =
    match String.compare a b with Eq => String.compare x y | o => o end.
Proof.
  revert b. induction a as [|c a IH]; intros [|c' b]; simpl; try done.
  intros [= Hl]. destruct (Ascii.compare c c'); try done. by apply IH.
Qed.

Lemma length_pad k n : String.length (pad k n) = k.
Proof. induction k as [|k IH]; simpl; [done|]. by rewrite IH. Qed.

Lemma digit_compare a b :
  Ascii.compare (digit a) (digit b) = N.compare (a mod 10) (b mod 10).
Proof.
  unfold digit, Ascii.compare.
  pose proof (N.mod_upper_bound a 10 ltac:(done)).
  pose proof (N.mod_upper_bound b 10 ltac:(done)).
  rewrite !N_ascii_embedding by lia.
  destruct (N.compare_spec (a mod 10) (b mod 10));
    [apply N.compare_eq_iff|apply N.compare_lt_iff|apply N.compare_gt_iff]; lia.
Qed.

(** Zero-padded decimals of one width compare as the numbers they print. *)
Lemma pad_compare k a b :
  String.compare (pad k a) (pad k b)
  = N.compare (a mod 10 ^ N.of_nat k) (b mod 10 ^ N.of_nat k).
Proof.
  induction k as [|k IH].
  - simpl. by rewrite !N.mod_1_r.
  - cbn [pad String.compare]. rewrite digit_compare, IH.
    rewrite Nat2N.inj_succ, N.pow_succ_r'.
    set (P := (10 ^ N.of_nat k)%N).
    assert (0 < P)%N as HP by (apply N.neq_0_lt_0, N.pow_nonzero; lia).
    rewrite (N.mul_comm 10 P), !N.Div0.mod_mul_r.
    pose proof (N.mod_upper_bound a P ltac:(lia)).
    pose proof (N.mod_upper_bound b P ltac:(lia)).
    set (qa := ((a / P) mod 10)%N). set (qb := ((b / P) mod 10)%N).
    set (ra := (a mod P)%N) in *. set (rb := (b mod P)%N) in *.
    destruct (N.compare_spec qa qb) as [->|Hq|Hq].
    + destruct (N.compare_spec ra rb) as [->|Hr|Hr]; symmetry;
        [apply N.compare_eq_iff|apply N.compare_lt_iff|apply N.compare_gt_iff]; nia.
    + symmetry. apply N.compare_lt_iff. nia.
    + symmetry. apply N.compare_gt_iff. nia.
Qed.

Lemma pad_compare_small k a b :
  (a < 10 ^ N.of_nat k)%N → (b < 10 ^ N.of_nat k)%N →
  String.compare (pad k a) (pad k b) = N.compare a b.
Proof. intros Ha Hb. by rewrite pad_compare, !N.mod_small. Qed.

(** A field of the timestamp followed by the rest of it. *)
Lemma field_compare k a b x y :
  (a < 10 ^ N.of_nat k)%N → (b < 10 ^ N.of_nat k)%N →
  String.compare (pad k a +:+ x) (pad k b +:+ y) =
    match N.compare a b with Eq => String.compare x y | o => o end.
Proof.
  intros Ha Hb. rewrite compare_app by (by rewrite !length_pad).
  by rewrite pad_compare_small.
Qed.

Lemma ascii_compare_refl c : Ascii.compare c c = Eq.
Proof. unfold Ascii.compare. apply N.compare_refl. Qed.

Lemma append_cons c s t : String c s +:+ t = String c (s +:+ t).
Proof. done. Qed.

Lemma append_nil t : "" +:+ t = t.
Proof. done. Qed.

Lemma append_assoc a b c : (a +:+ b) +:+ c = a +:+ (b +:+ c).
Proof.
  induction a as [|x a IH]; [done|]. by rewrite !append_cons, IH.
Qed.

(** One field of two timestamps: decided here, or equal and the order is
    decided further on. *)
Ltac field_step H :=
  rewrite field_compare by (simpl; lia);
  rewrite ?append_cons, ?append_nil; cbn [String.compare];
  rewrite ?ascii_compare_refl;
  match goal with
  | |- context [N.compare ?a ?b] =>
      destruct (N.compare_spec a b) as [E|E|E];
      [ rewrite (proj2 (N.ltb_ge a b)) in H by lia;
        rewrite (proj2 (N.eqb_eq a b) E) in H; simpl in H; clear E
      | done
      | rewrite (proj2 (N.ltb_ge a b)) in H by lia;
        rewrite (proj2 (N.eqb_neq a b)) in H by lia; discriminate ]
  end.

Lemma isoformat_increasing d1 d2 :
  valid_datetime d1 → valid_datetime d2 → earlier d1 d2 →
  String.ltb (isoformat d1) (isoformat d2) = true.
Proof.
  intros (Hy1 & Hm1 & Hd1 & Hh1 & Hmi1 & Hs1 & Hu1)
         (Hy2 & Hm2 & Hd2 & Hh2 & Hmi2 & Hs2 & Hu2).
  unfold earlier, fields, lex_lt, String.ltb, isoformat, iso_date.
  rewrite !append_assoc. intros H.
  do 6 field_step H.
  rewrite andb_false_r, orb_false_r in H. apply N.ltb_lt in H.
  destruct (N.eqb_spec (microsecond d2) 0) as [?|_]; [lia|].
  destruct (N.eqb_spec (microsecond d1) 0) as [_|_]; [done|].
  cbn [String.compare]. rewrite ascii_compare_refl.
  rewrite pad_compare_small by (simpl; lia).
  by apply N.compare_lt_iff in H as ->.
Qed.

Lemma lex_lt_trichotomy a : ∀ b,
  length a = length b → lex_lt a b = true ∨ a = b ∨ lex_lt b a = true.
Proof.
  induction a as [|x a IH]; intros [|y b] Hl; simpl in *; try done; [by right; left|].
  destruct (N.compare_spec x y) as [->|Hlt|Hgt].
  - rewrite N.ltb_irrefl, N.eqb_refl. simpl.
    destruct (IH b ltac:(lia)) as [H|[->|H]]; auto.
  - left. apply orb_true_iff. left. by apply N.ltb_lt.
  - right. right. apply orb_true_iff. left. by apply N.ltb_lt.
Qed.

Lemma string_compare_refl s : String.compare s s = Eq.
Proof.
  induction s as [|c s IH]; [done|]. cbn [String.compare].
  by rewrite ascii_compare_refl.
Qed.

Lemma ltb_irrefl s : String.ltb s s = false.
Proof. unfold String.ltb. by rewrite string_compare_refl. Qed.

Lemma ltb_asym a b : String.ltb a b = true → String.ltb b a = false.
Proof.
  unfold String.ltb. rewrite (String.compare_antisym a b).
  by destruct (String.compare b a).
Qed.

Lemma datetime_cases d1 d2 : earlier d1 d2 ∨ d1 = d2 ∨ earlier d2 d1.
Proof.
  destruct (lex_lt_trichotomy (fields d1) (fields d2) eq_refl) as [H|[H|H]]; auto.
  right. left. destruct d1, d2. unfold fields in H. simpl in H. congruence.
Qed.

(** The ISO strings of valid datetime values compare as the values do. *)
Lemma isoformat_order d1 d2 :
  valid_datetime d1 → valid_datetime d2 →
  String.ltb (isoformat d1) (isoformat d2) = true ↔ earlier d1 d2.
Proof.
  intros H1 H2. split; [|by apply isoformat_increasing].
  intros Hlt. destruct (datetime_cases d1 d2) as [H|[->|H]]; [done| |].
  - by rewrite ltb_irrefl in Hlt.
  - apply (isoformat_increasing _ _ H2 H1), ltb_asym in H. congruence.
Qed.

Lemma length_hex k n : String.length (hex k n) = k.
Proof. induction k as [|k IH]; simpl; [done|]. by rewrite IH. Qed.

Lemma substring_length s : ∀ n m,
  n + m ≤ String.length s → String.length (substring n m s) = m.
Proof.
  induction s as [|c s IH]; intros [|n] [|m]; simpl; try done; try lia.
  - intros H. rewrite IH; [done|lia].
  - intros H. rewrite IH; [done|lia].
  - intros H. rewrite IH; [done|simpl; lia].
Qed.

Lemma substring_prefix a b : substring 0 (String.length a) (a +:+ b) = a.
Proof.
  induction a as [|c a IH]; [by destruct b|].
  rewrite append_cons. simpl. by rewrite IH.
Qed.

Lemma generated_id_length w : String.length (generated_id w) = 8.
Proof.
  unfold generated_id, uuid_str.
  set (h := hex 32 _). 
  assert (String.length (substring 0 8 h) = 8) as Hl
    by (apply substring_length; unfold h; rewrite length_hex; lia).
  rewrite <- Hl at 1. by rewrite substring_prefix.
Qed.

(** * The claims about the record store *)

Section StoreClaims.
Variable self : JSONStore.


(** C10: valid JSON whose top-level value is not an array reads as the empty
    list: it is neither returned nor raised. *)
Theorem read_all_discards_non_array (collection : string) (w : world) (v : json) :
  io_faults w < max_retries →
  files w !! _get_file_path self collection = Some (Document v) →
  (∀ data, v ≠ JList data) →
  ∃ w', read_all self collection w = (Ok [], w') ∧ files w' = files w.
Proof.
  intros Hf Hc Hv.
  destruct (read_all_ok self collection w Hf (readable_document _ _ _ Hc))
    as (w' & Hr & Hfiles & _).
  exists w'. split; [|done]. rewrite Hr. unfold stored. rewrite Hc. simpl.
  unfold load_list. simpl. destruct v; try done. by destruct (Hv l).
Qed.

(** C1, as the code has it: [update] on an id that [find_by_id] finds merges
    the partial fields into that record (their keys overwrite, every other
    field keeps its value), sets [updated_at] to the reading that it takes
    of the clock, writes the whole array with the record replaced in place,
    and returns the merged record.  The store does not compare the new
    stamp with the former one: the new stamp is strictly greater exactly
    when the clock reads later than the instant of the former stamp, and
    it is the same string when the clock reads that very instant.  On an
    id that [find_by_id] does not find, [update] returns [None] and leaves
    the array as it was. *)
Theorem update_merges_and_persists (collection record_id : string) (updates : Dict)
    (w : world) :
  io_faults w < max_retries →
  let t := clock w (S (ticks w)) in
  (∀ r w0, find_by_id self collection record_id w = (Ok (Some r), w0) →
     ∃ r' w' data k,
       update self collection record_id updates w = (Ok (Some r'), w')
       ∧ (∀ key v, updates !! key = Some v → key ≠ "updated_at" → r' !! key = Some v)
       ∧ (∀ key, updates !! key = None → key ≠ "updated_at" → r' !! key = r !! key)
       ∧ r' !! "updated_at" = Some (JStr (isoformat t))
       ∧ (∀ t0, r !! "updated_at" = Some (JStr (isoformat t0)) →
                valid_datetime t0 → valid_datetime t →
                ∃ before after,
                  r !! "updated_at" = Some (JStr before)
                  ∧ r' !! "updated_at" = Some (JStr after)
                  ∧ (String.ltb before after = true ↔ earlier t0 t)
                  ∧ (t0 = t → after = before))
       ∧ read_all self collection w = (Ok data, w0)
       ∧ data !! k = Some (JDict r)
       ∧ ∃ w'', read_all self collection w' = (Ok (<[k := JDict r']> data), w''))
  ∧ (∀ w0, find_by_id self collection record_id w = (Ok None, w0) →
     ∃ w' data,
       update self collection record_id updates w = (Ok None, w')
       ∧ read_all self collection w = (Ok data, w0)
       ∧ ∃ w'', read_all self collection w' = (Ok data, w'')).
Proof.
  intros Hf t. pose (p := _get_file_path self collection). split.
  - intros r w0 Hfind.
    destruct (find_by_id_inv self _ _ _ _ _ Hf Hfind) as (Hrd & loc & Hl & Hloc).
    destruct loc as [[k r0]|]; [|done]. simpl in Hloc. injection Hloc as ->.
    destruct (update_found self collection record_id updates w k r0 Hf Hl)
      as (w' & Hu & Hfiles & Hio).
    assert (merged updates r0 t !! "updated_at" = Some (JStr (isoformat t))) as Hat.
    { unfold merged. by rewrite lookup_insert_eq. }
    exists (merged updates r0 t), w', (stored p w), k.
    split; [done|].
    split. { intros key v Hk Hne. by rewrite merged_lookup, Hk. }
    split. { intros key Hk Hne. by rewrite merged_lookup, Hk. }
    split; [exact Hat|].
    split.
    { intros t0 H0 Hv0 Hv. exists (isoformat t0), (isoformat t).
      split; [exact H0|]. split; [exact Hat|].
      split; [by apply isoformat_order|by intros ->]. }
    split.
    { revert Hfind. unfold find_by_id.
      destruct (read_all_ok self collection w Hf Hrd) as (w1 & Hr & _).
      rewrite (bind_ok _ _ _ _ _ Hr). unfold lift, bind, ret.
      rewrite Hl. by intros [= <-]. }
    split.
    { apply locate_found in Hl as (_ & Hk & _). by rewrite Nat.sub_0_r in Hk. }
    destruct (read_all_ok self collection w' ltac:(lia)
                (readable_document _ _ _ Hfiles)) as (w'' & Hr & _).
    exists w''. rewrite Hr. unfold stored. by rewrite Hfiles.
  - intros w0 Hfind.
    destruct (find_by_id_inv self _ _ _ _ _ Hf Hfind) as (Hrd & loc & Hl & Hloc).
    destruct loc as [[k r0]|]; [done|].
    destruct (update_absent self collection record_id updates w Hf Hrd Hl)
      as (w' & Hu & Hfiles & Hio).
    exists w', (stored p w). split; [done|].
    split.
    { revert Hfind. unfold find_by_id.
      destruct (read_all_ok self collection w Hf Hrd) as (w1 & Hr & _).
      rewrite (bind_ok _ _ _ _ _ Hr). unfold lift, bind, ret.
      rewrite Hl. by intros [= <-]. }
    destruct (read_all_ok self collection w' ltac:(lia)) as (w'' & Hr & _).
    { by rewrite (readable_step _ _ _ Hfiles). }
    exists w''. rewrite Hr. by rewrite (stored_step _ _ _ Hfiles).
Qed.

(** C2, as the code has it: a record without an id gets the first eight
    characters of a fresh uuid as its id and two successive clock readings as
    its stamps, and is returned; when no stored record already carries that
    id, [find_by_id] on it then returns that very record, with the same
    fields, id, [created_at] and [updated_at]. *)
Theorem create_then_find_by_id (collection : string) (record : Dict) (w : world) :
  io_faults w < max_retries →
  record !! "id" = None →
  (∃ w0, find_by_id self collection (generated_id w) w = (Ok None, w0)) →
  ∃ s w' k,
    create self collection record w = (Ok s, w')
    ∧ s = <["updated_at" := JStr (isoformat (clock w (S k)))]>
            (<["created_at" := JStr (isoformat (clock w k))]>
               (<["id" := JStr (generated_id w)]> record))
    ∧ String.length (generated_id w) = 8
    ∧ ∃ w'', find_by_id self collection (generated_id w) w' = (Ok (Some s), w'').
Proof.
  intros Hf Hid [w0 Hfree].
  destruct (find_by_id_inv self _ _ _ _ _ Hf Hfree) as (Hrd & loc & Hl & Hloc).
  destruct loc as [[k0 r0]|]; [done|].
  destruct (create_ok self collection record w Hf Hrd) as (w' & Hc & Hfiles & Hio).
  set (k := if path_exists _ w then S (ticks w) else ticks w) in *.
  exists (stamped record w k), w', k. split; [done|].
  assert (stamped record w k
          = <["updated_at" := JStr (isoformat (clock w (S k)))]>
              (<["created_at" := JStr (isoformat (clock w k))]>
                 (<["id" := JStr (generated_id w)]> record))) as Hs.
  { unfold stamped, with_id. by rewrite Hid. }
  split; [done|]. split; [apply generated_id_length|].
  destruct (find_by_id_ok self collection (generated_id w) w'
              (Some (length (stored (_get_file_path self collection) w),
                     stamped record w k)) ltac:(lia)
              (readable_document _ _ _ Hfiles)) as (w'' & Hfi & _);
    [|by exists w''].
  rewrite (stored_document _ _ _ Hfiles). rewrite (locate_app _ _ _ _ Hl).
  replace (has_id (generated_id w) (JDict (stamped record w k))) with true; [done|].
  rewrite Hs. unfold has_id, dict_get.
  rewrite !lookup_insert_ne, lookup_insert_eq by done.
  symmetry. exact (String.eqb_refl (generated_id w)).
Qed.

(** C3: on a collection of records, [delete] returns true exactly when a
    record with the id was stored; the array it leaves has no record with
    that id, so that [find_by_id] then returns [None] and a second [delete]
    returns false. *)
Theorem delete_is_final (collection record_id : string) (w w0 : world)
    (data : list json) :
  io_faults w < max_retries →
  read_all self collection w = (Ok data, w0) →
  forallb is_dict data = true →
  ∃ b w1,
    delete self collection record_id w = (Ok b, w1)
    ∧ (b = true ↔ ∃ d, JDict d ∈ data ∧ dict_get d "id" = JStr record_id)
    ∧ (∃ w2, read_all self collection w1
             = (Ok (List.filter (λ v, negb (has_id record_id v)) data), w2))
    ∧ (∃ w2, find_by_id self collection record_id w1 = (Ok None, w2))
    ∧ (∃ w2, delete self collection record_id w1 = (Ok false, w2)).
Proof.
  intros Hf Hr Hd.
  destruct (read_all_inv self _ _ _ _ Hf Hr) as [Hrd ->].
  destruct (delete_ok self collection record_id w Hf Hrd Hd)
    as (w1 & Hdel & Hst & Hrd1 & Hio).
  set (p := _get_file_path self collection) in *.
  set (kept := List.filter _ (stored p w)) in *.
  assert (forallb is_dict kept = true) as Hdk.
  { unfold kept. clear -Hd. induction (stored p w) as [|v l IH]; simpl in *; [done|].
    apply andb_true_iff in Hd as [Hv Hl]. destruct (negb _); simpl; [|by apply IH].
    by rewrite Hv, IH. }
  assert (existsb (has_id record_id) kept = false) as Hnone.
  { unfold kept. clear. induction (stored p w) as [|v l IH]; simpl; [done|].
    destruct (has_id record_id v) eqn:E; simpl; [done|]. by rewrite E. }
  exists (existsb (has_id record_id) (stored p w)), w1. split; [done|].
  split.
  { rewrite existsb_exists. split.
    - intros (v & Hin & Hv). destruct v; try done. exists d.
      split; [by apply list_elem_of_In|].
      unfold has_id, eq_str in Hv. destruct (dict_get d "id"); try done.
      by apply String.eqb_eq in Hv as ->.
    - intros (d & Hin & Hv). exists (JDict d). split; [by apply list_elem_of_In|].
      unfold has_id. rewrite Hv. apply String.eqb_refl. }
  split.
  { destruct (read_all_ok self collection w1 ltac:(lia) Hrd1) as (w2 & Hr2 & _).
    exists w2. rewrite Hr2. fold p. by rewrite Hst. }
  split.
  { destruct (find_by_id_ok self collection record_id w1 None ltac:(lia) Hrd1)
      as (w2 & Hfi & _).
    - fold p. rewrite Hst. by apply locate_filtered.
    - by exists w2. }
  destruct (delete_ok self collection record_id w1 ltac:(lia) Hrd1) as (w2 & Hdel2 & _).
  { fold p. by rewrite Hst. }
  exists w2. rewrite Hdel2. fold p. by rewrite Hst, Hnone.
Qed.

(** C7, as the code has it: an [update] whose partial fields have no
    [created_at] key leaves [created_at] as it was, and every update that
    finds its record refreshes [updated_at] to the clock reading and stores
    the record so. *)
Theorem update_keeps_created_at (collection record_id : string) (updates r : Dict)
    (w w0 : world) :
  io_faults w < max_retries →
  find_by_id self collection record_id w = (Ok (Some r), w0) →
  ∃ r' w',
    update self collection record_id updates w = (Ok (Some r'), w')
    ∧ (updates !! "created_at" = None → r' !! "created_at" = r !! "created_at")
    ∧ r' !! "updated_at" = Some (JStr (isoformat (clock w (S (ticks w)))))
    ∧ ∃ w'' data, read_all self collection w' = (Ok data, w'') ∧ JDict r' ∈ data.
Proof.
  intros Hf Hfind.
  destruct (find_by_id_inv self _ _ _ _ _ Hf Hfind) as (Hrd & loc & Hl & Hloc).
  destruct loc as [[k r0]|]; [|done]. simpl in Hloc. injection Hloc as ->.
  destruct (update_found self collection record_id updates w k r0 Hf Hl)
    as (w' & Hu & Hfiles & Hio).
  eexists _, w'. split; [done|].
  split. { intros Hc. by rewrite merged_lookup, Hc. }
  split. { unfold merged. by rewrite lookup_insert_eq. }
  destruct (read_all_ok self collection w' ltac:(lia)
              (readable_document _ _ _ Hfiles)) as (w'' & Hr & _).
  eexists w'', _. split; [done|]. rewrite (stored_document _ _ _ Hfiles).
  apply locate_found in Hl as (_ & Hk & _). rewrite Nat.sub_0_r in Hk.
  apply list_elem_of_lookup. exists k. apply list_lookup_insert_eq.
  by apply lookup_lt_Some in Hk.
Qed.

End StoreClaims.

(** ** Growth of the world *)

Lemma grows_refl w : grows w w.
Proof.
  split; [done|]. exists []. split; [done|]. split; [constructor|].
  intros d Hd. by apply elem_of_nil in Hd.
Qed.

Lemma grows_trans w1 w2 w3 : grows w1 w2 → grows w2 w3 → grows w1 w3.
Proof.
  intros [Hf1 (n1 & Hc1 & Hn1 & Hd1)] [Hf2 (n2 & Hc2 & Hn2 & Hd2)].
  split; [auto|]. exists (n2 ++ n1).
  split; [by rewrite Hc2, Hc1, app_assoc|].
  rewrite fmap_app. split.
  - apply NoDup_app. split; [done|]. split; [|done].
    intros d H2 H1. destruct (Hd2 d H2) as [Hnone _].
    destruct (Hd1 d H1) as [_ [c Hsome]]. congruence.
  - intros d Hd. apply elem_of_app in Hd as [Hd|Hd].
    + destruct (Hd2 d Hd) as [Hnone Hsome]. split; [|done].
      destruct (files w1 !! d) eqn:E; [|done].
      destruct (Hf1 d) as [c' Hc']; [eauto|]. congruence.
    + destruct (Hd1 d Hd) as [Hnone Hsome]. split; [done|]. auto.
Qed.

(** A step that keeps the files that exist and copies nothing. *)
Lemma grows_quiet w w' :
  (∀ p, is_Some (files w !! p) → is_Some (files w' !! p)) →
  copies w' = copies w → grows w w'.
Proof.
  intros Hf Hc. split; [done|]. exists []. split; [done|]. split; [constructor|].
  intros d Hd. by apply elem_of_nil in Hd.
Qed.

Lemma steady_ret {A} (a : A) : steady (ret a).
Proof. intros w. apply grows_refl. Qed.

Lemma steady_raise {A} e : steady (@raise A e).
Proof. intros w. apply grows_refl. Qed.

Lemma steady_lift {A} (r : result A) : steady (lift r).
Proof. intros w. apply grows_refl. Qed.

Lemma steady_bind {A B} (c : M A) (k : A → M B) :
  steady c → (∀ a, steady (k a)) → steady (bind c k).
Proof.
  intros Hc Hk w. specialize (Hc w). unfold bind.
  destruct (c w) as [[a|e] w1]; simpl in *; [|done].
  eapply grows_trans; [done|]. apply Hk.
Qed.

Lemma steady_try {A} (c : M A) h :
  steady c → (∀ e, steady (h e)) → steady (try_except c h).
Proof.
  intros Hc Hh w. specialize (Hc w). unfold try_except.
  destruct (c w) as [[a|e] w1]; simpl in *; [done|].
  eapply grows_trans; [done|]. apply Hh.
Qed.

Lemma steady_open_file : steady open_file.
Proof.
  intros w. unfold open_file. destruct (io_faults w); [apply grows_refl|].
  by apply grows_quiet.
Qed.

Lemma steady_open_read path : steady (open_read path).
Proof.
  apply steady_bind; [apply steady_open_file|]. intros _ w.
  destruct (files w !! path); apply grows_refl.
Qed.

Lemma steady_insert path c w :
  grows w (set_files (<[path := c]> (files w)) w).
Proof.
  apply grows_quiet; [|done]. intros p Hp. simpl.
  destruct (decide (path = p)) as [->|Hne].
  - rewrite lookup_insert_eq. eauto.
  - by rewrite lookup_insert_ne.
Qed.

Lemma steady_open_write path : steady (open_write path).
Proof.
  apply steady_bind; [apply steady_open_file|]. intros _ w. apply steady_insert.
Qed.

Lemma steady_json_dump path v : steady (json_dump path v).
Proof. intros w. apply steady_insert. Qed.

Lemma steady_now : steady now.
Proof. intros w. by apply grows_quiet. Qed.

Lemma steady_uuid4 : steady uuid4.
Proof.
  apply steady_bind; [|intros; apply steady_ret]. intros w. by apply grows_quiet.
Qed.

Create HintDb steady.
#[local] Hint Resolve steady_ret steady_raise steady_lift steady_open_read
  steady_open_write steady_json_dump steady_now steady_uuid4 : steady.
#[local] Hint Extern 2 (steady (bind _ _)) => apply steady_bind; [|intros] : steady.
#[local] Hint Extern 2 (steady (try_except _ _)) => apply steady_try; [|intros] : steady.
#[local] Hint Extern 3 (steady (if ?b then _ else _)) => destruct b : steady.

Section Growth.
Variable self : JSONStore.

Lemma steady_read_attempts path attempts : steady (read_attempts self path attempts).
Proof.
  induction attempts as [|a rest IH]; cbn [read_attempts]; [auto with steady|].
  apply steady_try; [auto with steady|]. intros e.
  destruct (is_oserror e); [|auto with steady].
  destruct (a <? max_retries - 1)%nat; [done|].
  destruct (windows self); auto with steady.
Qed.

Lemma steady_read_with_lock path : steady (_read_with_lock self path).
Proof.
  intros w. unfold _read_with_lock.
  destruct (path_exists path w); [apply steady_read_attempts|apply grows_refl].
Qed.

Lemma steady_write_attempts path data attempts :
  steady (write_attempts self path data attempts).
Proof.
  induction attempts as [|a rest IH]; cbn [write_attempts]; [auto with steady|].
  apply steady_try; [auto with steady|]. intros e.
  destruct (is_oserror e); [|auto with steady].
  destruct (a <? max_retries - 1)%nat; [done|].
  destruct (windows self); [|auto with steady].
  apply steady_bind; [auto with steady|]. intros []; auto with steady.
Qed.

Lemma steady_write_with_lock path data : steady (_write_with_lock self path data).
Proof. apply steady_write_attempts. Qed.

Lemma steady_backup path : steady (_create_daily_backup self path).
Proof.
  intros w. destruct (files w !! path) as [c|] eqn:Hp.
  - destruct (files w !! snapshot_path self path (clock w (ticks w))) as [c'|] eqn:Hb.
    + rewrite backup_present by eauto. by apply grows_quiet.
    + destruct (io_faults w) as [|k] eqn:Hf.
      * rewrite (backup_copy self path w c) by done. simpl.
        split.
        { intros p Hx. simpl.
          destruct (decide (snapshot_path self path (clock w (ticks w)) = p)) as [->|Hne].
          - rewrite lookup_insert_eq. eauto.
          - by rewrite lookup_insert_ne. }
        exists [(path, snapshot_path self path (clock w (ticks w)))].
        split; [done|]. split; [apply NoDup_singleton|].
        intros d Hd. apply list_elem_of_singleton in Hd as ->.
        split; [done|]. simpl. rewrite lookup_insert_eq. eauto.
      * rewrite (backup_fault self path w c k) by done. by apply grows_quiet.
  - rewrite backup_missing by done. apply grows_refl.
Qed.

Lemma steady_create collection record : steady (create self collection record).
Proof.
  unfold create, create_read, create_write.
  apply steady_bind.
  { apply steady_bind; [apply steady_backup|]. intros _. apply steady_read_with_lock. }
  intros data. apply steady_bind.
  { destruct (record !! "id"); auto with steady. }
  intros r. apply steady_bind; [auto with steady|]. intros t1.
  apply steady_bind; [auto with steady|]. intros t2.
  apply steady_bind; [apply steady_write_with_lock|]. intros []; auto with steady.
Qed.

Lemma steady_update collection record_id updates :
  steady (update self collection record_id updates).
Proof.
  unfold update.
  apply steady_bind; [apply steady_backup|]. intros _.
  apply steady_bind; [apply steady_read_with_lock|]. intros data.
  apply steady_bind; [auto with steady|]. intros [[i r]|]; [|auto with steady].
  apply steady_bind; [auto with steady|]. intros t.
  apply steady_bind; [apply steady_write_with_lock|]. intros []; auto with steady.
Qed.

Lemma steady_delete collection record_id : steady (delete self collection record_id).
Proof.
  unfold delete.
  apply steady_bind; [apply steady_backup|]. intros _.
  apply steady_bind; [apply steady_read_with_lock|]. intros data.
  apply steady_bind; [auto with steady|]. intros kept.
  destruct (_ <? _)%nat; [apply steady_write_with_lock|auto with steady].
Qed.

Lemma grows_serve q w : grows w (serve self q w).
Proof.
  destruct q; simpl; [apply steady_create|apply steady_update|apply steady_delete].
Qed.

Lemma grows_run requests : ∀ w, grows w (run self requests w).
Proof.
  induction requests as [|q rest IH]; intros w; simpl; [apply grows_refl|].
  eapply grows_trans; [apply grows_serve|apply IH].
Qed.

End Growth.

(** * The claims about snapshots and concurrent writers *)

Section BackupClaims.
Variable self : JSONStore.

Lemma snapshot_path_day p d1 d2 :
  strftime_ymd d1 = strftime_ymd d2 → snapshot_path self p d1 = snapshot_path self p d2.
Proof. unfold snapshot_path. by intros ->. Qed.

(** C8: the daily snapshot.  A missing source file is not an error and
    nothing is copied.  The first call of a day that finds the source file,
    and no snapshot of it for that day, copies it to the dated directory;
    whatever requests are served afterwards, a later call on the same day
    copies nothing.  In general a call that finds the day's snapshot copies
    nothing, and over any sequence of create, update and delete requests no
    snapshot path is copied to twice. *)
Theorem daily_backup_at_most_once (file_path : string) :
  (∀ w, files w !! file_path = None →
        _create_daily_backup self file_path w = (Ok true, w))
  ∧ (∀ w c,
       let snapshot := snapshot_path self file_path (clock w (ticks w)) in
       files w !! file_path = Some c → files w !! snapshot = None → io_faults w = 0 →
       ∃ w1, _create_daily_backup self file_path w = (Ok true, w1)
             ∧ copies w1 = (file_path, snapshot) :: copies w
             ∧ files w1 !! snapshot = Some c
             ∧ ∀ requests,
                 let w2 := run self requests w1 in
                 strftime_ymd (clock w2 (ticks w2)) = strftime_ymd (clock w (ticks w)) →
                 ∃ w3, _create_daily_backup self file_path w2 = (Ok true, w3)
                       ∧ copies w3 = copies w2 ∧ files w3 = files w2)
  ∧ (∀ w, is_Some (files w !! file_path) →
          is_Some (files w !! snapshot_path self file_path (clock w (ticks w))) →
          ∃ w1, _create_daily_backup self file_path w = (Ok true, w1)
                ∧ copies w1 = copies w ∧ files w1 = files w)
  ∧ (∀ requests w, ∃ new, copies (run self requests w) = new ++ copies w
                          ∧ NoDup new.*2).
Proof.
  split; [apply backup_missing|]. split; [|split].
  - intros w c snapshot Hp Hb Hf.
    eexists. split; [by apply (backup_copy self file_path w c)|].
    split; [done|]. split; [simpl; by rewrite lookup_insert_eq|].
    intros requests w2 Hday.
    set (w1 := set_copies _ _) in *.
    destruct (grows_run self requests w1) as [Hfiles _]. fold w2 in Hfiles.
    exists (set_ticks (S (ticks w2)) w2). split; [|by split].
    apply backup_present.
    + apply Hfiles. unfold w1. simpl.
      rewrite lookup_insert_ne; [eauto|]. intros Heq. unfold snapshot in Hb.
      rewrite Heq in Hb. congruence.
    + rewrite (snapshot_path_day _ _ _ Hday). apply Hfiles. unfold w1. simpl.
      rewrite lookup_insert_eq. eauto.
  - intros w Hp Hb. eexists. split; [by apply backup_present|]. by split.
  - intros requests w. destruct (grows_run self requests w) as [_ (new & Hc & Hn & _)].
    by exists new.
Qed.

Lemma create_read_ok c w :
  io_faults w < max_retries → readable (_get_file_path self c) w = true →
  ∃ w1, create_read self c w = (Ok (stored (_get_file_path self c) w), w1)
        ∧ backup_step (_get_file_path self c) w w1.
Proof.
  intros Hf Hrd. unfold create_read.
  destruct (backup_total self (_get_file_path self c) w)
    as (b & w1 & Hb & Hfp & Hio & Hck & Htk & Hen & Hdr).
  rewrite (bind_ok _ _ _ _ _ Hb).
  rewrite <- (readable_step _ _ _ Hfp) in Hrd.
  rewrite read_with_lock_ok by (done || lia).
  rewrite (stored_step _ _ _ Hfp). eexists; split; [done|].
  unfold backup_step. simpl. repeat split; try done.
  destruct (path_exists _ w1); simpl; lia.
Qed.

(** C9 fails on the code.  [create] reads under one lock and writes under
    another: when two callers both read a collection before either writes,
    both calls succeed, but the array that the second one writes was built
    from what it read, and the record of the first is gone: one record more
    than at the start, not two.  This holds for every collection that can
    be read at all, that is, whose file is missing or is text. *)
Theorem interleaved_creates_lose_a_record (collection : string) (ra rb : Dict)
    (w : world) :
  io_faults w < max_retries →
  readable (_get_file_path self collection) w = true →
  ∃ initial da db sa sb w0 w1 w2 w3 w4 w5,
    read_all self collection w = (Ok initial, w0)
    ∧ create_read self collection w = (Ok da, w1)
    ∧ create_read self collection w1 = (Ok db, w2)
    ∧ create_write self collection ra da w2 = (Ok sa, w3)
    ∧ create_write self collection rb db w3 = (Ok sb, w4)
    ∧ read_all self collection w4 = (Ok (initial ++ [JDict sb]), w5)
    ∧ length (initial ++ [JDict sb]) = length initial + 1.
Proof.
  intros Hf Hrd. pose (p := _get_file_path self collection).
  destruct (read_all_ok self collection w Hf Hrd) as (w0 & Hr0 & _).
  destruct (create_read_ok collection w Hf Hrd) as (w1 & Hr1 & Hfp1 & Hio1 & _).
  destruct (create_read_ok collection w1 ltac:(lia)) as (w2 & Hr2 & Hfp2 & Hio2 & _).
  { by rewrite (readable_step _ _ _ Hfp1). }
  destruct (create_write_ok self collection ra (stored p w) w2 ltac:(lia))
    as (w3 & Hw3 & Hfiles3 & Hio3 & _).
  destruct (create_write_ok self collection rb (stored p w) w3 ltac:(lia))
    as (w4 & Hw4 & Hfiles4 & Hio4 & _).
  assert (files w4 !! p
          = Some (Document (JList (stored p w ++ [JDict (stamped rb w3 (ticks w3))]))))
    as Hp4 by (rewrite Hfiles4; apply lookup_insert_eq).
  destruct (read_all_ok self collection w4 ltac:(lia) (readable_document _ _ _ Hp4))
    as (w5 & Hr5 & _).
  exists (stored p w), (stored p w), (stored p w),
         (stamped ra w2 (ticks w2)), (stamped rb w3 (ticks w3)), w0, w1, w2, w3, w4, w5.
  split; [done|]. split; [done|].
  split. { rewrite Hr2. by rewrite (stored_step _ _ _ Hfp1). }
  split; [done|]. split; [done|].
  split; [|rewrite length_app; simpl; lia].
  rewrite Hr5. fold p. by rewrite (stored_document _ _ _ Hp4).
Qed.

End BackupClaims.

(** ** The calculators *)

Lemma open_read_calm path w :
  io_faults w = 0 →
  open_read path w = (match files w !! path with
                      | Some c => Ok c
                      | None => Raise FileNotFoundError
                      end, w).
Proof.
  intros Hf. unfold open_read, bind, open_file. rewrite Hf.
  by destruct (files w !! path).
Qed.

(** With no failure pending a lookup leaves the world as it is, whether it
    returns or raises. *)
Lemma find_by_id_calm self c i w :
  io_faults w = 0 → snd (find_by_id self c i w) = w.
Proof.
  intros Hf. unfold find_by_id, read_all, bind.
  rewrite read_with_lock_result by (rewrite Hf; unfold max_retries; lia).
  assert (set_io_faults (if path_exists (_get_file_path self c) w then 0 else io_faults w) w = w)
    as -> by (rewrite Hf; destruct (path_exists _ _); by rewrite <- Hf, set_io_faults_id).
  destruct (match files w !! _ with Some c0 => load_list c0 | None => Ok [] end)
    as [data|e]; [|done].
  unfold lift, ret. by destruct (locate i data 0).
Qed.

(** A record that [find_by_id] returns carries an id: it is not empty. *)
Lemma found_not_empty self c i w r w' :
  io_faults w = 0 → find_by_id self c i w = (Ok (Some r), w') → absent (Some r) = false.
Proof.
  intros Hf Hfind.
  destruct (find_by_id_inv self c i w _ _ ltac:(rewrite Hf; unfold max_retries; lia) Hfind)
    as (_ & loc & Hl & Hloc).
  destruct loc as [[k r0]|]; [|done]. simpl in Hloc. injection Hloc as ->.
  apply locate_found in Hl as (_ & _ & Hid).
  unfold absent, truthy. rewrite bool_decide_false; [done|].
  intros ->. unfold has_id, dict_get in Hid. by rewrite lookup_empty in Hid.
Qed.

Section CommissionFacts.
Context {runtime : Runtime}.
Variable self : commissions.CommissionCalculator.

Lemma load_json_or_calm path dflt w :
  io_faults w = 0 → readable path w = true →
  commissions.load_json_or path dflt w = (Ok (decoded w path dflt), w).
Proof.
  intros Hf Hrd. unfold commissions.load_json_or, try_except, bind, decoded.
  rewrite open_read_calm by done. unfold readable in Hrd.
  destruct (files w !! path) as [[| | |v]|]; done.
Qed.

(** A loader with a default does not catch the error of a file that is not
    text. *)
Lemma load_json_or_undecodable path dflt w :
  io_faults w = 0 → readable path w = false →
  commissions.load_json_or path dflt w = (Raise UnicodeDecodeError, w).
Proof.
  intros Hf Hrd. unfold commissions.load_json_or, try_except, bind.
  rewrite open_read_calm by done. unfold readable in Hrd.
  destruct (files w !! path) as [[| | |v]|]; done.
Qed.

Lemma check_rules_skip rules driver_id client_id d rest :
  Forall (other_pair driver_id client_id) rules →
  commissions.check_rules (rules ++ rest) driver_id client_id d
  = commissions.check_rules rest driver_id client_id d.
Proof.
  induction 1 as [|rule rules Hrule _ IH]; [done|].
  destruct Hrule as (r & -> & Hr).
  simpl. apply andb_false_iff in Hr.
  destruct (eq_str (dict_get r "driver_id") driver_id); simpl.
  - destruct Hr as [?| ->]; [done|]. simpl. apply IH.
  - apply IH.
Qed.

Lemma out_of_range_allowed bound skip :
  bound_allows bound (λ d, negb (skip d)) →
  commissions.out_of_range bound skip = Ok false.
Proof.
  unfold commissions.out_of_range.
  intros [->|(s & b & -> & Hs & Hok)]; [done|].
  destruct (truthy (JStr s)); [|done]. simpl. rewrite Hs.
  by apply negb_true_iff in Hok as ->.
Qed.

End CommissionFacts.

Section CommissionClaims.
Context {runtime : Runtime}.
Variable self : commissions.CommissionCalculator.

(** The run of [calculate_commission] in the scenario, once the outcome of
    the rule scan and of the tier chain are known. *)
Lemma calculate_commission_resolved D1 C1 od d driver client w rules rule_commission
    amount source rounded :
  on_file self D1 C1 driver client w →
  od ≠ "" → strptime_ymd od = Some d →
  rules_on_file self w = JList rules →
  commissions.check_rules rules D1 C1 d = Ok rule_commission →
  commissions.resolve rule_commission driver client
    (decoded w (path_join (commissions.data_dir self) "config.json")
       commissions.default_config) C1 = Ok (amount, source) →
  py_round3 amount = Ok rounded →
  ∃ res, commissions.calculate_commission self D1 C1 (Some od) w = (Ok res, w)
         ∧ res !! "success" = Some (JBool true)
         ∧ res !! "commission" = Some rounded
         ∧ res !! "source" = Some (JStr source).
Proof.
  intros (Hf & Hdriver & Hclient & Hcfg & Hrdr) Hod Hd Hrules Hcheck Hresolve Hround.
  pose proof (decoded_dict_readable _ _ _ Hcfg) as Hrdc.
  unfold commissions.calculate_commission.
  set (config := decoded w _ commissions.default_config) in *.
  destruct config as [| | | | | |cfg] eqn:Hconfig; try done.
  eexists. split.
  - apply try_ok.
    erewrite bind_ok by (unfold commissions.load_driver; apply try_ok, Hdriver).
    erewrite bind_ok by (unfold commissions.load_client; apply try_ok, Hclient).
    erewrite bind_ok by (unfold commissions.load_config; by apply load_json_or_calm).
    erewrite bind_ok by (unfold commissions.load_commission_rules; by apply load_json_or_calm).
    rewrite (found_not_empty _ _ _ _ _ _ Hf Hdriver).
    rewrite (found_not_empty _ _ _ _ _ _ Hf Hclient).
    replace (String.eqb od "") with false
      by (symmetry; by apply String.eqb_neq).
    rewrite (bind_ok (ret od) _ w od w eq_refl).
    fold (rules_on_file self w). rewrite Hrules.
    unfold commissions._check_commission_rules, parse_date. rewrite Hd. simpl iterate.
    cbv iota. rewrite Hcheck.
    rewrite (bind_ok (lift _) _ w rule_commission w eq_refl).
    fold config. rewrite Hconfig. simpl default. rewrite Hresolve.
    rewrite (bind_ok (lift _) _ w (amount, source) w eq_refl).
    unfold commissions.commission_success. simpl fst. simpl snd.
    rewrite Hround. unfold get_or. reflexivity.
  - split; [|split].
    + rewrite list_to_map_cons. by rewrite lookup_insert_eq.
    + rewrite !list_to_map_cons.
      rewrite lookup_insert_ne by done. by rewrite lookup_insert_eq.
    + rewrite !list_to_map_cons.
      rewrite !lookup_insert_ne by done. by rewrite lookup_insert_eq.
Qed.


End CommissionClaims.

(** ** The order of floats *)

Lemma SFcompare_antisym x y c :
  SFcompare x y = Some c → SFcompare y x = Some (CompOpp c).
Proof.
  destruct x as [sx|sx| |sx mx ex], y as [sy|sy| |sy my ey]; simpl; try done;
    try (intros [= <-]; by repeat case_match).
  intros [= <-]. f_equal.
  pose proof (Z.compare_antisym ex ey) as He.
  pose proof (Pos.compare_cont_antisym my mx Eq) as Hm. simpl in Hm.
  destruct sx, sy; try done; rewrite He; destruct (ex ?= ey)%Z; simpl; try done;
    rewrite <- Hm; by destruct (Pos.compare_cont Eq my mx).
Qed.

Lemma float_ltb_asym x y : (x <? y)%float = true → (y <? x)%float = false.
Proof.
  rewrite !ltb_spec. unfold SFltb.
  destruct (SFcompare (Prim2SF x) (Prim2SF y)) as [c|] eqn:Hc; [|done].
  rewrite (SFcompare_antisym _ _ _ Hc). by destruct c.
Qed.

Lemma float_ltb_irrefl x : (x <? x)%float = false.
Proof.
  destruct (x <? x)%float eqn:H; [|done].
  by rewrite (float_ltb_asym _ _ H) in H.
Qed.

(** What [min(value, balance)] returns: the balance when it is the smaller
    of the two, the value otherwise; neither of them is below it. *)
Lemma py_min_capped value balance :
  py_min value balance = (if (balance <? value)%float then balance else value)
  ∧ (value <? py_min value balance)%float = false
  ∧ (balance <? py_min value balance)%float = false.
Proof.
  unfold py_min. split; [done|]. destruct (balance <? value)%float eqn:H.
  - split; [by apply float_ltb_asym|apply float_ltb_irrefl].
  - split; [apply float_ltb_irrefl|done].
Qed.

Section PayrollClaims.
Context {runtime : Runtime}.
Variable self : payroll.PayrollCalculator.

(** One advance in fixed-amount mode: the deduction is the smaller of the
    deduction value and the remaining balance; when positive it is added to
    the running total and recorded, rounded, in the details. *)
Lemma advance_step_fixed driver driver_id year month total details (a : Dict)
    amount paid value w :
  py_float (dict_get_or a "amount" (JInt 0)) = Ok amount →
  py_float (dict_get_or a "paid_amount" (JInt 0)) = Ok paid →
  ((amount - paid) <=? 0)%float = false →
  eq_str (dict_get_or a "advance_deduction_mode" (JStr "fixed_amount")) "fixed_amount"
    = true →
  py_float (dict_get_or a "advance_deduction_value" (JInt 50)) = Ok value →
  (0 <? py_min value (amount - paid))%float = true →
  ∀ new_total, py_add total (JFloat (py_min value (amount - paid))) = Ok new_total →
  payroll.advance_step self driver driver_id year month (total, details) (JDict a) w
  = (Ok (new_total,
         details ++
         [JDict (payroll.advance_detail a (amount - paid)
                   (JFloat (round3 (py_min value (amount - paid))))
                   (dict_get_or a "advance_deduction_mode" (JStr "fixed_amount"))
                   value)]), w).
Proof.
  intros Ha Hp Hrem Hmode Hv Hpos new_total Hadd.
  unfold payroll.advance_step.
  rewrite Ha. rewrite (bind_ok (lift _) _ w amount w eq_refl).
  rewrite Hp. rewrite (bind_ok (lift _) _ w paid w eq_refl).
  rewrite Hrem. rewrite Hv. rewrite (bind_ok (lift _) _ w value w eq_refl).
  unfold payroll.deduction_amount_of. rewrite Hmode.
  rewrite (bind_ok (ret _) _ w _ w eq_refl).
  unfold payroll.gt_zero. rewrite Hpos.
  rewrite (bind_ok (lift _) _ w true w eq_refl).
  simpl fst. rewrite Hadd.
  rewrite (bind_ok (lift _) _ w new_total w eq_refl).
  reflexivity.
Qed.

Lemma load_config_calm w :
  io_faults w = 0 →
  readable (path_join (payroll.data_dir self) "config.json") w = true →
  payroll.load_config self w
  = (Ok (decoded w (path_join (payroll.data_dir self) "config.json")
           payroll.default_config), w).
Proof.
  intros Hf Hrd. unfold payroll.load_config, try_except, bind, decoded.
  rewrite open_read_calm by done. unfold readable in Hrd.
  destruct (files w !! _) as [[| | |v]|]; done.
Qed.

Lemma get_driver_advances_one driver_id year month driver advances (a : Dict) w
    total details rounded :
  io_faults w = 0 →
  find_by_id (payroll.json_store self) "drivers" driver_id w = (Ok (Some driver), w) →
  filter_records (payroll.json_store self) "advances" [("driver_id", JStr driver_id)] w
    = (Ok advances, w) →
  payroll.active_only advances = Ok [JDict a] →
  payroll.advance_step self driver driver_id year month (JInt 0, []) (JDict a) w
    = (Ok (total, details), w) →
  py_round3 total = Ok rounded →
  payroll.get_driver_advances self driver_id year month w
  = (Ok (list_to_map
           [("success", JBool true);
            ("driver_id", JStr driver_id);
            ("total_deduction", rounded);
            ("advance_count", JInt (Z.of_nat (length details)));
            ("advance_details", JList details)]), w).
Proof.
  intros Hf Hdriver Hfilter Hactive Hstep Hround.
  unfold payroll.get_driver_advances. apply try_ok.
  rewrite (bind_ok _ _ _ _ _ Hfilter).
  rewrite Hactive. rewrite (bind_ok (lift _) _ w _ w eq_refl).
  erewrite bind_ok by (unfold payroll.load_driver; apply try_ok, Hdriver).
  rewrite (found_not_empty _ _ _ _ _ _ Hf Hdriver).
  cbn [payroll.for_each default from_option id].
  rewrite (bind_ok _ _ _ _ _ (bind_ok _ _ _ _ _ Hstep)).
  cbn [fst snd]. rewrite Hround.
  by rewrite (bind_ok (lift _) _ w rounded w eq_refl).
Qed.

(** The payroll of a driver with one advance to deduct from, given what the
    step of that advance yields. *)
Lemma payroll_one_advance driver_id year month driver report advances (a : Dict)
    base commission deduction details w :
  io_faults w = 0 →
  find_by_id (payroll.json_store self) "drivers" driver_id w = (Ok (Some driver), w) →
  py_float (dict_get_or driver "base_salary" (JInt 0)) = Ok base →
  payroll.calculate_monthly_commission_total self driver_id year month w
    = (Ok report, w) →
  truthy (dict_get report "success") = true →
  dict_get_or report "total_commission" (JInt 0) = JFloat commission →
  filter_records (payroll.json_store self) "advances" [("driver_id", JStr driver_id)] w
    = (Ok advances, w) →
  payroll.active_only advances = Ok [JDict a] →
  payroll.advance_step self driver driver_id year month (JInt 0, []) (JDict a) w
    = (Ok (JFloat deduction, details), w) →
  is_dict (decoded w (path_join (payroll.data_dir self) "config.json")
             payroll.default_config) = true →
  ∃ res w', payroll.calculate_driver_payroll self driver_id year month w = (Ok res, w')
            ∧ res !! "success" = Some (JBool true)
            ∧ res !! "gross_salary" = Some (JFloat (round3 (base + commission)))
            ∧ res !! "advance_deduction" = Some (JFloat (round3 (round3 deduction)))
            ∧ res !! "net_salary"
              = Some (JFloat (round3 (base + commission - round3 deduction))).
Proof.
  intros Hf Hdriver Hbase Hreport Hsuccess Htotal Hfilter Hactive Hstep Hcfg.
  pose proof (decoded_dict_readable _ _ _ Hcfg) as Hrd.
  assert (∃ advance_result,
            payroll.get_driver_advances self driver_id year month w
            = (Ok advance_result, w)
            ∧ dict_get advance_result "success" = JBool true
            ∧ dict_get_or advance_result "total_deduction" (JInt 0)
              = JFloat (round3 deduction))
    as (advance_result & Hadvances & Hpassed & Hdeduction).
  { eexists. split.
    - by apply (get_driver_advances_one driver_id year month driver advances a w
                  (JFloat deduction) details (JFloat (round3 deduction))).
    - unfold dict_get, dict_get_or. rewrite !list_to_map_cons.
      split; [by rewrite lookup_insert_eq|].
      rewrite !lookup_insert_ne by done. by rewrite lookup_insert_eq. }
  set (config := decoded w _ payroll.default_config) in *.
  destruct config as [| | | | | |cfg] eqn:Hconfig; try done.
  do 2 eexists. split.
  - unfold payroll.calculate_driver_payroll. apply try_ok.
    erewrite bind_ok by (unfold payroll.load_driver; apply try_ok, Hdriver).
    rewrite (found_not_empty _ _ _ _ _ _ Hf Hdriver).
    cbn [default from_option id]. rewrite Hbase.
    rewrite (bind_ok (lift _) _ w _ w eq_refl).
    erewrite bind_ok by (unfold payroll.get_driver_commissions; apply try_ok, Hreport).
    rewrite Hsuccess. cbn [negb]. rewrite Htotal.
    rewrite (bind_ok _ _ _ _ _ Hadvances).
    rewrite Hpassed, Hdeduction. cbn [truthy negb].
    change (py_add (JFloat base) (JFloat commission))
      with (Ok (JFloat (base + commission))).
    rewrite (bind_ok (lift _) _ w _ w eq_refl).
    change (py_sub (JFloat (base + commission)) (JFloat (round3 deduction)))
      with (Ok (JFloat (base + commission - round3 deduction))).
    rewrite (bind_ok (lift _) _ w _ w eq_refl).
    rewrite (bind_ok _ _ _ _ _ (load_config_calm w Hf Hrd)). fold config.
    rewrite Hconfig. cbn [py_round3 get_or].
    do 5 rewrite (bind_ok (lift _) _ w _ w eq_refl).
    rewrite (bind_ok now _ _ _ _ (now_eq _)).
    reflexivity.
  - rewrite !list_to_map_cons.
    split; [by rewrite lookup_insert_eq|].
    split; [|split]; rewrite !lookup_insert_ne by done; by rewrite lookup_insert_eq.
Qed.

(** C6: the payroll of the scenario.  The driver has a base salary of
    300.000, the commission engine reports 45.750 for the month, and the one
    advance of the driver that is active or partial is active, has 100.000
    left to pay and is in fixed-amount mode.  With a deduction value of
    50.000 the payroll is: gross 345.750, deduction 50.000, net 295.750.
    With a deduction value above the balance the balance is deducted
    instead: deduction 100.000, net 245.750.  In general an advance in
    fixed-amount mode with a positive balance is deducted the smaller of its
    deduction value and its remaining balance (the balance when it is below
    the value, the value otherwise, so that the deduction exceeds neither),
    which is added to the running total and listed rounded to three
    places. *)
Theorem payroll_net_calculation (driver_id : string) (year month : Z)
    (driver advance report : Dict) (advances : list json) (amount paid : float)
    (w : world) :
  io_faults w = 0 →
  find_by_id (payroll.json_store self) "drivers" driver_id w = (Ok (Some driver), w) →
  py_float (dict_get_or driver "base_salary" (JInt 0)) = Ok 300%float →
  payroll.calculate_monthly_commission_total self driver_id year month w
    = (Ok report, w) →
  truthy (dict_get report "success") = true →
  dict_get_or report "total_commission" (JInt 0) = JFloat 45.75 →
  filter_records (payroll.json_store self) "advances" [("driver_id", JStr driver_id)] w
    = (Ok advances, w) →
  payroll.active_only advances = Ok [JDict advance] →
  dict_get advance "status" = JStr "active" →
  py_float (dict_get_or advance "amount" (JInt 0)) = Ok amount →
  py_float (dict_get_or advance "paid_amount" (JInt 0)) = Ok paid →
  (amount - paid)%float = 100%float →
  dict_get_or advance "advance_deduction_mode" (JStr "fixed_amount")
    = JStr "fixed_amount" →
  is_dict (decoded w (path_join (payroll.data_dir self) "config.json")
             payroll.default_config) = true →
  (py_float (dict_get_or advance "advance_deduction_value" (JInt 50)) = Ok 50%float →
   ∃ res w', payroll.calculate_driver_payroll self driver_id year month w = (Ok res, w')
             ∧ res !! "success" = Some (JBool true)
             ∧ res !! "gross_salary" = Some (JFloat 345.75)
             ∧ res !! "advance_deduction" = Some (JFloat 50)
             ∧ res !! "net_salary" = Some (JFloat 295.75))
  ∧ (∀ value,
       py_float (dict_get_or advance "advance_deduction_value" (JInt 50)) = Ok value →
       (100 <? value)%float = true →
       ∃ res w', payroll.calculate_driver_payroll self driver_id year month w = (Ok res, w')
                 ∧ res !! "success" = Some (JBool true)
                 ∧ res !! "gross_salary" = Some (JFloat 345.75)
                 ∧ res !! "advance_deduction" = Some (JFloat 100)
                 ∧ res !! "net_salary" = Some (JFloat 245.75))
  ∧ (∀ total details (a : Dict) due settled value w1,
       py_float (dict_get_or a "amount" (JInt 0)) = Ok due →
       py_float (dict_get_or a "paid_amount" (JInt 0)) = Ok settled →
       ((due - settled) <=? 0)%float = false →
       dict_get_or a "advance_deduction_mode" (JStr "fixed_amount")
         = JStr "fixed_amount" →
       py_float (dict_get_or a "advance_deduction_value" (JInt 50)) = Ok value →
       let balance := (due - settled)%float in
       let deduction := if (balance <? value)%float then balance else value in
       (0 <? deduction)%float = true →
       ∀ new_total, py_add total (JFloat deduction) = Ok new_total →
       (value <? deduction)%float = false
       ∧ (balance <? deduction)%float = false
       ∧ ∃ detail,
           payroll.advance_step self driver driver_id year month (total, details)
             (JDict a) w1 = (Ok (new_total, details ++ [JDict detail]), w1)
           ∧ detail !! "deduction_amount" = Some (JFloat (round3 deduction))).
Proof.
  intros Hf Hdriver Hbase Hreport Hsuccess Htotal Hfilter Hactive Hstatus
         Hamount Hpaid Hrem Hmode Hcfg.
  assert (∀ value deduction,
            py_float (dict_get_or advance "advance_deduction_value" (JInt 50)) = Ok value →
            py_min value 100 = deduction → (0 <? deduction)%float = true →
            ∃ res w',
              payroll.calculate_driver_payroll self driver_id year month w = (Ok res, w')
              ∧ res !! "success" = Some (JBool true)
              ∧ res !! "gross_salary" = Some (JFloat (round3 (300 + 45.75)))
              ∧ res !! "advance_deduction"
                = Some (JFloat (round3 (round3 (0 + deduction))))
              ∧ res !! "net_salary"
                = Some (JFloat (round3 (300 + 45.75 - round3 (0 + deduction)))))
    as Hscenario.
  { intros value deduction Hvalue Hmin Hpos.
    eapply (payroll_one_advance driver_id year month driver report advances advance);
      try done.
    rewrite (advance_step_fixed driver driver_id year month (JInt 0) [] advance
               amount paid value w Hamount Hpaid)
      with (new_total := JFloat (0 + deduction));
      rewrite ?Hrem, ?Hmode, ?Hmin; done. }
  split; [|split].
  - intros Hvalue.
    destruct (Hscenario 50%float 50%float Hvalue) as (res & w' & Hres & Hok & Hg & Hd & Hn);
      [reflexivity..|].
    exists res, w'. split; [exact Hres|]. split; [exact Hok|].
    split; [|split].
    + rewrite Hg. reflexivity.
    + rewrite Hd. reflexivity.
    + rewrite Hn. reflexivity.
  - intros value Hvalue Hcap.
    destruct (Hscenario value 100%float Hvalue)
      as (res & w' & Hres & Hok & Hg & Hd & Hn);
      [unfold py_min; by rewrite Hcap|reflexivity|].
    exists res, w'. split; [exact Hres|]. split; [exact Hok|].
    split; [|split].
    + rewrite Hg. reflexivity.
    + rewrite Hd. reflexivity.
    + rewrite Hn. reflexivity.
  - intros total details a due settled value w1 Ha Hp Hrem' Hmode' Hv balance deduction
           Hpos new_total Hadd.
    destruct (py_min_capped value balance) as (Hmin & Hvalue & Hbalance).
    fold deduction in Hmin. rewrite Hmin in Hvalue, Hbalance.
    split; [exact Hvalue|]. split; [exact Hbalance|].
    eexists. split.
    + apply (advance_step_fixed driver driver_id year month total details a
               due settled value w1); try done.
      by rewrite Hmode'.
    + unfold payroll.advance_detail. rewrite !list_to_map_cons.
      rewrite !lookup_insert_ne by done. by rewrite lookup_insert_eq.
Qed.

End PayrollClaims.

(** * Further properties of the locked file layer *)

Lemma substring_suffix a b : substring (String.length a) (String.length b) (a +:+ b) = b.
Proof.
  induction a as [|c a IH].
  - rewrite append_nil. change (String.length "") with 0.
    induction b as [|c b IHb]; [done|].
    change (String c (substring 0 (String.length b) b) = String c b). by rewrite IHb.
  - rewrite append_cons. exact IH.
Qed.

Lemma length_append a b : String.length (a +:+ b) = String.length a + String.length b.
Proof.
  induction a as [|c a IH]; [by rewrite append_nil|].
  rewrite append_cons. simpl. by rewrite IH.
Qed.

Lemma endswith_append a b : endswith (a +:+ b) b = true.
Proof.
  unfold endswith. rewrite length_append.
  replace (String.length a + String.length b - String.length b)
    with (String.length a) by lia.
  rewrite substring_suffix, String.eqb_refl.
  apply andb_true_iff. split; [apply Nat.leb_le; lia|done].
Qed.

Lemma set_io_faults_twice a b w : set_io_faults a (set_io_faults b w) = set_io_faults a w.
Proof. done. Qed.

Lemma calms_refl w : calms w w.
Proof. exists (io_faults w). split; [lia|]. by rewrite set_io_faults_id. Qed.

Lemma calms_trans w1 w2 w3 : calms w1 w2 → calms w2 w3 → calms w1 w3.
Proof.
  intros (a & Ha & ->) (b & Hb & ->). exists b. simpl in Hb. split; [lia|done].
Qed.

Lemma calms_files w w' : calms w w' → files w' = files w.
Proof. by intros (k & _ & ->). Qed.

Lemma calms_faults w w' : calms w w' → io_faults w' ≤ io_faults w.
Proof. by intros (k & Hk & ->). Qed.

Lemma open_read_calms path w :
  calms w (snd (open_read path w))
  ∧ ((∃ c, files w !! path = Some c ∧ io_faults w = 0 ∧ open_read path w = (Ok c, w))
     ∨ (∃ k, io_faults w = S k ∧ open_read path w = (Raise OSError, set_io_faults k w))
     ∨ (files w !! path = None ∧ io_faults w = 0
        ∧ open_read path w = (Raise FileNotFoundError, w))).
Proof.
  unfold open_read, bind, open_file.
  destruct (io_faults w) as [|k] eqn:Hf; simpl.
  - destruct (files w !! path) as [c|] eqn:Hc; simpl.
    + split; [apply calms_refl|]. left. by exists c.
    + split; [apply calms_refl|]. right. by right.
  - split; [exists k; split; [lia|done]|]. right. left. by exists k.
Qed.

Section FileLayer.
Variable self : JSONStore.

(** The retry loop of [_read_with_lock] when a fault is pending for every
    attempt that is left. *)
Lemma read_attempts_exhausted path : ∀ n a w,
  a + n = max_retries → 0 < n → n ≤ io_faults w → windows self = false →
  read_attempts self path (seq a n) w
    = (Raise OSError, set_io_faults (io_faults w - n) w).
Proof.
  induction n as [|n IH]; intros a w Han Hn Hf Hw; [lia|].
  destruct (io_faults w) as [|k] eqn:Hk; [lia|].
  cbn [seq read_attempts]. unfold try_except, bind at 1.
  rewrite (open_read_fault _ _ k Hk). cbn [is_oserror].
  destruct (Nat.ltb_spec a (max_retries - 1)) as [Ha|Ha].
  - rewrite IH; [|lia|unfold max_retries in *; lia|simpl; lia|done].
    simpl. by rewrite set_io_faults_twice.
  - rewrite Hw. unfold raise. do 2 f_equal.
    unfold max_retries in *. assert (n = 0) as -> by lia. simpl. f_equal. lia.
Qed.

(** On Windows a last attempt is made without the lock. *)
Lemma read_attempts_fallback path c : ∀ n a w,
  a + n = max_retries → 0 < n → n ≤ io_faults w → windows self = true →
  files w !! path = Some c →
  read_attempts self path (seq a n) w
    = if (io_faults w =? n)%nat then (load_list c, set_io_faults 0 w)
      else (Raise OSError, set_io_faults (io_faults w - S n) w).
Proof.
  induction n as [|n IH]; intros a w Han Hn Hf Hw Hc; [lia|].
  destruct (io_faults w) as [|k] eqn:Hk; [lia|].
  cbn [seq read_attempts]. unfold try_except, bind at 1.
  rewrite (open_read_fault _ _ k Hk). cbn [is_oserror].
  destruct (Nat.ltb_spec a (max_retries - 1)) as [Ha|Ha].
  - rewrite IH; [|lia|unfold max_retries in *; lia|simpl; lia|done|done].
    simpl. rewrite !set_io_faults_twice.
    replace (k - S n) with (S k - S (S n)) by lia.
    by destruct (Nat.eqb_spec k n).
  - rewrite Hw. unfold max_retries in *. assert (n = 0) as -> by lia.
    destruct k as [|k]; simpl.
    + unfold bind. rewrite (open_read_ready path (set_io_faults 0 w) c) by done.
      done.
    + unfold bind. rewrite (open_read_fault path (set_io_faults (S k) w) k) by done.
      rewrite set_io_faults_twice. do 3 f_equal. lia.
Qed.

End FileLayer.

Section FileLayerRetries.
Variable self : JSONStore.

Lemma write_once_ready path data w :
  io_faults w = 0 →
  bind (open_write path) (λ _, bind (json_dump path (JList data)) (λ _, ret true)) w
    = (Ok true, written path data w).
Proof.
  intros Hf. rewrite (bind_ok _ _ _ _ _ (open_write_ready _ _ Hf)).
  unfold bind, json_dump, ret, written, set_files, set_io_faults. simpl.
  by rewrite insert_insert_eq, Hf.
Qed.

Lemma write_once_fault path data w k :
  io_faults w = S k →
  bind (open_write path) (λ _, bind (json_dump path (JList data)) (λ _, ret true)) w
    = (Raise OSError, set_io_faults k w).
Proof. intros Hf. by rewrite (bind_raise _ _ _ _ _ (open_write_fault _ _ k Hf)). Qed.

Lemma write_attempts_exhausted path data : ∀ n a w,
  a + n = max_retries → 0 < n → n ≤ io_faults w →
  write_attempts self path data (seq a n) w
    = if windows self && (io_faults w =? n)%nat then (Ok true, written path data w)
      else (Raise OSError,
            set_io_faults (io_faults w - (if windows self then S n else n)) w).
Proof.
  induction n as [|n IH]; intros a w Han Hn Hf; [lia|].
  destruct (io_faults w) as [|k] eqn:Hk; [lia|].
  cbn [seq write_attempts].
  rewrite (try_raise _ _ _ _ _ (write_once_fault path data w k Hk)). cbn [is_oserror].
  destruct (Nat.ltb_spec a (max_retries - 1)) as [Ha|Ha].
  - rewrite IH; [|lia|unfold max_retries in *; lia|simpl; lia].
    simpl io_faults. rewrite !set_io_faults_twice.
    replace (S k =? S n)%nat with (k =? n)%nat by done.
    destruct (windows self); simpl.
    + destruct (Nat.eqb_spec k n); [done|]. do 3 f_equal.
    + do 3 f_equal.
  - unfold max_retries in *. assert (n = 0) as -> by lia.
    destruct (windows self); simpl.
    + destruct k as [|k]; cbn [Nat.eqb andb].
      * unfold bind at 1, try_except.
        rewrite (write_once_ready path data (set_io_faults 0 w) eq_refl). done.
      * unfold bind at 1, try_except.
        rewrite (write_once_fault path data (set_io_faults (S k) w) k eq_refl).
        unfold ret, raise. rewrite set_io_faults_twice. do 3 f_equal. lia.
    + unfold raise. do 3 f_equal. lia.
Qed.

(** X1: [_read_with_lock] on a file that exists: up to four failures of [open]
    are retried; with five or more the error of the fifth attempt is raised,
    except that on Windows one more attempt is made without the lock.  An
    attempt that opens the file ends the loop with what the load gives: the
    list, the empty list for a document that is no list and for text that
    is not JSON, and, raised at once without another attempt, the
    [UnicodeDecodeError] of a file that is not text. *)
Theorem read_with_lock_retries (file_path : string) (c : file_content) (w : world) :
  files w !! file_path = Some c →
  _read_with_lock self file_path w =
    if (io_faults w <? max_retries)%nat then (load_list c, set_io_faults 0 w)
    else if windows self then
      if (io_faults w =? max_retries)%nat then (load_list c, set_io_faults 0 w)
      else (Raise OSError, set_io_faults (io_faults w - S max_retries) w)
    else (Raise OSError, set_io_faults (io_faults w - max_retries) w).
Proof.
  intros Hc. unfold _read_with_lock, path_exists.
  rewrite Hc, bool_decide_true by eauto.
  destruct (Nat.ltb_spec (io_faults w) max_retries) as [Hf|Hf].
  - by apply (read_attempts_ok self file_path c (io_faults w));
      unfold max_retries in *; try lia.
  - destruct (windows self) eqn:Hw.
    + apply read_attempts_fallback; unfold max_retries in *; try done; lia.
    + apply read_attempts_exhausted; unfold max_retries in *; try done; lia.
Qed.

(** The loop with [json_dump] for the library calls is the loop of the
    store. *)
Lemma write_attempts_with_json_dump path data attempts : ∀ w,
  write_attempts_with self json_dump path data attempts w
  = write_attempts self path data attempts w.
Proof.
  induction attempts as [|a rest IH]; intros w; [done|].
  cbn [write_attempts_with write_attempts]. unfold try_except.
  destruct (bind (open_write path) _ w) as [[ok|e] w1]; [done|].
  destruct (is_oserror e); [|done].
  destruct (a <? max_retries - 1)%nat; [apply IH|done].
Qed.

(** Whatever the dump does, the loop returns true or raises: the [return
    False] after it is never reached. *)
Lemma write_attempts_with_true dump path data : ∀ attempts w b w',
  attempts ≠ [] → last attempts = Some (max_retries - 1) →
  write_attempts_with self dump path data attempts w = (Ok b, w') → b = true.
Proof.
  induction attempts as [|a rest IH]; intros w b w' Hne Hlast; [done|].
  cbn [write_attempts_with]. unfold try_except.
  destruct (bind (open_write path) _ w) as [[ok|e] w1] eqn:Hw.
  - intros [= <- _]. revert Hw. unfold bind.
    destruct (open_write path w) as [[[]|?] ?]; [|done].
    destruct (dump path (JList data) w0) as [[[]|?] ?]; [|done].
    unfold ret. by intros [= <- _].
  - destruct (is_oserror e); [|done].
    destruct (Nat.ltb_spec a (max_retries - 1)) as [Ha|Ha].
    + destruct rest as [|a' rest'].
      { simpl in Hlast. injection Hlast as ->. unfold max_retries in Ha. lia. }
      by apply IH.
    + destruct (windows self); [|done].
      unfold bind at 1, try_except.
      destruct (bind (open_write path) _ w1) as [[ok|e'] w2].
      * destruct ok; [by intros [= <- _]|done].
      * unfold ret. done.
Qed.

(** An error of the dump that is not an I/O error ends the loop at once. *)
Lemma write_attempts_with_error dump path data a rest w e w1 :
  io_faults w = 0 →
  dump path (JList data) (set_files (<[path := Empty]> (files w)) w) = (Raise e, w1) →
  is_oserror e = false →
  write_attempts_with self dump path data (a :: rest) w = (Raise e, w1).
Proof.
  intros Hf Hdump He. cbn [write_attempts_with].
  erewrite try_raise; [by rewrite He|].
  rewrite (bind_ok _ _ _ _ _ (open_write_ready path w Hf)).
  by rewrite (bind_raise _ _ _ _ _ Hdump).
Qed.

(** X2: [_write_with_lock] and what can fail in it.  A file that cannot be
    opened: with fewer than five failures of [open] pending the failed
    attempts are retried, the array is written and the result is true; with
    five or more the error of the last attempt is raised, and no file has
    been opened, so that none has changed (on Windows one more attempt is
    made without the lock first).  A document that cannot be written: the
    file has been truncated by then, and an error of [json.dump] that is
    not an I/O error is raised at once, without another attempt, with the
    file as the failed dump left it; the write is not atomic.  Whatever
    fails, the result is never false. *)
Theorem write_with_lock_retries (file_path : string) (data : list json) (w : world) :
  _write_with_lock self file_path data w
  = (if (io_faults w <? max_retries)%nat
        || windows self && (io_faults w =? max_retries)%nat
     then (Ok true, written file_path data w)
     else (Raise OSError,
           set_io_faults
             (io_faults w - (if windows self then S max_retries else max_retries)) w))
  ∧ _write_with_lock_with self json_dump file_path data w
    = _write_with_lock self file_path data w
  ∧ ∀ dump,
      (∀ b w', _write_with_lock_with self dump file_path data w = (Ok b, w') →
               b = true)
      ∧ (∀ e w1,
           io_faults w = 0 →
           dump file_path (JList data)
             (set_files (<[file_path := Empty]> (files w)) w) = (Raise e, w1) →
           is_oserror e = false →
           _write_with_lock_with self dump file_path data w = (Raise e, w1)).
Proof.
  split; [|split; [apply write_attempts_with_json_dump|]].
  - unfold _write_with_lock.
    destruct (Nat.ltb_spec (io_faults w) max_retries) as [Hf|Hf]; cbn [orb].
    + by apply (write_attempts_ok self file_path data (io_faults w));
        unfold max_retries in *; try lia.
    + rewrite write_attempts_exhausted by (unfold max_retries in *; lia). done.
  - intros dump. split.
    + intros b w'. by apply write_attempts_with_true.
    + intros e w1 Hf Hdump He. by apply write_attempts_with_error.
Qed.

End FileLayerRetries.

(** * Further properties of the record store *)

Lemma snd_bind_pure {A B} (c : M A) (k : A → M B) w :
  (∀ a w', snd (k a w') = w') → snd (bind c k w) = snd (c w).
Proof. intros Hk. unfold bind. destruct (c w) as [[a|e] w']; [apply Hk|done]. Qed.

Section Reads.
Variable self : JSONStore.

Lemma read_attempts_calms path attempts : ∀ w,
  calms w (snd (read_attempts self path attempts w)).
Proof.
  induction attempts as [|a rest IH]; intros w; [apply calms_refl|].
  cbn [read_attempts]. unfold try_except, bind at 1.
  destruct (open_read_calms path w)
    as (Hcalm & [(c & _ & _ & Ho)|[(k & _ & Ho)|(_ & _ & Ho)]]);
    rewrite Ho in *; simpl in *.
  { unfold lift. destruct (load_list c) as [data|e] eqn:Hl; [done|].
    by rewrite (load_list_raises _ _ Hl). }
  all: destruct (a <? _)%nat; [eapply calms_trans; [done|apply IH]|].
  all: destruct (windows self); [|done]; unfold bind.
  all: match goal with |- context [open_read ?p ?w1] =>
         destruct (open_read_calms p w1) as (Hcalm2 & _);
         destruct (open_read p w1) as [[c|e] w2]; simpl in *;
         (eapply calms_trans; [exact Hcalm|exact Hcalm2])
       end.
Qed.

Lemma read_with_lock_calms path w : calms w (snd (_read_with_lock self path w)).
Proof.
  unfold _read_with_lock.
  destruct (path_exists path w); [apply read_attempts_calms|apply calms_refl].
Qed.

(** X3: The reading operations change no file, take no clock reading and draw
    no random number: all they can do to the world is to use up pending
    failures of [open]. *)
Theorem reads_change_nothing (collection record_id : string)
    (filters : list (string * json)) (w : world) :
  calms w (snd (read_all self collection w))
  ∧ calms w (snd (find_by_id self collection record_id w))
  ∧ calms w (snd (filter_records self collection filters w))
  ∧ calms w (snd (count self collection filters w)).
Proof.
  assert (calms w (snd (read_all self collection w))) as Hr
    by apply read_with_lock_calms.
  assert (calms w (snd (filter_records self collection filters w))) as Hfr.
  { unfold filter_records. by rewrite snd_bind_pure. }
  split; [done|]. split; [|split; [done|]].
  - unfold find_by_id. rewrite snd_bind_pure; [done|].
    intros data w'. unfold bind, lift, ret. by destruct (locate _ _ _).
  - unfold count. destruct filters as [|f filters].
    + by rewrite snd_bind_pure.
    + by rewrite snd_bind_pure.
Qed.

(** X4: A collection whose file does not exist yet reads as empty, and looking
    up, updating or deleting in it finds nothing and creates no file: the
    world is left exactly as it was, whatever failures are pending. *)
Theorem missing_collection_is_empty (collection record_id : string)
    (updates : Dict) (filters : list (string * json)) (w : world) :
  files w !! _get_file_path self collection = None →
  read_all self collection w = (Ok [], w)
  ∧ find_by_id self collection record_id w = (Ok None, w)
  ∧ filter_records self collection filters w = (Ok [], w)
  ∧ count self collection filters w = (Ok 0, w)
  ∧ update self collection record_id updates w = (Ok None, w)
  ∧ delete self collection record_id w = (Ok false, w).
Proof.
  intros Hp.
  assert (_read_with_lock self (_get_file_path self collection) w = (Ok [], w)) as Hr.
  { unfold _read_with_lock, path_exists.
    by rewrite Hp, bool_decide_false by (by intros [? ?]). }
  assert (filter_records self collection filters w = (Ok [], w)) as Hfr.
  { unfold filter_records, read_all. by rewrite (bind_ok _ _ _ _ _ Hr). }
  split; [done|]. split; [|split; [done|split; [|split]]].
  - unfold find_by_id, read_all. by rewrite (bind_ok _ _ _ _ _ Hr).
  - unfold count, read_all. destruct filters.
    + by rewrite (bind_ok _ _ _ _ _ Hr).
    + by rewrite (bind_ok _ _ _ _ _ Hfr).
  - unfold update. rewrite (bind_ok _ _ _ _ _ (backup_missing self _ w Hp)).
    by rewrite (bind_ok _ _ _ _ _ Hr).
  - unfold delete. rewrite (bind_ok _ _ _ _ _ (backup_missing self _ w Hp)).
    by rewrite (bind_ok _ _ _ _ _ Hr).
Qed.

End Reads.

Lemma eq_str_spec v s : eq_str v s = true ↔ v = JStr s.
Proof.
  destruct v; simpl; try (split; discriminate).
  rewrite String.eqb_eq. split; [by intros ->|by intros [= ->]].
Qed.

Lemma eq_str_false v s : eq_str v s = false ↔ v ≠ JStr s.
Proof. rewrite <- eq_str_spec. by destruct (eq_str v s). Qed.

Lemma locate_before record_id data : ∀ n k r,
  locate record_id data n = Ok (Some (k, r)) →
  ∀ j d, j < k - n → data !! j = Some (JDict d) → dict_get d "id" ≠ JStr record_id.
Proof.
  induction data as [|v data IH]; intros n k r; simpl; [done|].
  destruct v; try done.
  destruct (eq_str (dict_get d "id") record_id) eqn:Hid.
  - intros [= <- _] j d' Hj. lia.
  - intros H j d' Hj Hd. destruct j as [|j]; simpl in Hd.
    + injection Hd as <-. by apply eq_str_false.
    + apply (IH _ _ _ H j d'); [|done].
      apply locate_found in H as (Hle & _). lia.
Qed.

Lemma locate_raise record_id data : ∀ n e,
  locate record_id data n = Raise e →
  e = AttributeError
  ∧ ∃ k v, data !! k = Some v ∧ is_dict v = false
           ∧ ∀ j d, j < k → data !! j = Some (JDict d) →
                    dict_get d "id" ≠ JStr record_id.
Proof.
  induction data as [|v data IH]; intros n e; simpl; [done|].
  destruct v; try (intros [= <-]; split; [done|]; eexists 0, _;
                   split; [done|split; [done|intros; lia]]).
  destruct (eq_str (dict_get d "id") record_id) eqn:Hid; [done|].
  intros H. destruct (IH _ _ H) as (-> & k & v & Hk & Hv & Hbefore).
  split; [done|]. exists (S k), v. split; [done|]. split; [done|].
  intros j d' Hj Hd. destruct j as [|j]; simpl in Hd.
  - injection Hd as <-. by apply eq_str_false.
  - apply (Hbefore j d'); [lia|done].
Qed.

Lemma locate_app_found record_id data more : ∀ n found,
  locate record_id data n = Ok (Some found) →
  locate record_id (data ++ more) n = Ok (Some found).
Proof.
  induction data as [|v data IH]; intros n found; simpl; [done|].
  destruct v; try done.
  destruct (eq_str (dict_get d "id") record_id); [done|]. apply IH.
Qed.

Section Records.
Variable self : JSONStore.

(** X5: [find_by_id] returns the first record of the array that carries the id;
    it returns [None] only when every element is a record with another id;
    and when it raises, an element that is not a record stands before any
    record with the id. *)
Theorem find_by_id_first_match (collection record_id : string) (w w0 : world)
    (data : list json) :
  io_faults w < max_retries →
  read_all self collection w = (Ok data, w0) →
  (∀ r w1, find_by_id self collection record_id w = (Ok (Some r), w1) →
     dict_get r "id" = JStr record_id
     ∧ ∃ k, data !! k = Some (JDict r)
            ∧ ∀ j d, j < k → data !! j = Some (JDict d) →
                     dict_get d "id" ≠ JStr record_id)
  ∧ (∀ w1, find_by_id self collection record_id w = (Ok None, w1) →
       ∀ v, v ∈ data → ∃ d, v = JDict d ∧ dict_get d "id" ≠ JStr record_id)
  ∧ (∀ e w1, find_by_id self collection record_id w = (Raise e, w1) →
       e = AttributeError
       ∧ ∃ k v, data !! k = Some v ∧ is_dict v = false
                ∧ ∀ j d, j < k → data !! j = Some (JDict d) →
                         dict_get d "id" ≠ JStr record_id).
Proof.
  intros Hf Hr. unfold find_by_id. rewrite (bind_ok _ _ _ _ _ Hr).
  unfold bind, lift, ret.
  destruct (locate record_id data 0) as [[[k r]|]|e] eqn:Hl; simpl.
  - split; [|split; [done|done]]. intros ? ? [= <- _].
    pose proof (locate_before _ _ _ _ _ Hl) as Hbefore.
    apply locate_found in Hl as (_ & Hk & Hid). rewrite Nat.sub_0_r in *.
    split; [by apply eq_str_spec|]. by exists k.
  - split; [done|]. split; [|done]. intros ? _ v Hv.
    apply locate_none in Hl. rewrite forallb_forall in Hl.
    apply list_elem_of_In, Hl in Hv. apply andb_true_iff in Hv as [Hd Hid].
    destruct v; try done. exists d. split; [done|].
    apply eq_str_false. by apply negb_true_iff in Hid.
  - split; [done|]. split; [done|]. intros ? ? [= <- _].
    by apply locate_raise in Hl.
Qed.

(** X6: [create] appends: the array read afterwards is the former array followed
    by the returned record, so that the count grows by one.  An id that the
    caller supplies is kept, every other field of the caller is kept, and
    both stamps come from the clock, whatever stamps the caller supplied. *)
Theorem create_appends (collection : string) (record : Dict) (w w0 : world)
    (old : list json) :
  io_faults w < max_retries →
  read_all self collection w = (Ok old, w0) →
  ∃ s w' k,
    create self collection record w = (Ok s, w')
    ∧ (∃ w'', read_all self collection w' = (Ok (old ++ [JDict s]), w''))
    ∧ (∃ w'', count self collection [] w' = (Ok (S (length old)), w''))
    ∧ (∀ v, record !! "id" = Some v → s !! "id" = Some v)
    ∧ (∀ key, key ≠ "id" → key ≠ "created_at" → key ≠ "updated_at" →
              s !! key = record !! key)
    ∧ s !! "created_at" = Some (JStr (isoformat (clock w k)))
    ∧ s !! "updated_at" = Some (JStr (isoformat (clock w (S k)))).
Proof.
  intros Hf Hr.
  destruct (read_all_inv self _ _ _ _ Hf Hr) as [Hrd ->].
  destruct (create_ok self collection record w Hf Hrd) as (w' & Hc & Hfiles & Hio).
  set (p := _get_file_path self collection) in *.
  set (k := if path_exists p w then S (ticks w) else ticks w) in *.
  destruct (read_all_ok self collection w' ltac:(lia) (readable_document _ _ _ Hfiles))
    as (w'' & Hr2 & _).
  assert (stored p w' = stored p w ++ [JDict (stamped record w k)]) as Hst
    by apply (stored_document _ _ _ Hfiles).
  fold p in Hr2. rewrite Hst in Hr2.
  exists (stamped record w k), w', k. split; [done|].
  split; [by exists w''|]. split.
  { exists w''. unfold count. rewrite (bind_ok _ _ _ _ _ Hr2). unfold ret.
    by rewrite length_app, Nat.add_1_r. }
  unfold stamped, with_id. split; [|split; [|split]].
  - intros v Hv. by rewrite Hv, !lookup_insert_ne.
  - intros key H1 H2 H3. rewrite !lookup_insert_ne by done.
    destruct (record !! "id"); [done|]. by rewrite lookup_insert_ne.
  - by rewrite lookup_insert_ne, lookup_insert_eq.
  - by rewrite lookup_insert_eq.
Qed.

(** X7: [create] does not look for the id among the stored records: a record
    created under an id that is already stored is appended all the same, and
    [find_by_id] keeps returning the older record. *)
Theorem create_keeps_older_record (collection record_id : string) (record r : Dict)
    (w w0 : world) :
  io_faults w < max_retries →
  record !! "id" = Some (JStr record_id) →
  find_by_id self collection record_id w = (Ok (Some r), w0) →
  ∃ s w' w'',
    create self collection record w = (Ok s, w')
    ∧ s !! "id" = Some (JStr record_id)
    ∧ find_by_id self collection record_id w' = (Ok (Some r), w'').
Proof.
  intros Hf Hid Hfind.
  destruct (find_by_id_inv self _ _ _ _ _ Hf Hfind) as (Hrd & loc & Hl & Hloc).
  destruct loc as [[k0 r0]|]; [|done]. simpl in Hloc. injection Hloc as ->.
  destruct (create_ok self collection record w Hf Hrd) as (w' & Hc & Hfiles & Hio).
  set (p := _get_file_path self collection) in *.
  set (k := if path_exists p w then S (ticks w) else ticks w) in *.
  destruct (find_by_id_ok self collection record_id w' (Some (k0, r0)) ltac:(lia)
              (readable_document _ _ _ Hfiles))
    as (w'' & Hfi & _).
  { fold p. rewrite (stored_document _ _ _ Hfiles). by apply locate_app_found. }
  exists (stamped record w k), w', w''. split; [done|]. split; [|done].
  unfold stamped, with_id. by rewrite Hid, !lookup_insert_ne.
Qed.

End Records.

(** * Which files a request can touch *)

Lemma confined_weaken {A} (own own' : string → Prop) (c : M A) :
  (∀ path, own path → own' path) → confined own c → confined own' c.
Proof. intros Hsub Hc w path Hp. apply Hc. intros H. by apply Hp, Hsub. Qed.

Lemma confined_quiet {A} own (c : M A) :
  (∀ w, files (snd (c w)) = files w) → confined own c.
Proof. intros Hc w path _. by rewrite Hc. Qed.

Lemma confined_ret {A} own (a : A) : confined own (ret a).
Proof. by apply confined_quiet. Qed.

Lemma confined_raise {A} own e : confined own (@raise A e).
Proof. by apply confined_quiet. Qed.

Lemma confined_lift {A} own (r : result A) : confined own (lift r).
Proof. by apply confined_quiet. Qed.

Lemma confined_bind {A B} own (c : M A) (k : A → M B) :
  confined own c → (∀ a, confined own (k a)) → confined own (bind c k).
Proof.
  intros Hc Hk w path Hp. specialize (Hc w path Hp). unfold bind.
  destruct (c w) as [[a|e] w1]; simpl in *; [|done].
  by rewrite (Hk a w1 path Hp).
Qed.

Lemma confined_try {A} own (c : M A) h :
  confined own c → (∀ e, confined own (h e)) → confined own (try_except c h).
Proof.
  intros Hc Hh w path Hp. specialize (Hc w path Hp). unfold try_except.
  destruct (c w) as [[a|e] w1]; simpl in *; [done|].
  by rewrite (Hh e w1 path Hp).
Qed.

Lemma confined_now own : confined own now.
Proof. by apply confined_quiet. Qed.

Lemma confined_uuid4 own : confined own uuid4.
Proof. by apply confined_quiet. Qed.

Section Confinement.
Variable self : JSONStore.

Lemma confined_read_with_lock own path : confined own (_read_with_lock self path).
Proof.
  apply confined_quiet. intros w. apply calms_files, read_with_lock_calms.
Qed.

Lemma confined_open_write p : confined (eq p) (open_write p).
Proof.
  intros w path Hp. unfold open_write, bind, open_file.
  destruct (io_faults w); simpl; [|done].
  rewrite lookup_insert_ne; [done|]. intros Heq. by apply Hp.
Qed.

Lemma confined_json_dump p v : confined (eq p) (json_dump p v).
Proof.
  intros w path Hp. simpl. rewrite lookup_insert_ne; [done|]. intros Heq. by apply Hp.
Qed.

Lemma confined_write_once p data :
  confined (eq p)
    (bind (open_write p) (λ _, bind (json_dump p (JList data)) (λ _, ret true))).
Proof.
  apply confined_bind; [apply confined_open_write|]. intros _.
  apply confined_bind; [apply confined_json_dump|]. intros _. apply confined_ret.
Qed.

Lemma confined_write_attempts p data attempts :
  confined (eq p) (write_attempts self p data attempts).
Proof.
  induction attempts as [|a rest IH]; cbn [write_attempts]; [apply confined_ret|].
  apply confined_try; [apply confined_write_once|]. intros e.
  destruct (is_oserror e); [|apply confined_raise].
  destruct (a <? max_retries - 1)%nat; [done|].
  destruct (windows self); [|apply confined_raise].
  apply confined_bind.
  - apply confined_try; [apply confined_write_once|]. intros _. apply confined_ret.
  - intros []; [apply confined_ret|apply confined_raise].
Qed.

Lemma confined_write_with_lock p data : confined (eq p) (_write_with_lock self p data).
Proof. apply confined_write_attempts. Qed.

Lemma confined_backup p : confined (own_files self p) (_create_daily_backup self p).
Proof.
  intros w path Hown. destruct (files w !! p) as [c|] eqn:Hp.
  - destruct (files w !! snapshot_path self p (clock w (ticks w))) as [c'|] eqn:Hb.
    + by rewrite backup_present by eauto.
    + destruct (io_faults w) as [|k] eqn:Hf.
      * rewrite (backup_copy self p w c) by done. simpl.
        rewrite lookup_insert_ne; [done|]. intros Heq. apply Hown. right. eauto.
      * by rewrite (backup_fault self p w c k) by done.
  - by rewrite backup_missing by done.
Qed.

Lemma endswith_path_join a b : endswith (path_join a b) b = true.
Proof.
  unfold path_join. destruct (startswith b "/").
  - rewrite <- (append_nil b) at 1. apply endswith_append.
  - destruct (_ || _); [apply endswith_append|].
    rewrite <- append_assoc. apply endswith_append.
Qed.

(** A snapshot bears the name of the file it was taken of. *)
Lemma snapshot_basename p d :
  endswith (snapshot_path self p d) (basename p) = true.
Proof. apply endswith_path_join. Qed.

(** Every request is the snapshot call followed by a computation that
    writes to the collection file only. *)
Lemma serve_after_backup q :
  ∃ tail : M unit,
    (∀ w, serve self q w
          = snd (bind (_create_daily_backup self (request_file self q)) (λ _, tail) w))
    ∧ confined (eq (request_file self q)) tail.
Proof.
  destruct q as [c r|c i u|c i]; unfold request_file; set (p := _get_file_path self c).
  - exists (bind (_read_with_lock self p)
              (λ data, bind (create_write self c r data) (λ _, ret tt))).
    split.
    + intros w. simpl. unfold create, create_read. fold p. unfold bind.
      destruct (_create_daily_backup self p w) as [[b|?] w1]; [|done].
      destruct (_read_with_lock self p w1) as [[data|?] w2]; [|done].
      by destruct (create_write self c r data w2) as [[?|?] ?].
    + apply confined_bind; [apply confined_read_with_lock|]. intros data.
      apply confined_bind; [|intros; apply confined_ret].
      unfold create_write. fold p. apply confined_bind.
      { destruct (r !! "id"); [apply confined_ret|].
        apply confined_bind; [apply confined_uuid4|intros; apply confined_ret]. }
      intros r'. apply confined_bind; [apply confined_now|]. intros t1.
      apply confined_bind; [apply confined_now|]. intros t2.
      apply confined_bind; [apply confined_write_with_lock|].
      intros []; [apply confined_ret|apply confined_raise].
  - exists (bind (_read_with_lock self p)
              (λ data, bind (lift (locate i data 0))
                 (λ found, match found with
                           | Some (k, r) =>
                               bind now (λ t,
                                 bind (_write_with_lock self p
                                         (<[k := JDict (<["updated_at" := JStr (isoformat t)]>
                                                          (u ∪ r))]> data))
                                   (λ _, ret tt))
                           | None => ret tt
                           end))).
    split.
    + intros w. simpl. unfold update. fold p. unfold bind, lift, ret.
      destruct (_create_daily_backup self p w) as [[b|?] w1]; [|done].
      destruct (_read_with_lock self p w1) as [[data|?] w2]; [|done].
      destruct (locate i data 0) as [[[k r]|]|?]; try done.
      destruct (now w2) as [[t|?] w3]; [|done].
      destruct (_write_with_lock self p _ w3) as [[[]|?] ?]; done.
    + apply confined_bind; [apply confined_read_with_lock|]. intros data.
      apply confined_bind; [apply confined_lift|]. intros [[k r]|]; [|apply confined_ret].
      apply confined_bind; [apply confined_now|]. intros t.
      apply confined_bind; [apply confined_write_with_lock|].
      intros; apply confined_ret.
  - exists (bind (_read_with_lock self p)
              (λ data, bind (lift (without i data))
                 (λ kept, if (length kept <? length data)%nat
                          then bind (_write_with_lock self p kept) (λ _, ret tt)
                          else ret tt))).
    split.
    + intros w. simpl. unfold delete. fold p. unfold bind, lift, ret.
      destruct (_create_daily_backup self p w) as [[b|?] w1]; [|done].
      destruct (_read_with_lock self p w1) as [[data|?] w2]; [|done].
      destruct (without i data) as [kept|?]; [|done].
      destruct (_ <? _)%nat; [|done].
      by destruct (_write_with_lock self p kept w2) as [[?|?] ?].
    + apply confined_bind; [apply confined_read_with_lock|]. intros data.
      apply confined_bind; [apply confined_lift|]. intros kept.
      destruct (_ <? _)%nat; [|apply confined_ret].
      apply confined_bind; [apply confined_write_with_lock|].
      intros; apply confined_ret.
Qed.

(** X8: A create, update or delete request changes no file but the file of its
    collection and the snapshots of that file, whether it succeeds or
    raises; so does any sequence of requests for the files that none of
    them owns. *)
Theorem requests_touch_only_their_files (requests : list request) (path : string)
    (w : world) :
  (∀ q, q ∈ requests → ¬ own_files self (request_file self q) path) →
  files (run self requests w) !! path = files w !! path.
Proof.
  revert w. induction requests as [|q rest IH]; intros w Hown; simpl; [done|].
  rewrite IH by (intros q' Hq'; apply Hown; by right).
  destruct (serve_after_backup q) as (tail & -> & Htail).
  apply (confined_bind (own_files self (request_file self q))).
  - apply confined_backup.
  - intros _. eapply confined_weaken; [|done]. intros ? <-. by left.
  - apply Hown. by left.
Qed.

(** X9: The snapshot precedes the write: when a request is the first of the day
    to find its collection file, what the snapshot holds afterwards is the
    content that the file had before the request. *)
Theorem snapshot_holds_previous_content (q : request) (w : world) (c : file_content) :
  let p := request_file self q in
  let snapshot := snapshot_path self p (clock w (ticks w)) in
  files w !! p = Some c → files w !! snapshot = None → io_faults w = 0 →
  files (serve self q w) !! snapshot = Some c.
Proof.
  intros p snapshot Hp Hb Hf. subst snapshot.
  destruct (serve_after_backup q) as (tail & -> & Htail). fold p in Htail |- *.
  erewrite bind_ok by (by apply (backup_copy self p w c)).
  rewrite Htail.
  - simpl. by rewrite lookup_insert_eq.
  - intros Heq. rewrite <- Heq in Hb. congruence.
Qed.

(** X10: A snapshot that fails does not stop the request: with the collection
    file present and holding text that loads as the list [old], no snapshot
    of the day and a failure of [open] pending, [_create_daily_backup]
    returns false, and [create] stores the record all the same, leaving the
    day without a snapshot. *)
Theorem failed_snapshot_does_not_stop_create (collection : string) (record : Dict)
    (w : world) (c : file_content) (old : list json) :
  let p := _get_file_path self collection in
  let snapshot := snapshot_path self p (clock w (ticks w)) in
  files w !! p = Some c → load_list c = Ok old → files w !! snapshot = None →
  0 < io_faults w < max_retries →
  fst (_create_daily_backup self p w) = Ok false
  ∧ ∃ s w', create self collection record w = (Ok s, w')
            ∧ files w' !! p = Some (Document (JList (old ++ [JDict s])))
            ∧ files w' !! snapshot = None.
Proof.
  intros p snapshot Hp Hold Hb Hf. subst snapshot.
  destruct (io_faults w) as [|k] eqn:Hk; [lia|].
  split; [by rewrite (backup_fault self p w c k)|].
  assert (readable p w = true) as Hrd.
  { unfold readable. rewrite Hp. simpl. by destruct c. }
  destruct (create_ok self collection record w ltac:(lia) Hrd) as (w' & Hc & Hfiles & _).
  fold p in Hc, Hfiles. eexists _, w'. split; [done|]. split.
  { rewrite Hfiles. unfold stored. by rewrite Hp, Hold. }
  destruct (serve_after_backup (Create collection record)) as (tail & Hserve & Htail).
  change (request_file self (Create collection record)) with p in *.
  specialize (Hserve w). simpl in Hserve. rewrite Hc in Hserve. simpl in Hserve.
  rewrite Hserve.
  erewrite bind_ok by (by apply (backup_fault self p w c k)).
  rewrite Htail; [done|].
  intros Heq. rewrite <- Heq in Hb. congruence.
Qed.

End Confinement.

(** * Filters, paths, stamps and ids *)

Lemma matches_agrees d filters : matches (JDict d) filters = Ok (agrees filters (JDict d)).
Proof.
  induction filters as [|[key value] rest IH]; simpl; [done|].
  destruct (d !! key) as [x|]; simpl; [|done].
  by destruct (py_eq x value).
Qed.

(** Equality with a string, with [None] and between numbers. *)
Lemma py_eq_str x s : py_eq x (JStr s) = true ↔ x = JStr s.
Proof.
  destruct x; simpl; try (split; discriminate).
  rewrite String.eqb_eq. split; [by intros ->|by intros [= ->]].
Qed.

Lemma py_eq_none x : py_eq x JNull = true ↔ x = JNull.
Proof. destruct x; simpl; try (split; discriminate). done. Qed.

Lemma py_eq_int x z :
  py_eq x (JInt z) = true →
  x = JInt z ∨ (∃ b, x = JBool b ∧ z = if b then 1%Z else 0%Z)
  ∨ ∃ f, x = JFloat f ∧ compare_exact z f = Some Eq.
Proof.
  destruct x; simpl; try discriminate.
  - intros H. right. left. exists b. split; [done|].
    apply Z.eqb_eq in H. by destruct b.
  - intros H. left. by apply Z.eqb_eq in H as ->.
  - intros H. right. right. exists f. split; [done|].
    by destruct (compare_exact z f) as [[]|].
Qed.

Lemma agrees_spec filters d :
  agrees filters (JDict d) = true ↔
  ∀ key value, (key, value) ∈ filters → ∃ x, d !! key = Some x ∧ py_eq x value = true.
Proof.
  unfold agrees. rewrite forallb_forall. split.
  - intros H key value Hin. apply list_elem_of_In, H in Hin. simpl in Hin.
    destruct (d !! key) as [x|]; [|done]. by exists x.
  - intros H [key value] Hin. simpl.
    apply list_elem_of_In, H in Hin as (x & Hkey & Hx). by rewrite Hkey.
Qed.

Lemma select_agrees filters data :
  forallb is_dict data = true →
  select filters data = Ok (List.filter (agrees filters) data).
Proof.
  induction data as [|v data IH]; simpl; [done|].
  destruct v; try done. intros Hd. rewrite matches_agrees, (IH Hd).
  change (List.filter (agrees filters) (JDict d :: data))
    with (if agrees filters (JDict d)
          then JDict d :: List.filter (agrees filters) data
          else List.filter (agrees filters) data).
  by destruct (agrees filters (JDict d)).
Qed.

Lemma select_all data : select [] data = Ok data.
Proof. induction data as [|v data IH]; simpl; [done|]. by rewrite IH. Qed.

Lemma agrees_nil data :
  forallb is_dict data = true → List.filter (agrees []) data = data.
Proof.
  induction data as [|v data IH]; simpl; [done|].
  destruct v; try done. simpl. intros Hd. by rewrite (IH Hd).
Qed.

Section Filters.
Variable self : JSONStore.

(** X11: Without filters [filter_records] is [read_all].  On an array of records
    it returns, in the stored order, the records that carry every filtered
    key with a value equal to the filtered one, as [==] has it, and [count]
    is the number of those, at most the number of records stored.  The
    filtered values may be of any kind: a string selects the records that
    hold that very string, [None] those that hold null, and an int those
    that hold a number of that value, be it an int, a bool or a float. *)
Theorem filter_records_selects (collection : string) (filters : list (string * json))
    (w : world) :
  filter_records self collection [] w = read_all self collection w
  ∧ (∀ data w0,
       read_all self collection w = (Ok data, w0) → forallb is_dict data = true →
       filter_records self collection filters w
         = (Ok (List.filter (agrees filters) data), w0)
       ∧ count self collection filters w
         = (Ok (length (List.filter (agrees filters) data)), w0)
       ∧ length (List.filter (agrees filters) data) ≤ length data)
  ∧ (∀ d, agrees filters (JDict d) = true ↔
          ∀ key value, (key, value) ∈ filters →
                       ∃ x, d !! key = Some x ∧ py_eq x value = true)
  ∧ (∀ x s, py_eq x (JStr s) = true ↔ x = JStr s)
  ∧ (∀ x, py_eq x JNull = true ↔ x = JNull)
  ∧ (∀ x z, py_eq x (JInt z) = true →
            x = JInt z ∨ (∃ b, x = JBool b ∧ z = if b then 1%Z else 0%Z)
            ∨ ∃ f, x = JFloat f ∧ compare_exact z f = Some Eq)
  ∧ py_eq (JInt 1) (JInt 1) = true ∧ py_eq (JBool true) (JInt 1) = true
  ∧ py_eq (JFloat 1) (JInt 1) = true ∧ py_eq (JStr "1") (JInt 1) = false.
Proof.
  split; [|split; [|split; [apply agrees_spec|split; [apply py_eq_str|
                     split; [apply py_eq_none|split; [apply py_eq_int|]]]]]].
  - unfold filter_records, bind, lift.
    destruct (read_all self collection w) as [[data|e] w0]; [|done].
    by rewrite select_all.
  - intros data w0 Hr Hd.
    assert (filter_records self collection filters w
            = (Ok (List.filter (agrees filters) data), w0)) as Hfr.
    { unfold filter_records. rewrite (bind_ok _ _ _ _ _ Hr).
      unfold lift. by rewrite select_agrees. }
    split; [done|]. split; [|apply filter_length_le].
    unfold count. destruct filters as [|f filters].
    + rewrite (bind_ok _ _ _ _ _ Hr). unfold ret. by rewrite agrees_nil.
    + by rewrite (bind_ok _ _ _ _ _ Hfr).
  - repeat split; vm_compute; reflexivity.
Qed.

(** X12: On a POSIX host, where the paths are joined as [posixpath] does it: a
    collection is the same file with or without the extension, and a
    collection name that is an absolute path is not placed under the data
    directory. *)
Theorem get_file_path_extension (collection : string) :
  windows self = false →
  endswith collection ".json" = false →
  _get_file_path self (collection +:+ ".json") = _get_file_path self collection
  ∧ endswith (_get_file_path self collection) ".json" = true
  ∧ (startswith collection "/" = true →
     _get_file_path self collection = collection +:+ ".json").
Proof.
  intros _ He. unfold _get_file_path. rewrite endswith_append, He.
  split; [done|]. unfold path_join.
  assert (startswith (collection +:+ ".json") "/" = startswith collection "/") as ->.
  { destruct collection as [|c s]; [done|]. rewrite append_cons.
    unfold startswith.
    change (String.prefix "/" (String c (s +:+ ".json")))
      with (if ascii_dec "/" c then String.prefix "" (s +:+ ".json") else false).
    change (String.prefix "/" (String c s))
      with (if ascii_dec "/" c then String.prefix "" s else false).
    destruct (ascii_dec "/" c); [|done].
    destruct s; [done|]. by rewrite append_cons. }
  destruct (startswith collection "/"); [split; [apply endswith_append|done]|].
  split; [|done].
  destruct (String.eqb (data_dir self) "" || endswith (data_dir self) "/").
  - rewrite <- append_assoc. apply endswith_append.
  - rewrite <- !append_assoc. apply endswith_append.
Qed.

End Filters.

(** X13: The stamps that the store writes sort as the instants they denote: on
    valid datetime values the order of the ISO strings is the order of
    time, and equal strings mean equal instants. *)
Theorem stamps_sort_by_time (d1 d2 : datetime) :
  valid_datetime d1 → valid_datetime d2 →
  (String.ltb (isoformat d1) (isoformat d2) = true ↔ earlier d1 d2)
  ∧ (isoformat d1 = isoformat d2 ↔ d1 = d2).
Proof.
  intros H1 H2.
  assert (earlier d1 d2 ∨ d1 = d2 ∨ earlier d2 d1) as Hcases.
  { destruct (lex_lt_trichotomy (fields d1) (fields d2) eq_refl) as [H|[H|H]]; auto.
    right. left. destruct d1, d2. unfold fields in H. simpl in H. congruence. }
  split; split.
  - intros Hlt. destruct Hcases as [H|[->|H]]; [done| |].
    + by rewrite ltb_irrefl in Hlt.
    + apply (isoformat_increasing _ _ H2 H1), ltb_asym in H. congruence.
  - by apply isoformat_increasing.
  - intros Heq. destruct Hcases as [H|[H|H]]; [|done|].
    + apply (isoformat_increasing _ _ H1 H2) in H.
      rewrite Heq, ltb_irrefl in H. done.
    + apply (isoformat_increasing _ _ H2 H1) in H.
      rewrite Heq, ltb_irrefl in H. done.
  - by intros ->.
Qed.

Lemma hex_split a : ∀ b n,
  hex (a + b) n = hex a (n / 16 ^ N.of_nat b) +:+ hex b n.
Proof.
  induction a as [|a IH]; intros b n; [by rewrite append_nil|].
  cbn [Nat.add hex]. rewrite append_cons, IH. f_equal. f_equal.
  rewrite N.Div0.div_div, <- N.pow_add_r. do 2 f_equal. lia.
Qed.

Lemma uuid4_int_high bytes :
  (uuid4_int bytes / 2 ^ 96 = (bytes mod 2 ^ 128) / 2 ^ 96)%N.
Proof.
  unfold uuid4_int. rewrite <- !N.shiftr_div_pow2, N.land_ones.
  apply N.bits_inj. intros n. rewrite !N.shiftr_spec by lia.
  rewrite N.lor_spec, N.ldiff_spec, N.lor_spec, N.ldiff_spec.
  rewrite !N.shiftl_spec_high by lia.
  rewrite (N.bits_above_log2 0xc000), (N.bits_above_log2 0x8000),
    (N.bits_above_log2 0xf000), (N.bits_above_log2 4);
    [|simpl; lia..].
  simpl. by rewrite !orb_false_r, !andb_true_r.
Qed.

(** X14: The id that [create] generates is the first 32 of the 128 random bits of
    the uuid, in eight lowercase hexadecimal digits: the version and variant
    bits lie further down, and nothing else of the draw enters the id. *)
Theorem generated_id_is_32_bits (w : world) :
  generated_id w = hex 8 ((entropy w (draws w) mod 2 ^ 128) / 2 ^ 96)
  ∧ ∀ w', ((entropy w' (draws w') mod 2 ^ 128) / 2 ^ 96
           = (entropy w (draws w) mod 2 ^ 128) / 2 ^ 96)%N →
          generated_id w' = generated_id w.
Proof.
  assert (∀ w, generated_id w = hex 8 ((entropy w (draws w) mod 2 ^ 128) / 2 ^ 96))
    as Hid.
  { clear w. intros w. unfold generated_id, uuid_str.
    set (i := uuid4_int _). set (h := hex 32 i).
    assert (substring 0 8 h = hex 8 (i / 2 ^ 96)) as Hh.
    { unfold h. change (hex 32 i) with (hex (8 + 24) i). rewrite (hex_split 8 24 i).
      replace (16 ^ N.of_nat 24)%N with (2 ^ 96)%N by done.
      rewrite <- (length_hex 8 (i / 2 ^ 96)) at 1. apply substring_prefix. }
    rewrite Hh. unfold i. rewrite uuid4_int_high.
    set (top := hex 8 _).
    rewrite <- (length_hex 8 ((entropy w (draws w) mod 2 ^ 128) / 2 ^ 96)) at 1.
    apply substring_prefix. }
  split; [apply Hid|]. intros w' Heq. by rewrite !Hid, Heq.
Qed.

(** * Further properties of the commission engine *)

Lemma bind_inv {A B} (c : M A) (k : A → M B) w b w' :
  bind c k w = (Ok b, w') → ∃ a w1, c w = (Ok a, w1) ∧ k a w1 = (Ok b, w').
Proof.
  unfold bind. destruct (c w) as [[a|e] w1]; [|done]. intros H. by exists a, w1.
Qed.

Lemma lift_inv {A} (r : result A) w a w' : lift r w = (Ok a, w') → r = Ok a ∧ w' = w.
Proof. unfold lift. by intros [= -> ->]. Qed.

Lemma commission_failure_lookup error :
  commissions.commission_failure error !! "success" = Some (JBool false)
  ∧ commissions.commission_failure error !! "commission" = Some (JInt 0)
  ∧ commissions.commission_failure error !! "error" = Some (JStr error).
Proof.
  unfold commissions.commission_failure. rewrite !list_to_map_cons.
  split; [by rewrite lookup_insert_eq|]. split.
  - do 2 rewrite lookup_insert_ne by done. by rewrite lookup_insert_eq.
  - rewrite lookup_insert_ne by done. by rewrite lookup_insert_eq.
Qed.

Section CommissionAnswers.
Context {runtime : Runtime}.
Variable self : commissions.CommissionCalculator.

(** X15: [calculate_commission] never raises: whatever is on file, it returns a
    dict that either reports success, or reports failure with an error
    message and a commission of 0. *)
Theorem calculate_commission_always_answers (driver_id client_id : string)
    (order_date : option string) (w : world) :
  ∃ res w',
    commissions.calculate_commission self driver_id client_id order_date w = (Ok res, w')
    ∧ (res !! "success" = Some (JBool true) ∧ is_Some (res !! "source")
       ∨ res !! "success" = Some (JBool false)
         ∧ res !! "commission" = Some (JInt 0)
         ∧ is_Some (res !! "error")).
Proof.
  unfold commissions.calculate_commission, try_except.
  match goal with |- context [match ?c w with _ => _ end] =>
    destruct (c w) as [[res|e] w'] eqn:H end.
  - exists res, w'. split; [done|].
    apply bind_inv in H as (driver & w1 & _ & H).
    apply bind_inv in H as (client & w2 & _ & H).
    apply bind_inv in H as (config & w3 & _ & H).
    apply bind_inv in H as (rules & w4 & _ & H).
    destruct (absent driver).
    { injection H as Hres _. subst res. right.
      destruct (commission_failure_lookup "السائق غير موجود") as (? & ? & ->). eauto. }
    destruct (absent client).
    { injection H as Hres _. subst res. right.
      destruct (commission_failure_lookup "العميل غير موجود") as (? & ? & ->). eauto. }
    apply bind_inv in H as (od & w5 & _ & H).
    apply bind_inv in H as (rc & w6 & _ & H).
    apply bind_inv in H as (tier & w7 & _ & H).
    apply lift_inv in H as [H _]. left.
    unfold commissions.commission_success in H.
    destruct (py_round3 _); [|done]. destruct (get_or _ _ _); [|done].
    injection H as Hres. subst res. split.
    + by rewrite lookup_insert_eq.
    + do 2 rewrite lookup_insert_ne by done. rewrite lookup_insert_eq. eauto.
  - eexists _, w'. split; [done|]. right.
    match goal with |- context [commissions.commission_failure ?m] =>
      destruct (commission_failure_lookup m) as (? & ? & ->) end.
    eauto.
Qed.

End CommissionAnswers.

Section CommissionEdges.
Context {runtime : Runtime}.
Variable self : commissions.CommissionCalculator.

Lemma load_record_calm collection record_id w :
  io_faults w = 0 →
  try_except (find_by_id (commissions.json_store self) collection record_id)
    (λ _, ret None) w
  = (Ok match fst (find_by_id (commissions.json_store self) collection record_id w) with
        | Ok found => found
        | Raise _ => None
        end, w).
Proof.
  intros Hf. unfold try_except.
  pose proof (find_by_id_calm (commissions.json_store self) collection record_id w Hf)
    as Hcalm.
  destruct (find_by_id _ collection record_id w) as [[found|e] w']; simpl in *;
    by subst.
Qed.

(** X16: Without the driver there is no commission, and the driver is looked for
    first: when the lookup of the driver gives no record (the id is not on
    file, or the drivers file cannot be read or scanned) the answer is the
    failure dict for a missing driver (السائق غير موجود), whatever the
    client; with the driver on file and no record for the client it is the
    failure dict for a missing client (العميل غير موجود).  The configuration
    and the rules are loaded before either answer is given, so that both
    files must be missing or text for it. *)
Theorem commission_needs_driver_and_client (driver_id client_id : string)
    (order_date : option string) (w : world) :
  io_faults w = 0 →
  readable (path_join (commissions.data_dir self) "config.json") w = true →
  readable (path_join (commissions.data_dir self) "commission_rules.json") w = true →
  ((∀ r, fst (find_by_id (commissions.json_store self) "drivers" driver_id w)
         ≠ Ok (Some r)) →
   commissions.calculate_commission self driver_id client_id order_date w
   = (Ok (commissions.commission_failure "السائق غير موجود"), w))
  ∧ (∀ driver,
       find_by_id (commissions.json_store self) "drivers" driver_id w
         = (Ok (Some driver), w) →
       (∀ r, fst (find_by_id (commissions.json_store self) "clients" client_id w)
             ≠ Ok (Some r)) →
       commissions.calculate_commission self driver_id client_id order_date w
       = (Ok (commissions.commission_failure "العميل غير موجود"), w)).
Proof.
  intros Hf Hrdc Hrdr. split.
  - intros Hnone. unfold commissions.calculate_commission. apply try_ok.
    unfold commissions.load_driver, commissions.load_client.
    rewrite (bind_ok _ _ _ _ _ (load_record_calm "drivers" driver_id w Hf)).
    rewrite (bind_ok _ _ _ _ _ (load_record_calm "clients" client_id w Hf)).
    erewrite bind_ok by (unfold commissions.load_config; by apply load_json_or_calm).
    erewrite bind_ok
      by (unfold commissions.load_commission_rules; by apply load_json_or_calm).
    destruct (fst (find_by_id _ "drivers" driver_id w)) as [[r|]|e] eqn:Hd; try done.
    by destruct (Hnone r).
  - intros driver Hdriver Hnone. unfold commissions.calculate_commission. apply try_ok.
    unfold commissions.load_driver, commissions.load_client.
    rewrite (bind_ok _ _ _ _ _ (load_record_calm "drivers" driver_id w Hf)).
    rewrite (bind_ok _ _ _ _ _ (load_record_calm "clients" client_id w Hf)).
    erewrite bind_ok by (unfold commissions.load_config; by apply load_json_or_calm).
    erewrite bind_ok
      by (unfold commissions.load_commission_rules; by apply load_json_or_calm).
    rewrite Hdriver. cbn [fst]. rewrite (found_not_empty _ _ _ _ _ _ Hf Hdriver).
    destruct (fst (find_by_id _ "clients" client_id w)) as [[r|]|e] eqn:Hc; try done.
    by destruct (Hnone r).
Qed.

(** X17: An order date that is not a date makes the calculation fail, before any
    rule or tier is looked at: the answer is the failure dict whose message
    carries the text of the [ValueError]. *)
Theorem commission_rejects_bad_date (driver_id client_id od : string)
    (driver client : Dict) (w : world) :
  on_file self driver_id client_id driver client w →
  od ≠ "" → strptime_ymd od = None →
  commissions.calculate_commission self driver_id client_id (Some od) w
  = (Ok (commissions.commission_failure
           ("خطأ في حساب العمولة: " +:+ str_exn ValueError)), w).
Proof.
  intros (Hf & Hdriver & Hclient & Hcfg & Hrdr) Hod Hd.
  pose proof (decoded_dict_readable _ _ _ Hcfg) as Hrdc.
  unfold commissions.calculate_commission.
  erewrite try_raise; [done|].
  erewrite bind_ok by (unfold commissions.load_driver; apply try_ok, Hdriver).
  erewrite bind_ok by (unfold commissions.load_client; apply try_ok, Hclient).
  erewrite bind_ok by (unfold commissions.load_config; by apply load_json_or_calm).
  erewrite bind_ok
    by (unfold commissions.load_commission_rules; by apply load_json_or_calm).
  rewrite (found_not_empty _ _ _ _ _ _ Hf Hdriver).
  rewrite (found_not_empty _ _ _ _ _ _ Hf Hclient).
  replace (String.eqb od "") with false by (symmetry; by apply String.eqb_neq).
  rewrite (bind_ok (ret od) _ w od w eq_refl).
  unfold commissions._check_commission_rules, parse_date. rewrite Hd.
  reflexivity.
Qed.

(** X18: A configuration file that holds valid JSON which is not an object
    (an array, say), or that is not text at all, makes every commission
    calculation fail, whichever tier would have applied: the currency is
    read from it in every case. *)
Theorem commission_needs_object_config (driver_id client_id : string)
    (order_date : option string) (driver client : Dict) (w : world) :
  io_faults w = 0 →
  find_by_id (commissions.json_store self) "drivers" driver_id w = (Ok (Some driver), w) →
  find_by_id (commissions.json_store self) "clients" client_id w = (Ok (Some client), w) →
  is_dict (decoded w (path_join (commissions.data_dir self) "config.json")
             commissions.default_config) = false →
  ∃ res w',
    commissions.calculate_commission self driver_id client_id order_date w = (Ok res, w')
    ∧ res !! "success" = Some (JBool false).
Proof.
  intros Hf Hdriver Hclient Hcfg.
  unfold commissions.calculate_commission, try_except.
  match goal with |- context [match ?c w with _ => _ end] =>
    destruct (c w) as [[res|e] w'] eqn:H end.
  - exfalso. revert H.
    erewrite bind_ok by (unfold commissions.load_driver; apply try_ok, Hdriver).
    erewrite bind_ok by (unfold commissions.load_client; apply try_ok, Hclient).
    destruct (readable (path_join (commissions.data_dir self) "config.json") w)
      eqn:Hrdc;
      [|by erewrite bind_raise
          by (unfold commissions.load_config; by apply load_json_or_undecodable)].
    erewrite bind_ok by (unfold commissions.load_config; by apply load_json_or_calm).
    destruct (readable (path_join (commissions.data_dir self) "commission_rules.json") w)
      eqn:Hrdr;
      [|by erewrite bind_raise
          by (unfold commissions.load_commission_rules;
              by apply load_json_or_undecodable)].
    erewrite bind_ok
      by (unfold commissions.load_commission_rules; by apply load_json_or_calm).
    rewrite (found_not_empty _ _ _ _ _ _ Hf Hdriver).
    rewrite (found_not_empty _ _ _ _ _ _ Hf Hclient).
    intros H.
    apply bind_inv in H as (od & w5 & _ & H).
    apply bind_inv in H as (rc & w6 & _ & H).
    apply bind_inv in H as (tier & w7 & _ & H).
    apply lift_inv in H as [H _].
    unfold commissions.commission_success in H.
    destruct (py_round3 _); [|done].
    by destruct (decoded w _ _).
  - eexists _, w'. split; [done|].
    match goal with |- context [commissions.commission_failure ?m] =>
      destruct (commission_failure_lookup m) as (-> & _) end.
    done.
Qed.

(** X19: The tier of the driver's own clients shadows the tiers below it even
    when it has no amount: for the primary client of a driver whose record
    has no [primary_client_commission], the commission is 0 from
    [driver_primary_client], whatever default the driver or rate the client
    has. *)
Theorem primary_client_without_amount (driver_id client_id od : string) (d : datetime)
    (driver client : Dict) (rules : list json) (w : world) :
  on_file self driver_id client_id driver client w →
  od ≠ "" → strptime_ymd od = Some d →
  rules_on_file self w = JList rules → Forall (other_pair driver_id client_id) rules →
  dict_get driver "primary_client_id" = JStr client_id →
  driver !! "primary_client_commission" = None →
  ∃ res, commissions.calculate_commission self driver_id client_id (Some od) w
         = (Ok res, w)
         ∧ res !! "success" = Some (JBool true)
         ∧ res !! "commission" = Some (JInt 0)
         ∧ res !! "source" = Some (JStr "driver_primary_client").
Proof.
  intros Hon Hod Hd Hrules Hother Hprimary Hamount.
  apply (calculate_commission_resolved self driver_id client_id od d driver client w
           rules None (JInt 0) "driver_primary_client" (JInt 0)); try done.
  - rewrite <- (app_nil_r rules). by rewrite check_rules_skip.
  - unfold commissions.resolve, commissions._has_client_specific_commission.
    rewrite Hprimary. cbn [eq_str]. rewrite String.eqb_refl. cbn [orb].
    unfold dict_get_or. by rewrite Hamount.
Qed.

Lemma check_rules_lapsed (rule : Dict) rest driver_id client_id d :
  lapsed rule d →
  commissions.check_rules (JDict rule :: rest) driver_id client_id d
  = commissions.check_rules rest driver_id client_id d.
Proof.
  intros Hl. cbn [commissions.check_rules].
  destruct (eq_str (dict_get rule "driver_id") driver_id
            && eq_str (dict_get rule "client_id") client_id) eqn:Hpair;
    cbn [andb]; [|by rewrite ?andb_false_l].
  destruct Hl as [Hoff|[(s & ds & Hs & Hne & Hds & Hlt)|(Hstart & e & de & He & Hne & Hde & Hlt)]].
  - by rewrite Hoff.
  - destruct (truthy _); [|done].
    rewrite Hs. unfold commissions.out_of_range. cbn [truthy].
    replace (String.eqb s "") with false by (symmetry; by apply String.eqb_neq).
    cbn [negb parse_date]. by rewrite Hds, Hlt.
  - destruct (truthy _); [|done].
    rewrite (out_of_range_allowed _ (λ s, date_lt d s) Hstart).
    rewrite He. unfold commissions.out_of_range. cbn [truthy].
    replace (String.eqb e "") with false by (symmetry; by apply String.eqb_neq).
    cbn [negb parse_date]. by rewrite Hde, Hlt.
Qed.

(** X20: A rule for the driver and the client that is switched off, or whose
    window does not contain the order date, is passed over: with no other
    rule for the pair the commission comes from the tiers below, here the
    default of the driver. *)
Theorem lapsed_rule_is_passed_over (driver_id client_id od : string) (d : datetime)
    (driver client rule : Dict) (before after : list json) (amount : float)
    (w : world) :
  on_file self driver_id client_id driver client w →
  od ≠ "" → strptime_ymd od = Some d →
  rules_on_file self w = JList (before ++ JDict rule :: after) →
  Forall (other_pair driver_id client_id) before →
  Forall (other_pair driver_id client_id) after →
  lapsed rule d →
  commissions._has_client_specific_commission driver client_id = false →
  driver !! "default_commission_per_order" = Some (JFloat amount) →
  truthy (JFloat amount) = true →
  ∃ res, commissions.calculate_commission self driver_id client_id (Some od) w
         = (Ok res, w)
         ∧ res !! "success" = Some (JBool true)
         ∧ res !! "commission" = Some (JFloat (round3 amount))
         ∧ res !! "source" = Some (JStr "driver_default").
Proof.
  intros Hon Hod Hd Hrules Hbefore Hafter Hlapsed Hspecific Hdefault Htruthy.
  apply (calculate_commission_resolved self driver_id client_id od d driver client w
           (before ++ JDict rule :: after) None (JFloat amount) "driver_default"
           (JFloat (round3 amount))); try done.
  - rewrite check_rules_skip by done. rewrite check_rules_lapsed by done.
    rewrite <- (app_nil_r after). by rewrite check_rules_skip.
  - unfold commissions.resolve. rewrite Hspecific.
    unfold dict_get, dict_get_or. rewrite Hdefault. cbn [default from_option id].
    by rewrite Htruthy.
Qed.

End CommissionEdges.

(** * Further properties of the payroll engine *)

Section PayrollEdges.
Context {runtime : Runtime}.
Variable self : payroll.PayrollCalculator.

Lemma payroll_load_driver_calm driver_id w :
  io_faults w = 0 →
  payroll.load_driver self driver_id w
  = (Ok match fst (find_by_id (payroll.json_store self) "drivers" driver_id w) with
        | Ok found => found
        | Raise _ => None
        end, w).
Proof.
  intros Hf. unfold payroll.load_driver, try_except.
  pose proof (find_by_id_calm (payroll.json_store self) "drivers" driver_id w Hf)
    as Hcalm.
  destruct (find_by_id _ "drivers" driver_id w) as [[found|e] w']; simpl in *;
    by subst.
Qed.

(** X21: Without the driver there is no payroll: when the lookup of the driver
    gives no record, the answer is the failure dict for a missing driver
    and the commission engine is not consulted. *)
Theorem payroll_needs_driver (driver_id : string) (year month : Z) (w : world) :
  io_faults w = 0 →
  (∀ r, fst (find_by_id (payroll.json_store self) "drivers" driver_id w)
        ≠ Ok (Some r)) →
  payroll.calculate_driver_payroll self driver_id year month w
  = (Ok (list_to_map [("success", JBool false);
                      ("error", JStr "السائق غير موجود")]), w).
Proof.
  intros Hf Hnone. unfold payroll.calculate_driver_payroll. apply try_ok.
  rewrite (bind_ok _ _ _ _ _ (payroll_load_driver_calm driver_id w Hf)).
  destruct (fst (find_by_id _ "drivers" driver_id w)) as [[r|]|e] eqn:Hd; try done.
  by destruct (Hnone r).
Qed.

(** X22: A commission report that does not say success is handed back as it is,
    before any advance is looked at; and when the commission engine raises,
    what is handed back is the failure dict made from its error. *)
Theorem payroll_passes_on_commission_failure (driver_id : string) (year month : Z)
    (driver : Dict) (base : float) (w : world) :
  io_faults w = 0 →
  find_by_id (payroll.json_store self) "drivers" driver_id w = (Ok (Some driver), w) →
  py_float (dict_get_or driver "base_salary" (JInt 0)) = Ok base →
  (∀ report w1,
     payroll.calculate_monthly_commission_total self driver_id year month w
       = (Ok report, w1) →
     truthy (dict_get report "success") = false →
     payroll.calculate_driver_payroll self driver_id year month w = (Ok report, w1))
  ∧ (∀ e w1,
       payroll.calculate_monthly_commission_total self driver_id year month w
         = (Raise e, w1) →
       payroll.calculate_driver_payroll self driver_id year month w
       = (Ok (list_to_map
                [("success", JBool false);
                 ("error", JStr ("خطأ في حساب العمولات: " +:+ str_exn e));
                 ("total_commission", JInt 0)]), w1)).
Proof.
  intros Hf Hdriver Hbase. split.
  - intros report w1 Hreport Hfail.
    unfold payroll.calculate_driver_payroll. apply try_ok.
    erewrite bind_ok by (unfold payroll.load_driver; apply try_ok, Hdriver).
    rewrite (found_not_empty _ _ _ _ _ _ Hf Hdriver).
    cbn [default from_option id]. rewrite Hbase.
    rewrite (bind_ok (lift _) _ w _ w eq_refl).
    erewrite bind_ok by (unfold payroll.get_driver_commissions; apply try_ok, Hreport).
    by rewrite Hfail.
  - intros e w1 Hraise.
    unfold payroll.calculate_driver_payroll. apply try_ok.
    erewrite bind_ok by (unfold payroll.load_driver; apply try_ok, Hdriver).
    rewrite (found_not_empty _ _ _ _ _ _ Hf Hdriver).
    cbn [default from_option id]. rewrite Hbase.
    rewrite (bind_ok (lift _) _ w _ w eq_refl).
    erewrite bind_ok
      by (unfold payroll.get_driver_commissions; by erewrite try_raise by exact Hraise).
    unfold dict_get. rewrite list_to_map_cons, lookup_insert_eq. reflexivity.
Qed.

Lemma get_driver_advances_none driver_id year month driver advances w :
  io_faults w = 0 →
  find_by_id (payroll.json_store self) "drivers" driver_id w = (Ok (Some driver), w) →
  filter_records (payroll.json_store self) "advances" [("driver_id", JStr driver_id)] w
    = (Ok advances, w) →
  payroll.active_only advances = Ok [] →
  payroll.get_driver_advances self driver_id year month w
  = (Ok (list_to_map
           [("success", JBool true);
            ("driver_id", JStr driver_id);
            ("total_deduction", JInt 0);
            ("advance_count", JInt 0);
            ("advance_details", JList [])]), w).
Proof.
  intros Hf Hdriver Hfilter Hactive.
  unfold payroll.get_driver_advances. apply try_ok.
  rewrite (bind_ok _ _ _ _ _ Hfilter).
  rewrite Hactive. rewrite (bind_ok (lift _) _ w _ w eq_refl).
  erewrite bind_ok by (unfold payroll.load_driver; apply try_ok, Hdriver).
  rewrite (found_not_empty _ _ _ _ _ _ Hf Hdriver).
  reflexivity.
Qed.

(** X23: The payroll of a driver with no advance that is active or partial:
    nothing is deducted (the deduction is the integer 0 and no advance is
    listed), the gross salary is the base salary plus the commission total,
    and the net salary is the gross salary less zero, each rounded to three
    places. *)
Theorem payroll_without_advances (driver_id : string) (year month : Z)
    (driver report : Dict) (advances : list json) (base commission : float)
    (w w1 : world) :
  io_faults w = 0 →
  find_by_id (payroll.json_store self) "drivers" driver_id w = (Ok (Some driver), w) →
  py_float (dict_get_or driver "base_salary" (JInt 0)) = Ok base →
  payroll.calculate_monthly_commission_total self driver_id year month w
    = (Ok report, w) →
  truthy (dict_get report "success") = true →
  dict_get_or report "total_commission" (JInt 0) = JFloat commission →
  filter_records (payroll.json_store self) "advances" [("driver_id", JStr driver_id)] w
    = (Ok advances, w) →
  payroll.active_only advances = Ok [] →
  is_dict (decoded w (path_join (payroll.data_dir self) "config.json")
             payroll.default_config) = true →
  ∃ res w',
    payroll.calculate_driver_payroll self driver_id year month w = (Ok res, w')
    ∧ res !! "success" = Some (JBool true)
    ∧ res !! "gross_salary" = Some (JFloat (round3 (base + commission)))
    ∧ res !! "advance_deduction" = Some (JInt 0)
    ∧ res !! "net_salary" = Some (JFloat (round3 (base + commission - 0)))
    ∧ res !! "advance_details" = Some (JList []).
Proof.
  intros Hf Hdriver Hbase Hreport Hsuccess Htotal Hfilter Hactive Hcfg.
  pose proof (decoded_dict_readable _ _ _ Hcfg) as Hrd.
  set (config := decoded w _ payroll.default_config) in *.
  destruct config as [| | | | | |cfg] eqn:Hconfig; try done.
  do 2 eexists. split.
  - unfold payroll.calculate_driver_payroll. apply try_ok.
    erewrite bind_ok by (unfold payroll.load_driver; apply try_ok, Hdriver).
    rewrite (found_not_empty _ _ _ _ _ _ Hf Hdriver).
    cbn [default from_option id]. rewrite Hbase.
    rewrite (bind_ok (lift _) _ w _ w eq_refl).
    erewrite bind_ok by (unfold payroll.get_driver_commissions; apply try_ok, Hreport).
    rewrite Hsuccess. cbn [negb]. rewrite Htotal.
    rewrite (bind_ok _ _ _ _ _
               (get_driver_advances_none driver_id year month driver advances w
                  Hf Hdriver Hfilter Hactive)).
    unfold dict_get, dict_get_or. rewrite !list_to_map_cons.
    rewrite lookup_insert_eq. cbn [default from_option id truthy negb].
    do 2 rewrite lookup_insert_ne by done. rewrite lookup_insert_eq.
    do 4 rewrite lookup_insert_ne by done. rewrite lookup_insert_eq.
    cbn [default from_option id].
    replace (py_add (JFloat base) (JFloat commission))
      with (Ok (JFloat (base + commission))) by reflexivity.
    rewrite (bind_ok (lift _) _ w _ w eq_refl).
    replace (py_sub (JFloat (base + commission)) (JInt 0))
      with (Ok (JFloat (base + commission - 0))) by reflexivity.
    rewrite (bind_ok (lift _) _ w _ w eq_refl).
    rewrite (bind_ok _ _ _ _ _ (load_config_calm self w Hf Hrd)). fold config.
    rewrite Hconfig. cbn [py_round3 get_or].
    do 5 rewrite (bind_ok (lift _) _ w _ w eq_refl).
    rewrite (bind_ok now _ _ _ _ (now_eq _)).
    reflexivity.
  - rewrite !list_to_map_cons.
    split; [by rewrite lookup_insert_eq|].
    repeat split; rewrite !lookup_insert_ne by done; by rewrite lookup_insert_eq.
Qed.

(** X24: An advance that is paid off is passed over before its deduction
    settings are read, and so is an advance whose deduction mode is neither
    [fixed_amount] nor [percentage]: the total and the details stay as they
    were. *)
Theorem advance_adds_nothing (driver : Dict) (driver_id : string) (year month : Z)
    (state : json * list json) (a : Dict) (amount paid : float) (w : world) :
  py_float (dict_get_or a "amount" (JInt 0)) = Ok amount →
  py_float (dict_get_or a "paid_amount" (JInt 0)) = Ok paid →
  (((amount - paid) <=? 0)%float = true →
   payroll.advance_step self driver driver_id year month state (JDict a) w
   = (Ok state, w))
  ∧ (∀ value,
       ((amount - paid) <=? 0)%float = false →
       py_float (dict_get_or a "advance_deduction_value" (JInt 50)) = Ok value →
       eq_str (dict_get_or a "advance_deduction_mode" (JStr "fixed_amount"))
         "fixed_amount" = false →
       eq_str (dict_get_or a "advance_deduction_mode" (JStr "fixed_amount"))
         "percentage" = false →
       payroll.advance_step self driver driver_id year month state (JDict a) w
       = (Ok state, w)).
Proof.
  intros Ha Hp. split.
  - intros Hrem. unfold payroll.advance_step.
    rewrite Ha. rewrite (bind_ok (lift _) _ w amount w eq_refl).
    rewrite Hp. rewrite (bind_ok (lift _) _ w paid w eq_refl).
    by rewrite Hrem.
  - intros value Hrem Hv Hfixed Hpct. unfold payroll.advance_step.
    rewrite Ha. rewrite (bind_ok (lift _) _ w amount w eq_refl).
    rewrite Hp. rewrite (bind_ok (lift _) _ w paid w eq_refl).
    rewrite Hrem, Hv. rewrite (bind_ok (lift _) _ w value w eq_refl).
    unfold payroll.deduction_amount_of. rewrite Hfixed, Hpct.
    rewrite (bind_ok (ret _) _ w _ w eq_refl).
    reflexivity.
Qed.

(** X25: One advance in percentage mode: the deduction is the given percentage
    of the month's commission total plus the base salary, capped by the
    remaining balance: it is the balance when the balance is below that
    share and the share otherwise, and so exceeds neither.  When positive it
    is added to the running total and listed, rounded to three places. *)
Theorem advance_percentage_of_earnings (driver report : Dict) (driver_id : string)
    (year month : Z) (total : json) (details : list json) (a : Dict)
    (amount paid value commission base : float) (w w1 : world) :
  py_float (dict_get_or a "amount" (JInt 0)) = Ok amount →
  py_float (dict_get_or a "paid_amount" (JInt 0)) = Ok paid →
  ((amount - paid) <=? 0)%float = false →
  dict_get_or a "advance_deduction_mode" (JStr "fixed_amount") = JStr "percentage" →
  py_float (dict_get_or a "advance_deduction_value" (JInt 50)) = Ok value →
  payroll.calculate_monthly_commission_total self driver_id year month w
    = (Ok report, w1) →
  dict_get_or report "total_commission" (JInt 0) = JFloat commission →
  py_float (dict_get_or driver "base_salary" (JInt 0)) = Ok base →
  let share := (value / 100 * (commission + base))%float in
  let balance := (amount - paid)%float in
  let deduction := if (balance <? share)%float then balance else share in
  (0 <? deduction)%float = true →
  ∀ new_total, py_add total (JFloat deduction) = Ok new_total →
  (share <? deduction)%float = false
  ∧ (balance <? deduction)%float = false
  ∧ ∃ detail,
      payroll.advance_step self driver driver_id year month (total, details) (JDict a) w
      = (Ok (new_total, details ++ [JDict detail]), w1)
      ∧ detail !! "deduction_amount" = Some (JFloat (round3 deduction))
      ∧ detail !! "remaining_balance" = Some (JFloat balance).
Proof.
  intros Ha Hp Hrem Hmode Hv Hreport Hc Hbase share balance deduction Hpos
         new_total Hadd.
  destruct (py_min_capped share balance) as (Hmin & Hshare & Hbalance).
  fold deduction in Hmin. rewrite Hmin in Hshare, Hbalance.
  split; [exact Hshare|]. split; [exact Hbalance|].
  eexists. split.
  - unfold payroll.advance_step.
    rewrite Ha. rewrite (bind_ok (lift _) _ w amount w eq_refl).
    rewrite Hp. rewrite (bind_ok (lift _) _ w paid w eq_refl).
    rewrite Hrem, Hv. rewrite (bind_ok (lift _) _ w value w eq_refl).
    unfold payroll.deduction_amount_of. rewrite Hmode.
    cbn [eq_str String.eqb Ascii.eqb Bool.eqb].
    rewrite (bind_assoc _ _ _ w). cbv beta.
    erewrite bind_ok by (unfold payroll.get_driver_commissions; apply try_ok, Hreport).
    rewrite Hc, Hbase.
    rewrite (bind_assoc _ _ _ w1). cbv beta.
    rewrite (bind_ok (lift _) _ w1 base w1 eq_refl).
    replace (py_add (JFloat commission) (JFloat base))
      with (Ok (JFloat (commission + base))) by reflexivity.
    rewrite (bind_assoc _ _ _ w1). cbv beta.
    rewrite (bind_ok (lift _) _ w1 (JFloat (commission + base)) w1 eq_refl).
    replace (payroll.py_mul (JFloat (value / 100)) (JFloat (commission + base)))
      with (Ok (JFloat (value / 100 * (commission + base)))) by reflexivity.
    rewrite (bind_assoc _ _ _ w1). cbv beta.
    rewrite (bind_ok (lift _) _ w1 (JFloat (value / 100 * (commission + base))) w1 eq_refl).
    rewrite (bind_assoc _ _ _ w1). cbv beta.
    cbn [float_operand].
    rewrite (bind_ok (lift _) _ w1 (value / 100 * (commission + base))%float w1 eq_refl).
    rewrite (bind_ok (ret _) _ w1 _ w1 eq_refl).
    fold share balance. rewrite Hmin. unfold payroll.gt_zero. rewrite Hpos.
    rewrite (bind_ok (lift _) _ w1 true w1 eq_refl).
    cbn [fst snd]. rewrite Hadd.
    rewrite (bind_ok (lift _) _ w1 new_total w1 eq_refl).
    reflexivity.
  - unfold payroll.advance_detail. rewrite !list_to_map_cons. split.
    + do 3 rewrite lookup_insert_ne by done. by rewrite lookup_insert_eq.
    + do 2 rewrite lookup_insert_ne by done. by rewrite lookup_insert_eq.
Qed.

Lemma calculate_driver_payroll_answers (driver_id : string) (year month : Z) (w : world) :
  ∃ res w',
    payroll.calculate_driver_payroll self driver_id year month w = (Ok res, w')
    ∧ (truthy (dict_get res "success") = true →
       res !! "driver_id" = Some (JStr driver_id)
       ∧ is_Some (res !! "gross_salary")
       ∧ is_Some (res !! "advance_deduction")
       ∧ is_Some (res !! "net_salary")).
Proof.
  unfold payroll.calculate_driver_payroll, try_except.
  match goal with |- context [match ?c w with _ => _ end] =>
    destruct (c w) as [[res|e] w'] eqn:H end.
  - exists res, w'. split; [done|]. intros Hsuccess.
    apply bind_inv in H as (driver & w1 & _ & H).
    destruct (absent driver).
    { injection H as Hres _. subst res. by vm_compute in Hsuccess. }
    apply bind_inv in H as (base & w2 & _ & H).
    apply bind_inv in H as (cr & w3 & _ & H).
    destruct (truthy (dict_get cr "success")) eqn:Hcr; cbn [negb] in H.
    2: { injection H as Hres _. subst res. congruence. }
    apply bind_inv in H as (ar & w4 & _ & H).
    destruct (truthy (dict_get ar "success")) eqn:Har; cbn [negb] in H.
    2: { injection H as Hres _. subst res. congruence. }
    apply bind_inv in H as (gross & w5 & _ & H).
    apply bind_inv in H as (net & w6 & _ & H).
    apply bind_inv in H as (config & w7 & _ & H).
    apply bind_inv in H as (cround & w8 & _ & H).
    apply bind_inv in H as (ground & w9 & _ & H).
    apply bind_inv in H as (dround & w10 & _ & H).
    apply bind_inv in H as (nround & w11 & _ & H).
    apply bind_inv in H as (currency & w12 & _ & H).
    apply bind_inv in H as (calculated & w13 & _ & H).
    injection H as Hres _. subst res. rewrite ?list_to_map_cons.
    split; [by rewrite lookup_insert_ne, lookup_insert_eq|].
    split; [|split]; rewrite !lookup_insert_ne by done; rewrite lookup_insert_eq; eauto.
  - eexists _, w'. split; [done|]. intros Hsuccess. by vm_compute in Hsuccess.
Qed.

Lemma get_driver_advances_answers (driver_id : string) (year month : Z) (w : world) :
  ∃ res w',
    payroll.get_driver_advances self driver_id year month w = (Ok res, w')
    ∧ (truthy (dict_get res "success") = true →
       ∃ details, res !! "advance_details" = Some (JList details)
                  ∧ res !! "advance_count" = Some (JInt (Z.of_nat (length details)))
                  ∧ is_Some (res !! "total_deduction")).
Proof.
  unfold payroll.get_driver_advances, try_except.
  match goal with |- context [match ?c w with _ => _ end] =>
    destruct (c w) as [[res|e] w'] eqn:H end.
  - exists res, w'. split; [done|]. intros Hsuccess.
    apply bind_inv in H as (advances & w1 & _ & H).
    apply bind_inv in H as (active & w2 & _ & H).
    apply bind_inv in H as (driver & w3 & _ & H).
    destruct (absent driver).
    { injection H as Hres _. subst res. by vm_compute in Hsuccess. }
    apply bind_inv in H as (state & w4 & _ & H).
    apply bind_inv in H as (rounded & w5 & _ & H).
    injection H as Hres _. subst res. exists (snd state). rewrite ?list_to_map_cons.
    split; [|split]; rewrite !lookup_insert_ne by done; rewrite lookup_insert_eq; eauto.
  - eexists _, w'. split; [done|]. intros Hsuccess. by vm_compute in Hsuccess.
Qed.

(** X26: Neither [calculate_driver_payroll] nor [get_driver_advances] ever
    raises.  A payroll that reports success is a full one: it carries the
    gross salary, the deduction and the net salary; and in an answer of
    [get_driver_advances] that reports success the advance count is the
    number of advances listed. *)
Theorem payroll_always_answers (driver_id : string) (year month : Z) (w : world) :
  (∃ res w',
     payroll.calculate_driver_payroll self driver_id year month w = (Ok res, w')
     ∧ (truthy (dict_get res "success") = true →
        res !! "driver_id" = Some (JStr driver_id)
        ∧ is_Some (res !! "gross_salary")
        ∧ is_Some (res !! "advance_deduction")
        ∧ is_Some (res !! "net_salary")))
  ∧ (∃ res w',
       payroll.get_driver_advances self driver_id year month w = (Ok res, w')
       ∧ (truthy (dict_get res "success") = true →
          ∃ details,
            res !! "advance_details" = Some (JList details)
            ∧ res !! "advance_count" = Some (JInt (Z.of_nat (length details)))
            ∧ is_Some (res !! "total_deduction"))).
Proof.
  split; [apply calculate_driver_payroll_answers|apply get_driver_advances_answers].
Qed.

End PayrollEdges.

(** * The event log *)

Lemma length_last_events l :
  N.of_nat (length (event_logger.last_events l)) = N.min (N.of_nat (length l)) 10000.
Proof.
  unfold event_logger.last_events.
  destruct (N.ltb_spec 10000 (N.of_nat (length l))) as [H|H].
  - rewrite length_drop. lia.
  - lia.
Qed.

Lemma last_last_events l x :
  last (event_logger.last_events (l ++ [x])) = Some x.
Proof.
  unfold event_logger.last_events.
  destruct (N.ltb_spec 10000 (N.of_nat (length (l ++ [x])))) as [H|H];
    [|apply last_snoc].
  rewrite last_lookup, length_drop, lookup_drop.
  rewrite length_app in *. simpl in *.
  replace (N.to_nat (N.of_nat (length l + 1) - 10000) +
           pred (length l + 1 - N.to_nat (N.of_nat (length l + 1) - 10000)))
    with (length l) by lia.
  by rewrite lookup_app_r, Nat.sub_diag by lia.
Qed.

Section EventLog.
Variable self : event_logger.EventLogger.

(** The run of [log_event] when no failure of [open] is pending: the event
    is stamped with a fresh id and the clock, appended to what the log file
    decodes to, and written back; a log that is not text, like one that
    does not hold a list, ends the run with false. *)
Lemma log_event_calm action entity_type entity_id user details ip_address w :
  io_faults w = 0 →
  let event := event_logger.event_of (generated_id w) (clock w (ticks w))
                 action entity_type entity_id user details ip_address in
  match event_logger.append_event
          (decoded w (event_logger.log_file self) (JList [])) event with
  | Ok logs =>
      ∃ w', event_logger.log_event self action entity_type entity_id user details
              ip_address w = (Ok true, w')
            ∧ files w' !! event_logger.log_file self
              = Some (Document (JList (event_logger.last_events logs)))
  | Raise _ =>
      ∃ w', event_logger.log_event self action entity_type entity_id user details
              ip_address w = (Ok false, w')
            ∧ files w' = files w
  end.
Proof.
  intros Hf event. unfold event_logger.log_event.
  set (p := event_logger.log_file self).
  set (w1 := set_draws (S (draws w)) w).
  set (w2 := set_ticks (S (ticks w)) w1).
  destruct (readable p w) eqn:Hrd; last first.
  { assert (decoded w p (JList []) = JNull) as ->.
    { unfold decoded, readable in *. by destruct (files w !! p) as [[| | |v]|]. }
    cbn [event_logger.append_event]. exists w2. split; [|done].
    erewrite try_raise; [done|].
    unfold event_logger._generate_event_id. rewrite bind_assoc. cbv beta.
    rewrite (bind_ok uuid4 _ _ _ _ (uuid4_eq w)).
    rewrite (bind_ok (ret _) _ w1 _ w1 eq_refl).
    rewrite (bind_ok now _ _ _ _ (now_eq w1)).
    apply (bind_raise _ _ _ UnicodeDecodeError).
    unfold event_logger._read_logs, try_except, bind. fold p.
    change (set_ticks (S (ticks w1)) w1) with w2.
    rewrite (open_read_calm p w2 Hf). simpl.
    unfold readable in Hrd. by destruct (files w !! p) as [[| | |v]|]. }
  assert (bind event_logger._generate_event_id
            (λ id, bind now (λ t,
               bind (event_logger._read_logs self) (λ logs,
                 bind (lift (event_logger.append_event logs
                               (event_logger.event_of id t action entity_type
                                  entity_id user details ip_address)))
                   (λ logs, event_logger._write_logs self
                              (JList (event_logger.last_events logs)))))) w
          = bind (lift (event_logger.append_event (decoded w p (JList [])) event))
              (λ logs, event_logger._write_logs self
                         (JList (event_logger.last_events logs))) w2) as Hrun.
  { unfold event_logger._generate_event_id. rewrite bind_assoc. cbv beta.
    rewrite (bind_ok uuid4 _ _ _ _ (uuid4_eq w)).
    rewrite (bind_ok (ret _) _ w1 _ w1 eq_refl).
    rewrite (bind_ok now _ _ _ _ (now_eq w1)).
    assert (event_logger._read_logs self w2 = (Ok (decoded w p (JList [])), w2)) as Hr.
    { unfold event_logger._read_logs, try_except, bind, decoded. fold p.
      rewrite (open_read_calm p w2 Hf). simpl.
      unfold readable in Hrd. destruct (files w !! p) as [[| | |v]|]; done. }
    by rewrite (bind_ok _ _ _ _ _ Hr). }
  destruct (event_logger.append_event _ event) as [logs|e] eqn:Happend.
  - destruct (backup_total (event_logger.json_store self) p w2)
      as (b & w3 & Hb & Hfp & Hio & _).
    eexists. split.
    + apply try_ok. rewrite Hrun. rewrite (bind_ok (lift _) _ w2 logs w2 eq_refl).
      unfold event_logger._write_logs. apply try_ok. fold p.
      rewrite (bind_ok _ _ _ _ _ Hb).
      rewrite (bind_ok _ _ _ _ _ (open_write_ready p w3 ltac:(simpl in Hio; lia))).
      reflexivity.
    + simpl. by rewrite lookup_insert_eq.
  - exists w2. split; [|done].
    erewrite try_raise; [done|]. rewrite Hrun. by rewrite (bind_raise (lift _) _ w2 e w2).
Qed.

(** X27: [log_event] on a log file that holds a list: the event gets the first
    eight characters of a fresh uuid as its id, the clock reading as its
    timestamp and the fixed session id; it is appended, the log is cut down
    to its last 10000 events, and the result is true.  The new event is
    always the last of the log. *)
Theorem log_event_appends (action entity_type entity_id user details ip_address : json)
    (old : list json) (w : world) :
  io_faults w = 0 →
  files w !! event_logger.log_file self = Some (Document (JList old)) →
  ∃ event w' logs,
    event_logger.log_event self action entity_type entity_id user details ip_address w
      = (Ok true, w')
    ∧ files w' !! event_logger.log_file self = Some (Document (JList logs))
    ∧ logs = event_logger.last_events (old ++ [JDict event])
    ∧ last logs = Some (JDict event)
    ∧ N.of_nat (length logs) = N.min (N.of_nat (length old + 1)) 10000
    ∧ event !! "id" = Some (JStr (generated_id w))
    ∧ event !! "timestamp" = Some (JStr (isoformat (clock w (ticks w))))
    ∧ event !! "action" = Some action
    ∧ event !! "session_id" = Some (JStr "web_session").
Proof.
  intros Hf Hlog.
  pose proof (log_event_calm action entity_type entity_id user details ip_address w Hf)
    as Hrun.
  cbv zeta in Hrun. unfold decoded in Hrun. rewrite Hlog in Hrun.
  cbn [event_logger.append_event] in Hrun. destruct Hrun as (w' & Hrun & Hfiles).
  eexists _, w', _. split; [exact Hrun|]. split; [exact Hfiles|]. split; [done|].
  split; [apply last_last_events|].
  split; [by rewrite length_last_events, length_app|].
  unfold event_logger.event_of. rewrite !list_to_map_cons.
  split; [by rewrite lookup_insert_eq|].
  split; [by rewrite lookup_insert_ne, lookup_insert_eq|].
  split.
  - do 2 rewrite lookup_insert_ne by done. by rewrite lookup_insert_eq.
  - do 8 rewrite lookup_insert_ne by done. by rewrite lookup_insert_eq.
Qed.


End EventLog.

(** * Row numbers *)

Lemma max_row_of_ints items : ∀ m,
  (∀ d v, JDict d ∈ items → d !! "row_number" = Some v → ∃ z, v = JInt z) →
  ∃ m', auto_increment.max_row_of (Int m) items
          = Ok (Int m')
        ∧ (m ≤ m')%Z
        ∧ (∀ d z, JDict d ∈ items → d !! "row_number" = Some (JInt z) → (z ≤ m')%Z)
        ∧ (m' = m ∨ ∃ d, JDict d ∈ items ∧ d !! "row_number" = Some (JInt m')).
Proof.
  induction items as [|item items IH]; intros m Hint.
  - exists m. split; [done|]. split; [lia|]. split; [|by left].
    intros d z Hd. by apply elem_of_nil in Hd.
  - assert (∀ d v, JDict d ∈ items → d !! "row_number" = Some v → ∃ z, v = JInt z)
      as Hrest by (intros d v Hd; apply Hint; by right).
    assert (∃ m1, auto_increment.max_step (Int m) item
                  = Ok (Int m1)
                  ∧ (m ≤ m1)%Z
                  ∧ (∀ d z, item = JDict d → d !! "row_number" = Some (JInt z) →
                            (z ≤ m1)%Z)
                  ∧ (m1 = m ∨ ∃ d, item = JDict d ∧ d !! "row_number" = Some (JInt m1)))
      as (m1 & Hstep & Hle & Hcover & Hfrom).
    { destruct item as [| | | | | |d];
        try (exists m; split; [done|]; split; [lia|]; split; [done|by left]).
      simpl. destruct (d !! "row_number") as [v|] eqn:Hv.
      - destruct (Hint d v ltac:(by left) Hv) as [z ->]. simpl.
        destruct (Z.ltb_spec m z).
        + exists z. split; [done|]. split; [lia|]. split.
          * intros d' z' [= <-]. rewrite Hv. intros [= <-]. lia.
          * right. by exists d.
        + exists m. split; [done|]. split; [lia|]. split; [|by left].
          intros d' z' [= <-]. rewrite Hv. intros [= <-]. lia.
      - exists m. split; [done|]. split; [lia|]. split; [|by left].
        intros d' z' [= <-]. by rewrite Hv. }
    destruct (IH m1 Hrest) as (m' & Hrun & Hle' & Hcover' & Hfrom').
    exists m'. cbn [auto_increment.max_row_of]. rewrite Hstep.
    split; [done|]. split; [lia|]. split.
    + intros d z Hd Hz. apply elem_of_cons in Hd as [Heq|Hd].
      * specialize (Hcover d z (eq_sym Heq) Hz). lia.
      * by apply (Hcover' d z).
    + destruct Hfrom' as [->|(d & Hd & Hz)].
      * destruct Hfrom as [->|(d & -> & Hz)]; [by left|].
        right. exists d. split; [by left|done].
      * right. exists d. split; [by right|done].
Qed.

(** X29: [get_next_row_number] on a list whose row numbers are ints: the result
    is an int, at least 1, greater than every row number in the list, and
    one more than the greatest of them when there is one above zero; it is 1
    for the empty list.  [add_row_number] gives this number to a record that
    has none and leaves a record that has one as it is. *)
Theorem next_row_number_is_fresh (items : list json) (record : Dict) :
  (∀ d v, JDict d ∈ items → d !! "row_number" = Some v → ∃ z, v = JInt z) →
  ∃ n,
    auto_increment.get_next_row_number (JList items) = Ok (JInt n)
    ∧ (1 ≤ n)%Z
    ∧ (∀ d z, JDict d ∈ items → d !! "row_number" = Some (JInt z) → (z < n)%Z)
    ∧ (n = 1%Z ∨ ∃ d, JDict d ∈ items ∧ d !! "row_number" = Some (JInt (n - 1)))
    ∧ (record !! "row_number" = None →
       auto_increment.add_row_number record (JList items)
       = Ok (<["row_number" := JInt n]> record))
    ∧ (is_Some (record !! "row_number") →
       auto_increment.add_row_number record (JList items) = Ok record).
Proof.
  intros Hint.
  destruct (max_row_of_ints items 0 Hint) as (m & Hrun & Hle & Hcover & Hfrom).
  assert (auto_increment.get_next_row_number (JList items) = Ok (JInt (m + 1))) as Hnext.
  { unfold auto_increment.get_next_row_number. destruct items as [|item items].
    - simpl in Hrun. injection Hrun as <-. done.
    - cbn [truthy negb iterate]. by rewrite Hrun. }
  exists (m + 1)%Z. split; [done|]. split; [lia|]. split; [|split; [|split]].
  - intros d z Hd Hz. specialize (Hcover d z Hd Hz). lia.
  - destruct Hfrom as [->|(d & Hd & Hz)]; [by left|].
    right. exists d. split; [done|]. by replace (m + 1 - 1)%Z with m by lia.
  - intros Hnone. unfold auto_increment.add_row_number. by rewrite Hnone, Hnext.
  - intros [v Hv]. unfold auto_increment.add_row_number. by rewrite Hv.
Qed.

Lemma max_row_of_numbered items : ∀ k m,
  forallb is_dict items = true → (m ≤ Z.of_nat k)%Z →
  auto_increment.max_row_of (Int m)
    (imap (λ i record, match record with
                       | JDict d => JDict (<["row_number" := JInt (Z.of_nat (S (k + i)))]> d)
                       | _ => record
                       end) items)
  = Ok (Int (if items is [] then m else Z.of_nat (k + length items))).
Proof.
  induction items as [|item items IH]; intros k m Hd Hm; [done|].
  destruct item as [| | | | | |d]; try done. simpl in Hd.
  rewrite imap_cons. cbn [auto_increment.max_row_of auto_increment.max_step].
  rewrite lookup_insert_eq. cbn [number_of auto_increment.less].
  rewrite Nat.add_0_r.
  destruct (Z.ltb_spec m (Z.of_nat (S k))) as [_|?]; [|lia].
  rewrite (imap_ext _ (λ i record,
             match record with
             | JDict d0 => JDict (<["row_number" := JInt (Z.of_nat (S (S k + i)))]> d0)
             | _ => record
             end)).
  2: { intros i x _. destruct x; try done. simpl.
       by replace (k + S i) with (S (k + i)) by lia. }
  rewrite (IH (S k) (Z.of_nat (S k)) Hd ltac:(lia)).
  destruct items; simpl; do 2 f_equal; lia.
Qed.

Lemma imap_absorb {A} (f g : nat → A → A) l :
  (∀ i x, g i (f i x) = f i x) → imap g (imap f l) = imap f l.
Proof.
  intros H. apply list_eq. intros i. rewrite !list_lookup_imap.
  destruct (l !! i); simpl; [|done]. by rewrite H.
Qed.

(** X30: [reindex_row_numbers] numbers the records of a list 1, 2, 3, ... in
    their order, whatever numbers they had, and leaves everything else of
    them alone.  On a list of records the next row number is then the
    length plus one, and [ensure_row_numbers] and a second
    [reindex_row_numbers] change nothing. *)
Theorem reindex_numbers_in_sequence (items : list json) :
  ∃ numbered,
    auto_increment.reindex_row_numbers (JList items) = Ok (JList numbered)
    ∧ length numbered = length items
    ∧ (∀ i d, items !! i = Some (JDict d) →
              numbered !! i
              = Some (JDict (<["row_number" := JInt (Z.of_nat (S i))]> d)))
    ∧ auto_increment.reindex_row_numbers (JList numbered) = Ok (JList numbered)
    ∧ auto_increment.ensure_row_numbers (JList numbered) = Ok (JList numbered)
    ∧ (forallb is_dict items = true →
       auto_increment.get_next_row_number (JList numbered)
       = Ok (JInt (Z.of_nat (length items) + 1))).
Proof.
  set (number := λ (i : nat) (record : json),
         match record with
         | JDict d => JDict (<["row_number" := JInt (Z.of_nat (S i))]> d)
         | _ => record
         end).
  exists (imap number items).
  assert (∀ l, auto_increment.reindex_row_numbers (JList l) = Ok (JList (imap number l)))
    as Hre.
  { intros [|x l]; [done|]. reflexivity. }
  split; [apply Hre|]. split; [apply length_imap|]. split; [|split; [|split]].
  - intros i d Hi. rewrite list_lookup_imap, Hi. done.
  - rewrite Hre. do 2 f_equal. apply imap_absorb.
    intros i x. destruct x; try done. simpl. by rewrite insert_insert_eq.
  - unfold auto_increment.ensure_row_numbers, auto_increment.for_each_numbered.
    destruct items as [|x l]; [done|].
    assert (truthy (JList (imap number (x :: l))) = true) as -> by done.
    cbn [negb]. do 2 f_equal. apply imap_absorb.
    intros i y. destruct y; try done. simpl. by rewrite lookup_insert_eq.
  - intros Hd. unfold auto_increment.get_next_row_number.
    destruct items as [|x l]; [done|].
    assert (truthy (JList (imap number (x :: l))) = true) as -> by done.
    cbn [negb iterate].
    pose proof (max_row_of_numbered (x :: l) 0 0 Hd ltac:(lia)) as Hmax.
    cbn [Nat.add] in Hmax. fold number in Hmax. rewrite Hmax.
    do 2 f_equal.
Qed.

(** * Runs on the sample deployment *)

(** A closed equation or comparison settled by evaluating both sides. *)
Ltac by_computation :=
  lazymatch goal with
  | |- @eq ?T ?a ?b => vm_cast_no_check (@eq_refl T b)
  | |- _ => vm_compute; first [lia | discriminate | reflexivity]
  end.


Lemma read_all_discards_witness :
  ∃ w', read_all demo_store "config"
          (set_files {[ "/srv/data/config.json" := Document (JDict ∅) ]} demo_world)
        = (Ok [], w').
Proof.
  destruct (read_all_discards_non_array demo_store "config"
              (set_files {[ "/srv/data/config.json" := Document (JDict ∅) ]} demo_world)
              (JDict ∅)) as (w' & Hr & _).
  - by_computation.
  - by_computation.
  - discriminate.
  - by exists w'.
Defined.

Lemma update_merges_witness :
  ∃ r' w', update demo_store "drivers" "deadbeef" new_driver demo_world = (Ok (Some r'), w')
           ∧ r' !! "full_name" = Some (JStr "Omar")
           ∧ r' !! "id" = Some (JStr "deadbeef")
           ∧ r' !! "updated_at" = Some (JStr "2024-05-17T10:30:00.000500").
Proof.
  destruct (update_merges_and_persists demo_store "drivers" "deadbeef" new_driver demo_world)
    as [Hfound _]; [by_computation|].
  destruct (Hfound demo_driver (set_io_faults 0 demo_world))
    as (r' & w' & data & k & Hu & Hnew & Hold & Hat & _); [by_computation|].
  exists r', w'. split; [exact Hu|]. split; [apply Hnew; by_computation|].
  split; [|rewrite Hat; by_computation].
  rewrite Hold; by_computation.
Defined.

Lemma create_then_find_witness :
  ∃ s w' w'', create demo_store "clients" new_driver demo_world = (Ok s, w')
              ∧ find_by_id demo_store "clients" "deadbeef" w' = (Ok (Some s), w'').
Proof.
  destruct (create_then_find_by_id demo_store "clients" new_driver demo_world)
    as (s & w' & k & Hc & Hs & Hlen & w'' & Hfind).
  - by_computation.
  - by_computation.
  - exists demo_world. by_computation.
  - exists s, w', w''. split; [exact Hc|exact Hfind].
Defined.

Lemma delete_is_final_witness :
  ∃ w1 w2, delete demo_store "drivers" "deadbeef" demo_world = (Ok true, w1)
           ∧ delete demo_store "drivers" "deadbeef" w1 = (Ok false, w2).
Proof.
  destruct (delete_is_final demo_store "drivers" "deadbeef" demo_world
              (set_io_faults 0 demo_world) [JDict demo_driver])
    as (b & w1 & Hd & Hb & _ & _ & w2 & Hd2).
  - by_computation.
  - by_computation.
  - by_computation.
  - exists w1, w2. split; [|exact Hd2]. rewrite Hd. f_equal. f_equal.
    apply Hb. exists demo_driver. split; [apply list_elem_of_here|by_computation].
Defined.

Lemma update_keeps_created_at_witness :
  ∃ r' w', update demo_store "drivers" "deadbeef" new_driver demo_world = (Ok (Some r'), w')
           ∧ r' !! "created_at" = Some (JStr "2024-05-01T08:00:00").
Proof.
  destruct (update_keeps_created_at demo_store "drivers" "deadbeef" new_driver demo_driver
              demo_world (set_io_faults 0 demo_world))
    as (r' & w' & Hu & Hc & _).
  - by_computation.
  - by_computation.
  - exists r', w'. split; [exact Hu|]. rewrite Hc; by_computation.
Defined.

(** C2 does not hold as stated.  The uuid drawn here starts with the id of
    the driver already stored, and the clock moves between the two stamps:
    [find_by_id] on the id of the created record returns the older record,
    and the created record's [created_at] differs from its [updated_at]. *)
Lemma create_round_trip_counterexample :
  new_driver !! "id" = None
  ∧ ∃ s w' w'',
      create demo_store "drivers" new_driver demo_world = (Ok s, w')
      ∧ s !! "id" = Some (JStr "deadbeef")
      ∧ find_by_id demo_store "drivers" "deadbeef" w' = (Ok (Some demo_driver), w'')
      ∧ demo_driver ≠ s
      ∧ s !! "created_at" = Some (JStr "2024-05-17T10:30:00.000500")
      ∧ s !! "updated_at" = Some (JStr "2024-05-17T10:30:00.000750").
Proof.
  split; [by_computation|].
  destruct (create_ok demo_store "drivers" new_driver demo_world)
    as (w' & Hc & Hfiles & Hio); [by_computation..|].
  destruct (find_by_id_ok demo_store "drivers" "deadbeef" w' (Some (0, demo_driver)))
    as (w'' & Hfind & _).
  - rewrite Hio. by_computation.
  - exact (readable_document _ _ _ Hfiles).
  - rewrite (stored_document _ _ _ Hfiles). by_computation.
  - exists (stamped new_driver demo_world 1), w', w''.
    split; [exact Hc|]. split; [by_computation|]. split; [exact Hfind|].
    split; [|split; by_computation].
    intros H. apply (f_equal (λ m : Dict, m !! "full_name")) in H.
    vm_compute in H. discriminate.
Qed.


(** C1 does not hold as stated: when the clock reads the instant of the
    stored stamp, [update] writes the same [updated_at] again, which is not
    strictly greater than the one before. *)
Lemma update_same_stamp_counterexample :
  ∃ r r' w0 w',
    find_by_id demo_store "drivers" "deadbeef" standing_world = (Ok (Some r), w0)
    ∧ update demo_store "drivers" "deadbeef" new_driver standing_world
      = (Ok (Some r'), w')
    ∧ r !! "updated_at" = Some (JStr "2024-05-01T08:00:00")
    ∧ r' !! "updated_at" = Some (JStr "2024-05-01T08:00:00")
    ∧ String.ltb "2024-05-01T08:00:00" "2024-05-01T08:00:00" = false.
Proof.
  destruct (find_by_id_ok demo_store "drivers" "deadbeef" standing_world
              (Some (0, demo_driver))) as (w0 & Hfind & _); [by_computation..|].
  destruct (update_found demo_store "drivers" "deadbeef" new_driver standing_world
              0 demo_driver) as (w' & Hu & _); [by_computation..|].
  exists demo_driver, (merged new_driver demo_driver (standing_clock 1)), w0, w'.
  split; [exact Hfind|]. split; [exact Hu|]. repeat split; by_computation.
Qed.

(** C7 does not hold as stated: [created_at] among the partial fields
    overwrites the stored one. *)
Lemma update_created_at_counterexample :
  ∃ r' w',
    update demo_store "drivers" "deadbeef"
      {[ "created_at" := JStr "1999-01-01T00:00:00" ]} demo_world = (Ok (Some r'), w')
    ∧ demo_driver !! "created_at" = Some (JStr "2024-05-01T08:00:00")
    ∧ r' !! "created_at" = Some (JStr "1999-01-01T00:00:00").
Proof.
  destruct (update_found demo_store "drivers" "deadbeef"
              {[ "created_at" := JStr "1999-01-01T00:00:00" ]} demo_world 0 demo_driver)
    as (w' & Hu & _); [by_computation..|].
  exists (merged {[ "created_at" := JStr "1999-01-01T00:00:00" ]} demo_driver (demo_clock 1)),
         w'.
  split; [exact Hu|]. split; by_computation.
Qed.


Lemma payroll_net_witness :
  (∃ res w', payroll.calculate_driver_payroll (runtime := demo_runtime) demo_payroll
               "D1" 2024 5 office_world = (Ok res, w')
             ∧ res !! "gross_salary" = Some (JFloat 345.75)
             ∧ res !! "advance_deduction" = Some (JFloat 50)
             ∧ res !! "net_salary" = Some (JFloat 295.75))
  ∧ (∃ res w', payroll.calculate_driver_payroll (runtime := demo_runtime) demo_payroll
                 "D1" 2024 5 office_world_capped = (Ok res, w')
               ∧ res !! "advance_deduction" = Some (JFloat 100)
               ∧ res !! "net_salary" = Some (JFloat 245.75))
  ∧ ∃ detail,
      payroll.advance_step (runtime := demo_runtime) demo_payroll driver_D1 "D1" 2024 5
        (JInt 0, []) (JDict advance_A4) office_world
      = (Ok (JFloat 20.123450000000005, [JDict detail]), office_world)
      ∧ detail !! "deduction_amount" = Some (JFloat 20.123).
Proof.
  split; [|split].
  - destruct (@payroll_net_calculation demo_runtime demo_payroll "D1" 2024 5
                driver_D1 advance_A1 demo_report [JDict advance_A0; JDict advance_A1]
                150 50 office_world)
      as (Hfifty & _); [by_computation..|].
    destruct Hfifty as (res & w' & Hres & _ & Hg & Hd & Hn); [by_computation|].
    exists res, w'. split; [exact Hres|]. split; [exact Hg|]. split; [exact Hd|exact Hn].
  - destruct (@payroll_net_calculation demo_runtime demo_payroll "D1" 2024 5
                driver_D1 advance_A3 demo_report [JDict advance_A3]
                150 50 office_world_capped)
      as (_ & Hcapped & _); [by_computation..|].
    destruct (Hcapped 250%float) as (res & w' & Hres & _ & _ & Hd & Hn);
      [by_computation..|].
    exists res, w'. split; [exact Hres|]. split; [exact Hd|exact Hn].
  - destruct (@payroll_net_calculation demo_runtime demo_payroll "D1" 2024 5
                driver_D1 advance_A1 demo_report [JDict advance_A0; JDict advance_A1]
                150 50 office_world)
      as (_ & _ & Hstep); [by_computation..|].
    unshelve epose proof
      (Hstep (JInt 0) [] advance_A4 100.12345%float 80%float 50%float office_world
         _ _ _ _ _ _ (JFloat 20.123450000000005) _)
      as (_ & _ & detail & Hrun & Hdetail); [by_computation..|].
    exists detail. split; [exact Hrun|].
    rewrite Hdetail. by_computation.
Defined.

Lemma daily_backup_witness :
  ∃ w1 w3,
    _create_daily_backup demo_store "/srv/data/drivers.json" (set_io_faults 0 demo_world)
      = (Ok true, w1)
    ∧ copies w1 = [("/srv/data/drivers.json", "/srv/data/backup/2024-05-17/drivers.json")]
    ∧ _create_daily_backup demo_store "/srv/data/drivers.json"
        (run demo_store [Create "drivers" new_driver; Delete "drivers" "deadbeef"] w1)
      = (Ok true, w3)
    ∧ copies w3
      = copies (run demo_store [Create "drivers" new_driver; Delete "drivers" "deadbeef"] w1).
Proof.
  destruct (daily_backup_at_most_once demo_store "/srv/data/drivers.json")
    as (_ & Hfirst & _).
  destruct (Hfirst (set_io_faults 0 demo_world) (Document (JList [JDict demo_driver])))
    as (w1 & Hb & Hc & _ & Hlater); [by_computation..|].
  assert (w1 = snd (_create_daily_backup demo_store "/srv/data/drivers.json"
                      (set_io_faults 0 demo_world))) as Hw1 by (by rewrite Hb).
  destruct (Hlater [Create "drivers" new_driver; Delete "drivers" "deadbeef"])
    as (w3 & Hb3 & Hc3 & _).
  - rewrite Hw1. by_computation.
  - exists w1, w3. split; [exact Hb|]. split; [rewrite Hc; by_computation|].
    split; [exact Hb3|exact Hc3].
Defined.

Lemma interleaved_creates_witness :
  ∃ initial sb w4 w5,
    read_all demo_store "drivers" demo_world = (Ok initial, set_io_faults 0 demo_world)
    ∧ read_all demo_store "drivers" w4 = (Ok (initial ++ [JDict sb]), w5)
    ∧ length (initial ++ [JDict sb]) = 2.
Proof.
  destruct (interleaved_creates_lose_a_record demo_store "drivers"
              {[ "full_name" := JStr "Zaid" ]} new_driver demo_world)
    as (initial & da & db & sa & sb & w0 & w1 & w2 & w3 & w4 & w5
        & Hr & Ha & Hb & Hwa & Hwb & Hfinal & Hlen); [by_computation..|].
  assert (read_all demo_store "drivers" demo_world
          = (Ok [JDict demo_driver], set_io_faults 0 demo_world)) as Hread
    by by_computation.
  rewrite Hread in Hr. injection Hr as <- <-.
  exists [JDict demo_driver], sb, w4, w5.
  split; [exact Hread|]. split; [exact Hfinal|exact Hlen].
Defined.

(** * Further runs on the sample deployment *)

Lemma read_with_lock_retries_witness :
  _read_with_lock demo_store "/srv/data/drivers.json" (set_io_faults 7 demo_world)
  = (Raise OSError, set_io_faults 2 demo_world).
Proof.
  rewrite (read_with_lock_retries demo_store "/srv/data/drivers.json"
             (Document (JList [JDict demo_driver])) (set_io_faults 7 demo_world))
    by by_computation.
  by_computation.
Defined.

Lemma write_with_lock_retries_witness :
  _write_with_lock_with demo_store torn_dump "/srv/data/drivers.json" [JDict new_driver]
    office_world
  = (Raise UnicodeEncodeError,
     with_file "/srv/data/drivers.json" (Malformed "[") office_world).
Proof.
  destruct (write_with_lock_retries demo_store "/srv/data/drivers.json"
              [JDict new_driver] office_world) as (_ & _ & Hdump).
  destruct (Hdump torn_dump) as (_ & Herror).
  rewrite (Herror UnicodeEncodeError
             (with_file "/srv/data/drivers.json" (Malformed "[") office_world));
    by_computation.
Defined.

Lemma missing_collection_witness :
  read_all demo_store "clients" demo_world = (Ok [], demo_world)
  ∧ delete demo_store "clients" "C9" demo_world = (Ok false, demo_world).
Proof.
  destruct (missing_collection_is_empty demo_store "clients" "C9" ∅ [] demo_world)
    as (Hr & _ & _ & _ & _ & Hd); [by_computation|].
  split; [exact Hr|exact Hd].
Defined.

Lemma find_by_id_first_match_witness :
  dict_get demo_driver "id" = JStr "deadbeef"
  ∧ ∃ k, [JDict demo_driver] !! k = Some (JDict demo_driver).
Proof.
  destruct (find_by_id_first_match demo_store "drivers" "deadbeef" demo_world
              (set_io_faults 0 demo_world) [JDict demo_driver])
    as (Hfound & _); [by_computation..|].
  destruct (Hfound demo_driver (set_io_faults 0 demo_world)) as (Hid & k & Hk & _);
    [by_computation|].
  split; [exact Hid|]. exists k. exact Hk.
Defined.

Lemma create_appends_witness :
  ∃ s w' w'',
    create demo_store "drivers" new_driver demo_world = (Ok s, w')
    ∧ read_all demo_store "drivers" w' = (Ok ([JDict demo_driver] ++ [JDict s]), w'').
Proof.
  destruct (create_appends demo_store "drivers" new_driver demo_world
              (set_io_faults 0 demo_world) [JDict demo_driver])
    as (s & w' & k & Hc & (w'' & Hr) & _); [by_computation..|].
  exists s, w', w''. split; [exact Hc|exact Hr].
Defined.

Lemma create_keeps_older_record_witness :
  ∃ s w' w'',
    create demo_store "drivers" duplicate_driver demo_world = (Ok s, w')
    ∧ find_by_id demo_store "drivers" "deadbeef" w' = (Ok (Some demo_driver), w'').
Proof.
  destruct (create_keeps_older_record demo_store "drivers" "deadbeef" duplicate_driver
              demo_driver demo_world (set_io_faults 0 demo_world))
    as (s & w' & w'' & Hc & _ & Hf); [by_computation..|].
  exists s, w', w''. split; [exact Hc|exact Hf].
Defined.

Lemma requests_touch_only_their_files_witness :
  files (run demo_store [Create "clients" new_driver; Delete "clients" "C9"] demo_world)
    !! "/srv/data/drivers.json"
  = Some (Document (JList [JDict demo_driver])).
Proof.
  rewrite (requests_touch_only_their_files demo_store
             [Create "clients" new_driver; Delete "clients" "C9"]
             "/srv/data/drivers.json" demo_world); [by_computation|].
  intros q Hq [Heq|[d Heq]].
  - apply elem_of_cons in Hq as [->|Hq]; [by vm_compute in Heq|].
    apply list_elem_of_singleton in Hq as ->. by vm_compute in Heq.
  - pose proof (snapshot_basename demo_store (request_file demo_store q) d) as Hname.
    rewrite <- Heq in Hname.
    apply elem_of_cons in Hq as [->|Hq]; [by vm_compute in Hname|].
    apply list_elem_of_singleton in Hq as ->. by vm_compute in Hname.
Defined.

Lemma snapshot_holds_previous_content_witness :
  files (serve demo_store (Create "drivers" new_driver) (set_io_faults 0 demo_world))
    !! "/srv/data/backup/2024-05-17/drivers.json"
  = Some (Document (JList [JDict demo_driver])).
Proof.
  apply (snapshot_holds_previous_content demo_store (Create "drivers" new_driver)
           (set_io_faults 0 demo_world) (Document (JList [JDict demo_driver])));
    by_computation.
Defined.

Lemma failed_snapshot_witness :
  ∃ s w',
    create demo_store "drivers" new_driver demo_world = (Ok s, w')
    ∧ files w' !! "/srv/data/backup/2024-05-17/drivers.json" = None.
Proof.
  destruct (failed_snapshot_does_not_stop_create demo_store "drivers" new_driver
              demo_world (Document (JList [JDict demo_driver])) [JDict demo_driver])
    as (_ & s & w' & Hc & _ & Hnone); [by_computation..|].
  exists s, w'. split; [exact Hc|exact Hnone].
Defined.

Lemma get_file_path_extension_witness :
  _get_file_path demo_store "drivers.json" = _get_file_path demo_store "drivers".
Proof.
  destruct (get_file_path_extension demo_store "drivers") as (Heq & _);
    [by_computation..|exact Heq].
Defined.

Lemma stamps_sort_by_time_witness :
  String.ltb (isoformat (demo_clock 0)) (isoformat (demo_clock 1)) = true.
Proof.
  destruct (stamps_sort_by_time (demo_clock 0) (demo_clock 1)) as ((_ & Hlt) & _).
  - unfold valid_datetime. simpl. lia.
  - unfold valid_datetime. simpl. lia.
  - apply Hlt. by_computation.
Defined.

Lemma commission_needs_driver_witness :
  commissions.calculate_commission (runtime := demo_runtime) demo_calculator
    "D9" "C1" None office_world
  = (Ok (commissions.commission_failure "السائق غير موجود"), office_world).
Proof.
  destruct (commission_needs_driver_and_client (runtime := demo_runtime) demo_calculator
              "D9" "C1" None office_world) as (Hdriver & _); [by_computation..|].
  apply Hdriver. intros r H. by vm_compute in H.
Defined.

Lemma commission_rejects_bad_date_witness :
  commissions.calculate_commission (runtime := demo_runtime) demo_calculator
    "D1" "C1" (Some "17/05/2024") office_world
  = (Ok (commissions.commission_failure "خطأ في حساب العمولة: "), office_world).
Proof.
  rewrite (commission_rejects_bad_date (runtime := demo_runtime) demo_calculator
             "D1" "C1" "17/05/2024" driver_D1 client_C1 office_world).
  - by_computation.
  - repeat split; by_computation.
  - discriminate.
  - by_computation.
Defined.

Lemma commission_needs_object_config_witness :
  ∃ res w',
    commissions.calculate_commission (runtime := demo_runtime) demo_calculator
      "D1" "C1" (Some "2024-05-17") office_world_array_config = (Ok res, w')
    ∧ res !! "success" = Some (JBool false).
Proof.
  apply (commission_needs_object_config (runtime := demo_runtime) demo_calculator
           "D1" "C1" (Some "2024-05-17") driver_D1 client_C1 office_world_array_config);
    by_computation.
Defined.

Lemma primary_client_without_amount_witness :
  ∃ res,
    commissions.calculate_commission (runtime := demo_runtime) demo_calculator
      "D2" "C1" (Some "2024-05-17") office_world_two_drivers
    = (Ok res, office_world_two_drivers)
    ∧ res !! "commission" = Some (JInt 0).
Proof.
  destruct (primary_client_without_amount (runtime := demo_runtime) demo_calculator
              "D2" "C1" "2024-05-17" may_17 driver_D2 client_C1 []
              office_world_two_drivers) as (res & Hres & _ & Hc & _).
  - repeat split; by_computation.
  - discriminate.
  - by_computation.
  - by_computation.
  - constructor.
  - by_computation.
  - by_computation.
  - exists res. split; [exact Hres|exact Hc].
Defined.

Lemma lapsed_rule_witness :
  ∃ res,
    commissions.calculate_commission (runtime := demo_runtime) demo_calculator
      "D1" "C1" (Some "2024-05-17") office_world_lapsed = (Ok res, office_world_lapsed)
    ∧ res !! "source" = Some (JStr "driver_default").
Proof.
  destruct (lapsed_rule_is_passed_over (runtime := demo_runtime) demo_calculator
              "D1" "C1" "2024-05-17" may_17 driver_D1 client_C1 rule_2023 [] [] 0.3
              office_world_lapsed) as (res & Hres & _ & _ & Hs).
  - repeat split; by_computation.
  - discriminate.
  - by_computation.
  - by_computation.
  - constructor.
  - constructor.
  - right. right. split.
    + right. exists "2023-01-01", {| year := 2023; month := 1; day := 1; hour := 0;
                                     minute := 0; second := 0; microsecond := 0 |}.
      repeat split; by_computation.
    + exists "2023-12-31", {| year := 2023; month := 12; day := 31; hour := 0;
                              minute := 0; second := 0; microsecond := 0 |}.
      repeat split; first [discriminate | by_computation].
  - by_computation.
  - by_computation.
  - by_computation.
  - exists res. split; [exact Hres|exact Hs].
Defined.

Lemma payroll_needs_driver_witness :
  ∃ res, payroll.calculate_driver_payroll (runtime := demo_runtime) demo_payroll
           "D9" 2024 5 office_world = (Ok res, office_world)
         ∧ res !! "success" = Some (JBool false).
Proof.
  eexists. split.
  - apply (payroll_needs_driver (runtime := demo_runtime) demo_payroll "D9" 2024 5
             office_world); [by_computation|].
    intros r H. by vm_compute in H.
  - by_computation.
Defined.

Lemma payroll_passes_on_failure_witness :
  payroll.calculate_driver_payroll (runtime := demo_runtime) failing_payroll
    "D1" 2024 5 office_world
  = (Ok (list_to_map [("success", JBool false); ("error", JStr "no orders")]),
     office_world).
Proof.
  destruct (payroll_passes_on_commission_failure (runtime := demo_runtime)
              failing_payroll "D1" 2024 5 driver_D1 300 office_world) as (Hpass & _);
    [by_computation..|].
  apply Hpass; by_computation.
Defined.

Lemma payroll_without_advances_witness :
  ∃ res w',
    payroll.calculate_driver_payroll (runtime := demo_runtime) demo_payroll
      "D1" 2024 5 office_world_settled = (Ok res, w')
    ∧ res !! "gross_salary" = Some (JFloat 345.75)
    ∧ res !! "advance_deduction" = Some (JInt 0)
    ∧ res !! "net_salary" = Some (JFloat 345.75).
Proof.
  destruct (payroll_without_advances (runtime := demo_runtime) demo_payroll "D1" 2024 5
              driver_D1 demo_report [JDict advance_A0] 300 45.75
              office_world_settled office_world_settled)
    as (res & w' & Hres & _ & Hg & Hd & Hn & _); [by_computation..|].
  exists res, w'. split; [exact Hres|]. split; [|split; [exact Hd|]].
  - rewrite Hg. by_computation.
  - rewrite Hn. by_computation.
Defined.

Lemma advance_adds_nothing_witness :
  payroll.advance_step (runtime := demo_runtime) demo_payroll driver_D1 "D1" 2024 5
    (JInt 0, []) (JDict advance_A0) office_world
  = (Ok (JInt 0, []), office_world).
Proof.
  destruct (advance_adds_nothing (runtime := demo_runtime) demo_payroll driver_D1 "D1"
              2024 5 (JInt 0, []) advance_A0 80 80 office_world) as (Hpaid & _);
    [by_computation..|].
  apply Hpaid. by_computation.
Defined.

Lemma advance_percentage_witness :
  ∃ detail,
    payroll.advance_step (runtime := demo_runtime) demo_payroll driver_D1 "D1" 2024 5
      (JInt 0, []) (JDict advance_A5) office_world
    = (Ok (JFloat 20.123450000000005, [JDict detail]), office_world)
    ∧ detail !! "deduction_amount" = Some (JFloat 20.123).
Proof.
  unshelve epose proof
    (advance_percentage_of_earnings (runtime := demo_runtime) demo_payroll
       driver_D1 demo_report "D1" 2024 5 (JInt 0) [] advance_A5
       100.12345 80 50 45.75 300 office_world office_world
       _ _ _ _ _ _ _ _ _ (JFloat 20.123450000000005) _)
    as (_ & _ & detail & Hrun & Hdetail & _); [by_computation..|].
  exists detail. split; [exact Hrun|]. rewrite Hdetail. by_computation.
Defined.

Lemma log_event_appends_witness :
  ∃ w' logs,
    event_logger.log_event demo_logger (JStr "create") (JStr "driver") (JStr "D1")
      (JStr "admin") JNull JNull log_world = (Ok true, w')
    ∧ files w' !! "/srv/data/event_log.json" = Some (Document (JList logs))
    ∧ length logs = 2.
Proof.
  destruct (log_event_appends demo_logger (JStr "create") (JStr "driver") (JStr "D1")
              (JStr "admin") JNull JNull [JDict demo_driver] log_world)
    as (event & w' & logs & Hrun & Hfiles & Hlogs & _); [by_computation..|].
  exists w', logs. split; [exact Hrun|]. split; [exact Hfiles|].
  rewrite Hlogs. reflexivity.
Defined.


Lemma next_row_number_witness :
  auto_increment.get_next_row_number
    (JList [JDict {[ "row_number" := JInt 4 ]}; JDict ∅; JDict {[ "row_number" := JInt 2 ]}])
  = Ok (JInt 5).
Proof.
  destruct (next_row_number_is_fresh
              [JDict {[ "row_number" := JInt 4 ]}; JDict ∅;
               JDict {[ "row_number" := JInt 2 ]}] ∅)
    as (n & Hn & _ & Hfresh & Hmax & _).
  - intros d v Hd Hv.
    repeat (apply elem_of_cons in Hd as [Hd|Hd];
            [injection Hd as ->;
             first [ rewrite lookup_singleton_Some in Hv; destruct Hv as [_ <-]; eauto
                   | by rewrite lookup_empty in Hv ]|]).
    by apply elem_of_nil in Hd.
  - rewrite Hn. do 2 f_equal.
    assert (4 < n)%Z by (apply (Hfresh {[ "row_number" := JInt 4 ]}); [by left|done]).
    destruct Hmax as [->|(d & Hd & Hv)]; [lia|].
    repeat (apply elem_of_cons in Hd as [Hd|Hd];
            [injection Hd as ->;
             first [ rewrite lookup_singleton_Some in Hv; destruct Hv as [_ [= Hv]]; lia
                   | by rewrite lookup_empty in Hv ]|]).
    by apply elem_of_nil in Hd.
Defined.

Lemma filter_records_selects_witness :
  dict_get advance_A1 "paid_amount" = JFloat 50
  ∧ filter_records demo_store "advances" [("paid_amount", JInt 50)] office_world
    = (Ok [JDict advance_A1], office_world).
Proof.
  split; [by_computation|].
  destruct (filter_records_selects demo_store "advances" [("paid_amount", JInt 50)]
              office_world) as (_ & Hselect & _).
  destruct (Hselect [JDict advance_A0; JDict advance_A1] office_world)
    as (Hfr & _); [by_computation..|].
  rewrite Hfr. by_computation.
Defined.

Lemma generated_id_witness : generated_id office_world = generated_id demo_world.
Proof.
  destruct (generated_id_is_32_bits demo_world) as (_ & Hsame).
  apply Hsame. by_computation.
Defined.

Lemma reindex_numbers_witness :
  ∃ numbered,
    auto_increment.reindex_row_numbers
      (JList [JDict ∅; JDict {[ "row_number" := JInt 7 ]}]) = Ok (JList numbered)
    ∧ auto_increment.get_next_row_number (JList numbered) = Ok (JInt 3).
Proof.
  destruct (reindex_numbers_in_sequence [JDict ∅; JDict {[ "row_number" := JInt 7 ]}])
    as (numbered & Hre & _ & _ & _ & _ & Hnext).
  exists numbered. split; [exact Hre|]. rewrite Hnext by by_computation. reflexivity.
Defined.
